(** * PytorchModelCreator: the compiled forward and training kernels

  A shallow embedding of
  [psyneulink/library/compositions/pytorchmodelcreator.py].

  The generator methods ([_gen_llvm_forward_function_body],
  [_gen_llvm_training_backprop], ...) emit straight-line LLVM code whose
  shape is fixed by the Python control flow; each [_gen_inject_*] call is
  embedded as the operation the emitted call performs on its buffers, so a
  generator method becomes the function its emitted kernel computes.

  The methods that run in Python ([__init__], [forward], the accessors,
  [_get_param_initializer], [_get_param_struct_type]) are embedded as
  functions on the Python objects they read and write. *)

From Stdlib Require Import String ZArith Arith Bool Lia.
From Stdlib Require Import Reals Lra.
From Stdlib Require Import List.
Import ListNotations.

Set Implicit Arguments.

(** ** Results of fallible Python code *)

(** A Python call either returns or raises; [Raise] carries the message. *)
Inductive result (A : Type) : Type :=
| Ok (a : A)
| Raise (msg : string).
Arguments Ok {A} a.
Arguments Raise {A} msg.

Definition bind {A B : Type} (r : result A) (k : A -> result B) : result B :=
match r with
| Ok a => k a
| Raise m => Raise m
end.

Notation "x <- r ;; k" := (bind r (fun x => k))
(at level 61, r at next level, right associativity).

Definition is_ok {A : Type} (r : result A) : bool :=
match r with Ok _ => true | Raise _ => false end.

(** ** The element type [ctx.float_ty]

  The kernels only use the five floating-point instructions below and a
  few literal constants.  Nothing is assumed about them, so every generic
  statement holds for IEEE doubles as well as for the reals. *)
Class FloatTy (F : Type) : Type := {
fzero : F;
fone : F;
fneg_one : F;
fhalf : F;
fadd : F -> F -> F;
fsub : F -> F -> F;
fmul : F -> F -> F;
fdiv : F -> F -> F;
fexp : F -> F
}.

(** The reals, for the analytic statements about derivatives. *)
#[export] Instance R_float : FloatTy R := {|
fzero := 0%R;
fone := 1%R;
fneg_one := (-1)%R;
fhalf := (/ 2)%R;
fadd := Rplus;
fsub := Rminus;
fmul := Rmult;
fdiv := Rdiv;
fexp := exp
|}.

(** Exact integer arithmetic, for running the kernels on concrete graphs
  with [Linear] nodes.  Division is integer division and the exponential
  is a power of two: neither is used by a [Linear] kernel. *)
#[export] Instance Z_float : FloatTy Z := {|
fzero := 0%Z;
fone := 1%Z;
fneg_one := (-1)%Z;
fhalf := 0%Z;
fadd := Z.add;
fsub := Z.sub;
fmul := Z.mul;
fdiv := Z.div;
fexp := Z.pow 2
|}.

(** ** Primitive kernels ([__pnl_builtin_*]) *)

Section Builtins.
Context {F : Type} `{FloatTy F}.

Definition vec := list F.
Definition mat := list (list F).

(** Element [i] of a buffer; a read past the end is modelled as zero. *)
Definition load (v : vec) (i : nat) : F := nth i v fzero.
Definition load2 (m : mat) (i j : nat) : F := nth j (nth i m []) fzero.

(** Modelled from the spec: [__pnl_builtin_vec_copy], "vec_copy",
    writes [dim] elements of [vector] into the output buffer. *)
Definition vec_copy (vector : vec) (dim : nat) : vec :=
  map (fun i => load vector i) (seq 0 dim).

(** Modelled from the spec: [__pnl_builtin_vec_add], elementwise sum. *)
Definition vec_add (u v : vec) (dim : nat) : vec :=
  map (fun i => fadd (load u i) (load v i)) (seq 0 dim).

(** Modelled from the spec: [__pnl_builtin_vec_hadamard], elementwise
    product. *)
Definition vec_hadamard (u v : vec) (dim : nat) : vec :=
  map (fun i => fmul (load u i) (load v i)) (seq 0 dim).

(** Modelled from the spec: [__pnl_builtin_vxm], "vec_mat_mul(u, M)
    (row-vector x matrix -> row-vector)"; [m2] has [y] rows and [z]
    columns, the result has [z] elements. *)
Definition vxm (m1 : vec) (m2 : mat) (y z : nat) : vec :=
  map (fun j =>
         fold_left (fun acc i => fadd acc (fmul (load m1 i) (load2 m2 i j)))
                   (seq 0 y) fzero)
      (seq 0 z).

(** Modelled from the spec: [__pnl_builtin_vxm_transposed],
    "vec_mat_mul_transposed(u, M) (row-vector x M^T -> row-vector)";
    [m2] has [y] rows and [z] columns, [m1] has [z] elements and the
    result has [y]. *)
Definition vxm_transposed (m1 : vec) (m2 : mat) (y z : nat) : vec :=
  map (fun i =>
         fold_left (fun acc j => fadd acc (fmul (load m1 j) (load2 m2 i j)))
                   (seq 0 z) fzero)
      (seq 0 y).

End Builtins.

Arguments vec F : clear implicits.
Arguments mat F : clear implicits.

(** ** Activation kernels *)

Section Activation.
Context {F : Type} `{FloatTy F}.

(** [node.function]: the transfer functions of
    [psyneulink.core.components.functions.transferfunctions] that the
    module imports, with the parameters the creators read. *)
Inductive TransferFunction : Type :=
| Linear (slope intercept : F)
| Logistic (gain bias offset : F)
| ReLU (gain bias leak : F).

(** [modify_value] of [bin_function_creator]: the [isinstance] chain,
    with its [else: raise]. *)
Definition modify_value (function : TransferFunction) : result (F -> F) :=
  match function with
  | Linear slope intercept =>
      Ok (fun x => fadd (fmul x slope) intercept)
  | Logistic gain0 bias offset =>
      let gain := fmul fneg_one gain0 in
      Ok (fun x =>
            let arg := fadd (fmul gain (fsub x bias)) offset in
            fdiv fone (fadd fone (fexp arg)))
  | ReLU _ _ _ => Raise "Unsupported compiled activation function"
  end.

(** [modify_value] of [bin_function_derivative_creator]. *)
Definition modify_value_derivative (function : TransferFunction)
  : result (F -> F) :=
  match function with
  | Linear slope _ => Ok (fun _ => slope)
  | Logistic gain0 bias offset =>
      let gain := fmul fneg_one gain0 in
      Ok (fun x =>
            let arg := fadd (fmul gain (fsub x bias)) offset in
            let ret := fdiv fone (fadd fone (fexp arg)) in
            fmul ret (fsub fone ret))
  | ReLU _ _ _ =>
      Raise "Function type is currently unsupported by compiled execution!"
  end.

(** An emitted activation kernel: input vector, its size, output. *)
Definition kernel : Type := (vec F) -> nat -> (vec F).

(** The loop both creators emit: [output[i] = modify_value(input[i])] for
    [i] in [0 .. dim-1]. *)
Definition function_loop (modify : F -> F) : kernel :=
  fun input_vector dim =>
  map (fun iterator => modify (load input_vector iterator)) (seq 0 dim).

(** The kernels are defined exactly for [Linear] and [Logistic]. *)
Definition supported (function : TransferFunction) : bool :=
  match function with
  | Linear _ _ | Logistic _ _ _ => true
  | ReLU _ _ _ => false
  end.

End Activation.

Arguments TransferFunction F : clear implicits.
Arguments kernel F : clear implicits.


(** ** [function_creator]: the activation functions of the interpreted model *)

(** What the Python closures of [function_creator] use of torch tensors
    beyond the operations of the kernels: the unary minus of Python floats,
    [torch.max] and [torch.min]. *)
Class TorchTy (F : Type) : Type := {
fneg : F -> F;
fmax : F -> F -> F;
fmin : F -> F -> F
}.

#[export] Instance R_torch : TorchTy R := {|
fneg := Ropp;
fmax := Rmax;
fmin := Rmin
|}.

#[export] Instance Z_torch : TorchTy Z := {|
fneg := Z.opp;
fmax := Z.max;
fmin := Z.min
|}.

Section Interpreted.
Context {F : Type} `{FloatTy F} `{TorchTy F}.

(** [function_creator], on [node.function]: the closure it returns works
    elementwise on a tensor.  Every function that is neither [Linear] nor
    [Logistic] is taken for a [ReLU]. *)
Definition function_creator (function : TransferFunction F)
  : vec F -> vec F :=
  match function with
  | Linear slope intercept =>
      map (fun x => fadd (fmul x slope) intercept)
  | Logistic gain bias offset =>
      map (fun x =>
             fdiv fone
                  (fadd fone
                        (fexp (fadd (fmul (fneg gain) (fsub x bias))
                                    offset))))
  | ReLU gain bias leak =>
      map (fun x =>
             fadd (fmul (fmax (fsub x bias) fzero) gain)
                  (fmul (fmin (fsub x bias) fzero) leak))
  end.

End Interpreted.


(** ** The model object and its composition *)

(** A mechanism (a vertex of the processing graph).  Python compares
    components by identity; here a mechanism is its identifying number. *)
Definition node : Type := nat.

(** Python [d[k]] on an insertion-ordered dict: first binding of the key,
    [KeyError] when there is none. *)
Fixpoint dict_get {A : Type} (d : list (node * A)) (k : node) : result A :=
match d with
| [] => Raise "KeyError"
| (k', a) :: rest => if Nat.eqb k' k then Ok a else dict_get rest k
end.

(** Python [d[k] = v]: replaces the value of an existing key in place, or
    appends a new binding at the end. *)
Fixpoint dict_set {A : Type} (d : list (node * A)) (k : node) (a : A)
  : list (node * A) :=
match d with
| [] => [(k, a)]
| (k', a') :: rest =>
    if Nat.eqb k' k then (k', a) :: rest else (k', a') :: dict_set rest k a
end.

(** Python [k in l]. *)
Definition node_mem (k : node) (l : list node) : bool :=
existsb (Nat.eqb k) l.

(** A torch tensor as the generators see it through
    [t.detach().numpy()]: the address of its buffer and its contents. *)
Record Tensor (A : Type) : Type := {
  data_ptr : nat;
  numpy : A
}.

(** The emitted accesses to the per-node error buffers, in program order:
    [Read n e] is the read of the buffer [error_dict[e]] emitted while
    computing the error of [n]; [Final n] is the last write to the error
    buffer of [n] (the closing Hadamard product). *)
Inductive Event : Type :=
| Read (n efferent_node : node)
| Final (n : node).

(** [compiledoptimizer.AdamOptimizer], [compiledoptimizer.SGDOptimizer]
    and [compiledloss.MSELoss]: the classes the training generator can
    instantiate. *)
Inductive Optimizer : Type := AdamOptimizer | SGDOptimizer.
Inductive Loss : Type := MSELoss.

Section Compiled.
Context {F : Type} `{FloatTy F}.

(** [node_forward_info = [value, biases, function, afferents, component]];
    [afferents] is the dict from sender vertex to weight tensor, in
    insertion order (the order of [component.path_afferents]);
    [function] is the Python closure made by [function_creator]. *)
Record ForwardInfo : Type := {
  fi_value : vec F;
  fi_biases : option (Tensor (vec F));
  fi_function : vec F -> vec F;
  fi_afferents : list (node * Tensor (mat F))
}.

(** The fields of [self] and of [self._composition] that the generators
    read. *)
Record PytorchModelCreator : Type := {
  execution_sets : list (list node);
  component_to_forward_info : list (node * ForwardInfo);
  (** [len(self._composition.nodes)] *)
  composition_nodes : nat;
  (** [_composition._get_node_index] *)
  get_node_index : node -> nat;
  (** [node.name] and [node.function.name] *)
  node_name : node -> string;
  function_name : node -> string;
  (** [node.function] *)
  node_function : node -> TransferFunction F;
  (** second component of [component.defaults.variable.shape] *)
  variable_dim : node -> nat;
  (** second component of [node.defaults.value.shape] *)
  value_dim : node -> nat;
  (** [composition.get_nodes_by_role(NodeRole.INPUT)] *)
  input_nodes : list node;
  (** [composition.get_nodes_by_role(NodeRole.OUTPUT)] *)
  output_nodes : list node;
  input_CIM : node;
  (** [hasattr(node, "afferents")] *)
  has_afferents : node -> bool;
  (** [[proj.receiver._owner for proj in node.efferents]] *)
  efferents : node -> list node;
  (** [self._composition.optimizer_type] and [.loss_spec] *)
  optimizer_type : string;
  loss_spec : string
}.

(** The builder context as a generator finds it ([pnlvm.LLVMBuilderContext]
    is not part of the sources): [ctx.get_llvm_function] returns the kernel
    registered under a name and raises when there is none. *)
Definition LLVMBuilderContext : Type := string -> option (kernel F).

(** Per-node buffers addressed by node index: the value slots of the data
    structure ([_get_output_value_ptr]) and the input structure. *)
Definition data : Type := nat -> vec F.

(** The weight matrices reached through the parameter structure:
    [p node_idx afferent_index] is the matrix that the pointer returned by
    [_gen_get_node_weight_ptr] designates (stored in the structure itself,
    or behind the address stored there). *)
Definition params : Type := nat -> nat -> mat F.

(** The memory an emitted kernel works on. *)
Record Memory : Type := {
  m_params : params;
  (** [model_input] / [arg_in] *)
  m_input : data;
  (** [model_output] / [arg_out] *)
  m_output : data;
  (** the buffers bound in [z_values] *)
  m_z : node -> vec F;
  (** the buffers bound in [error_dict] *)
  m_err : node -> vec F;
  m_total_loss : F;
  (** the fields of the optimizer structure, by field number *)
  m_optim : nat -> params;
  (** [node_input_arrays[node]] and [node_target_arrays[node]], by
      [input_idx] *)
  m_stimuli : node -> nat -> vec F;
  m_targets : node -> nat -> vec F
}.

(** Emitted straight-line code. *)
Definition Code : Type := Memory -> Memory.

Definition upd {A : Type} (f : nat -> A) (i : nat) (a : A) : nat -> A :=
  fun j => if Nat.eqb j i then a else f j.

Definition upd2 {A : Type} (f : nat -> nat -> A) (i j : nat) (a : A)
  : nat -> nat -> A :=
  fun i' j' => if Nat.eqb i' i && Nat.eqb j' j then a else f i' j'.

Definition set_input (m : Memory) (index : nat) (v : vec F) : Memory :=
  {| m_params := m_params m; m_input := upd (m_input m) index v;
     m_output := m_output m; m_z := m_z m; m_err := m_err m;
     m_total_loss := m_total_loss m; m_optim := m_optim m;
     m_stimuli := m_stimuli m; m_targets := m_targets m |}.

Definition set_output (m : Memory) (index : nat) (v : vec F) : Memory :=
  {| m_params := m_params m; m_input := m_input m;
     m_output := upd (m_output m) index v; m_z := m_z m; m_err := m_err m;
     m_total_loss := m_total_loss m; m_optim := m_optim m;
     m_stimuli := m_stimuli m; m_targets := m_targets m |}.

Definition set_z (m : Memory) (n : node) (v : vec F) : Memory :=
  {| m_params := m_params m; m_input := m_input m; m_output := m_output m;
     m_z := upd (m_z m) n v; m_err := m_err m;
     m_total_loss := m_total_loss m; m_optim := m_optim m;
     m_stimuli := m_stimuli m; m_targets := m_targets m |}.

Definition set_err (m : Memory) (n : node) (v : vec F) : Memory :=
  {| m_params := m_params m; m_input := m_input m; m_output := m_output m;
     m_z := m_z m; m_err := upd (m_err m) n v;
     m_total_loss := m_total_loss m; m_optim := m_optim m;
     m_stimuli := m_stimuli m; m_targets := m_targets m |}.

Definition set_total_loss (m : Memory) (x : F) : Memory :=
  {| m_params := m_params m; m_input := m_input m; m_output := m_output m;
     m_z := m_z m; m_err := m_err m;
     m_total_loss := x; m_optim := m_optim m;
     m_stimuli := m_stimuli m; m_targets := m_targets m |}.

Definition set_optim (m : Memory) (field : nat) (p : params) : Memory :=
  {| m_params := m_params m; m_input := m_input m; m_output := m_output m;
     m_z := m_z m; m_err := m_err m;
     m_total_loss := m_total_loss m; m_optim := upd (m_optim m) field p;
     m_stimuli := m_stimuli m; m_targets := m_targets m |}.

(** Position of the first key equal to [afferent_node], with its tensor. *)
Fixpoint find_afferent (afferents : list (node * Tensor (mat F)))
  (afferent_node : node) (idx : nat) : option (nat * Tensor (mat F)) :=
  match afferents with
  | [] => None
  | (vertex, matrix) :: rest =>
      if Nat.eqb vertex afferent_node then Some (idx, matrix)
      else find_afferent rest afferent_node (S idx)
  end.

(** [_get_afferent_node_index]: falls off the loop (returns [None]) when
    the sender is not an afferent. *)
Definition _get_afferent_node_index (self : PytorchModelCreator)
  (n afferent_node : node) : result (option nat) :=
  info <- dict_get (component_to_forward_info self) n ;;
  Ok (option_map fst (find_afferent (fi_afferents info) afferent_node 0)).

(** [_get_afferent_nodes] *)
Definition _get_afferent_nodes (self : PytorchModelCreator) (n : node)
  : result (list (node * Tensor (mat F))) :=
  info <- dict_get (component_to_forward_info self) n ;;
  Ok (fi_afferents info).

(** [weight_matrix.detach().numpy().shape] *)
Definition shape (m : mat F) : nat * nat := (length m, length (hd [] m)).

(** [_gen_get_node_weight_ptr]: the place of the matrix in the parameter
    structure (node index, afferent index) and the dimensions of the host
    tensor.  When the sender is not an afferent the index is [None] and the
    Python local [weight_matrix] is unbound. *)
Definition _gen_get_node_weight_ptr (self : PytorchModelCreator)
  (n afferent_node : node) : result (nat * nat * nat * nat) :=
  let node_idx := get_node_index self n in
  info <- dict_get (component_to_forward_info self) n ;;
  match find_afferent (fi_afferents info) afferent_node 0 with
  | None => Raise "UnboundLocalError"
  | Some (afferent_node_index, weight_matrix) =>
      let (dim_x, dim_y) := shape (numpy weight_matrix) in
      Ok (node_idx, afferent_node_index, dim_x, dim_y)
  end.

(** [bin_function_creator]: the kernel cached under the node's name, or a
    new one. *)
Definition bin_function_creator (ctx : LLVMBuilderContext)
  (self : PytorchModelCreator) (n : node) : result (kernel F) :=
  let name := (node_name self n ++ "_" ++ function_name self n)%string in
  match ctx name with
  | Some llvm_func => Ok llvm_func
  | None =>
      m <- modify_value (node_function self n) ;; Ok (function_loop m)
  end.

(** [bin_function_derivative_creator] *)
Definition bin_function_derivative_creator (ctx : LLVMBuilderContext)
  (self : PytorchModelCreator) (n : node) : result (kernel F) :=
  let name :=
    (node_name self n ++ "_" ++ function_name self n ++ "_derivative")%string
  in
  match ctx name with
  | Some llvm_func => Ok llvm_func
  | None =>
      m <- modify_value_derivative (node_function self n) ;;
      Ok (function_loop m)
  end.

(** *** [_gen_llvm_forward_function_body] *)

(** The code emitted for one afferent: [weighted_inp] is computed into a
    fresh buffer, then copied into or added to the node's own value slot. *)
Definition forward_afferent_code (component_id input_node_idx : nat)
  (w : nat * nat * nat * nat) (is_set : bool) : Code :=
  fun m =>
    let '(node_idx, afferent_node_index, weights_dim_x, weights_dim_y) := w in
    let input_value := m_output m input_node_idx in
    let weighted_inp :=
      vxm input_value (m_params m node_idx afferent_node_index)
          weights_dim_x weights_dim_y in
    if is_set
    then set_output m component_id
           (vec_add weighted_inp (m_output m component_id) weights_dim_y)
    else set_output m component_id (vec_copy weighted_inp weights_dim_y).

(** The loop over [afferents.items()] of a node outside the first
    execution set. *)
Fixpoint forward_afferents (self : PytorchModelCreator) (component : node)
  (afferents : list (node * Tensor (mat F))) (is_set : bool) : result Code :=
  match afferents with
  | [] => Ok (fun m => m)
  | (input_node, _) :: rest =>
      let component_id := get_node_index self component in
      let input_node_idx := get_node_index self input_node in
      w <- _gen_get_node_weight_ptr self component input_node ;;
      k <- forward_afferents self component rest true ;;
      Ok (fun m =>
            k (forward_afferent_code component_id input_node_idx w is_set m))
  end.

(** The body of [for component in current_exec_set]. *)
Definition forward_component (ctx : LLVMBuilderContext)
  (self : PytorchModelCreator) (store_z_values : bool) (i : nat)
  (component : node) : result Code :=
  let component_id := get_node_index self component in
  info <- dict_get (component_to_forward_info self) component ;;
  let dim_y := variable_dim self component in
  weighted <- (if Nat.eqb i 0 then Ok (fun m => m)
               else forward_afferents self component (fi_afferents info)
                      false) ;;
  bin_func <- bin_function_creator ctx self component ;;
  Ok (fun m =>
        let m1 := weighted m in
        let cmp_arg :=
          if Nat.eqb i 0 then m_input m1 component_id
          else m_output m1 component_id in
        let m2 :=
          if store_z_values then set_z m1 component (vec_copy cmp_arg dim_y)
          else m1 in
        set_output m2 component_id (bin_func cmp_arg dim_y)).

Fixpoint forward_exec_set (ctx : LLVMBuilderContext)
  (self : PytorchModelCreator) (store_z_values : bool) (i : nat)
  (current_exec_set : list node)
  : result Code :=
  match current_exec_set with
  | [] => Ok (fun m => m)
  | component :: rest =>
      c <- forward_component ctx self store_z_values i component ;;
      k <- forward_exec_set ctx self store_z_values i rest ;;
      Ok (fun m => k (c m))
  end.

Fixpoint forward_sets (ctx : LLVMBuilderContext) (self : PytorchModelCreator)
  (store_z_values : bool) (i : nat) (sets : list (list node)) : result Code :=
  match sets with
  | [] => Ok (fun m => m)
  | current_exec_set :: rest =>
      c <- forward_exec_set ctx self store_z_values i current_exec_set ;;
      k <- forward_sets ctx self store_z_values (S i) rest ;;
      Ok (fun m => k (c m))
  end.

(** The nodes bound in [z_values] when the generator returns. *)
Definition z_values_keys (self : PytorchModelCreator) (store_z_values : bool)
  : list node :=
  if store_z_values then concat (execution_sets self) else [].

(** The generator: the emitted forward code and the keys of [z_values]. *)
Definition _gen_llvm_forward_function_body (ctx : LLVMBuilderContext)
  (self : PytorchModelCreator) (store_z_values : bool)
  : result (Code * list node) :=
  c <- forward_sets ctx self store_z_values 0 (execution_sets self) ;;
  Ok (c, z_values_keys self store_z_values).

End Compiled.

Arguments ForwardInfo F : clear implicits.
Arguments PytorchModelCreator F : clear implicits.
Arguments LLVMBuilderContext F : clear implicits.
Arguments data F : clear implicits.
Arguments params F : clear implicits.
Arguments Memory F : clear implicits.
Arguments Code F : clear implicits.

(** ** The loops of the training kernel *)

(** The calls the training kernel makes inside its loops. *)
Inductive Call : Type :=
| ZeroGrad
| Backprop (input_idx : nat)
| OptimizerStep.

Section Loops.
(** What the calls act on: the memory of the kernel, or a log of the
    calls. *)
Variable S : Type.

(** Modelled from the spec: [pnlvm.helpers.for_loop_zero_inc], which is not
    part of the sources, runs the body for every index from zero below
    [stop], in order ("for each (input, target) pair in the batch"). *)
Definition for_loop_zero_inc (stop : nat) (body : nat -> S -> S) : S -> S :=
  fun s => fold_left (fun acc idx => body idx acc) (seq 0 stop) s.

Variable zero_grad : S -> S.
Variable backprop : nat -> S -> S.
Variable optimizer_step : S -> S.

(** The body of the [input_loop]: [optimizer.zero_grad], the call of the
    backpropagation kernel for [input_idx], the call of the optimizer
    step. *)
Definition input_loop_body (input_idx : nat) : S -> S :=
  fun s => optimizer_step (backprop input_idx (zero_grad s)).

(** The [epoch_loop] around the [input_loop]. *)
Definition training_loops (epochs num_inputs : nat) : S -> S :=
  for_loop_zero_inc epochs
    (fun epoch_idx => for_loop_zero_inc num_inputs input_loop_body).

End Loops.

(** The calls made by the loops, in order: the loops run on a log, with
    each call appending its name. *)
Definition training_trace (epochs num_inputs : nat) : list Call :=
training_loops (fun tr => tr ++ [ZeroGrad])
               (fun input_idx tr => tr ++ [Backprop input_idx])
               (fun tr => tr ++ [OptimizerStep])
               epochs num_inputs [].

(** Modelled from the spec: [zero_grad] and the optimizer step of
    [compiledoptimizer], which is not part of the sources ("zero the
    gradient accumulators", "update every weight buffer using its
    accumulated gradient").  The stimuli whose gradients the accumulators
    hold at each optimizer step of a sequence of calls: [ZeroGrad] empties
    the accumulators, [Backprop i] adds the gradient of stimulus [i] (step 4
    of the backpropagation kernel), and [OptimizerStep] applies what is
    accumulated. *)
Fixpoint applied_gradients (accumulated : list nat) (calls : list Call)
  : list (list nat) :=
match calls with
| [] => []
| ZeroGrad :: rest => applied_gradients [] rest
| Backprop input_idx :: rest =>
    applied_gradients (accumulated ++ [input_idx]) rest
| OptimizerStep :: rest => accumulated :: applied_gradients accumulated rest
end.

(** ** [_gen_llvm_training_backprop] and [_gen_llvm_training_function_body] *)

Section Training.
Context {F : Type} `{FloatTy F}.

(** [loss._gen_inject_lossfunc_call] and [loss._gen_inject_loss_differential]
    of [compiledloss], which is not part of the sources: the scalar loss
    and the derivative vector computed from output, target and size. *)
Variable lossfunc : Loss -> vec F -> vec F -> nat -> F.
Variable loss_differential : Loss -> vec F -> vec F -> nat -> vec F.

(** The code emitted by the methods of [compiledoptimizer], which is not
    part of the sources, and the number of the [delta_w] field of the
    optimizer structure. *)
Variable _DELTA_W_NUM : Optimizer -> nat.
Variable initialize_optimizer_struct : Optimizer -> Code F.
Variable zero_grad : Optimizer -> Code F.
Variable optimizer_step : Optimizer -> Code F.

Variable ctx : LLVMBuilderContext F.
Variable self : PytorchModelCreator F.

(** The state of the generator inside the [while] loop: the queue, the
    keys of [error_dict] in insertion order, the code emitted so far (a
    function of the kernel argument [input_idx]) and its accesses to the
    error buffers. *)
Record GenState : Type := {
  backprop_queue : list node;
  error_dict : list node;
  code : nat -> Code F;
  emitted : list Event
}.

(** The code emitted for one efferent of a node that is not an output
    node. *)
Definition backprop_efferent_code (n efferent_node : node) (node_dim : nat)
  (w : nat * nat * nat * nat) (is_set : bool) : Code F :=
  fun m =>
    let '(node_idx, afferent_node_index, weights_dim_x, weights_dim_y) := w in
    let efferent_node_error := m_err m efferent_node in
    let new_val :=
      vxm_transposed efferent_node_error
                     (m_params m node_idx afferent_node_index)
                     weights_dim_x weights_dim_y in
    if is_set
    then set_err m n (vec_add new_val (m_err m n) node_dim)
    else set_err m n new_val.

(** The loop [for efferent_node in efferents]. *)
Fixpoint backprop_efferents (errors : list node) (n : node) (node_dim : nat)
  (efferent_nodes : list node) (is_set : bool)
  : result (Code F * list Event) :=
  match efferent_nodes with
  | [] => Ok (fun m => m, [])
  | efferent_node :: rest =>
      if negb (node_mem efferent_node errors) then Raise "KeyError"
      else
        w <- _gen_get_node_weight_ptr self efferent_node n ;;
        r <- backprop_efferents errors n node_dim rest true ;;
        let '(k, tr) := r in
        Ok (fun m =>
              k (backprop_efferent_code n efferent_node node_dim w is_set m),
            Read n efferent_node :: tr)
  end.

(** The code emitted for an output node. *)
Definition backprop_output_code (loss : Loss) (n : node) (node_idx : nat)
  (node_dim : nat) (derivative : kernel F) (input_idx : nat) : Code F :=
  fun m =>
    let activation_func_derivative := derivative (m_z m n) node_dim in
    let node_target := m_targets m n input_idx in
    let node_output := m_output m node_idx in
    let tmp_loss := lossfunc loss node_output node_target node_dim in
    let m1 := set_total_loss m (fadd (m_total_loss m) tmp_loss) in
    let loss_derivative :=
      loss_differential loss node_output node_target node_dim in
    set_err m1 n
      (vec_hadamard activation_func_derivative loss_derivative node_dim).

(** The code emitted for a node that is not an output node, around the
    code [propagate] of its efferent loop. *)
Definition backprop_hidden_code (n : node) (node_dim : nat)
  (derivative : kernel F) (propagate : Code F) : Code F :=
  fun m =>
    let activation_func_derivative := derivative (m_z m n) node_dim in
    let m1 := propagate m in
    set_err m1 n
      (vec_hadamard activation_func_derivative (m_err m1 n) node_dim).

(** The body of the [while] loop for a node that passes the [continue]
    test; [st] already has the node popped. *)
Definition backprop_node (loss : Loss) (z_values : list node) (n : node)
  (st : GenState) : result GenState :=
  afferent_nodes <- _get_afferent_nodes self n ;;
  let queue := backprop_queue st ++ map fst afferent_nodes in
  let node_idx := get_node_index self n in
  let node_dim := value_dim self n in
  derivative <- bin_function_derivative_creator ctx self n ;;
  if negb (node_mem n z_values) then Raise "KeyError"
  else
    let errors := error_dict st ++ [n] in
    if node_mem n (output_nodes self)
    then
      Ok {| backprop_queue := queue;
            error_dict := errors;
            code := fun input_idx m =>
                      backprop_output_code loss n node_idx node_dim derivative
                                           input_idx (code st input_idx m);
            emitted := emitted st ++ [Final n] |}
    else
      r <- backprop_efferents errors n node_dim (efferents self n) false ;;
      let '(propagate, tr) := r in
      Ok {| backprop_queue := queue;
            error_dict := errors;
            code := fun input_idx m =>
                      backprop_hidden_code n node_dim derivative propagate
                                           (code st input_idx m);
            emitted := emitted st ++ tr ++ [Final n] |}.

(** The [continue] test at the head of the [while] body. *)
Definition backprop_skip (errors : list node) (n : node) : bool :=
  node_mem n errors || negb (has_afferents self n)
  || Nat.eqb n (input_CIM self) || node_mem n (input_nodes self).

(** One iteration of [while len(backprop_queue) > 0]. *)
Definition backprop_step (loss : Loss) (z_values : list node) (st : GenState)
  : result GenState :=
  match backprop_queue st with
  | [] => Ok st
  | n :: rest =>
      let st0 := {| backprop_queue := rest;
                    error_dict := error_dict st;
                    code := code st;
                    emitted := emitted st |} in
      if backprop_skip (error_dict st) n then Ok st0
      else backprop_node loss z_values n st0
  end.

(** At most [fuel] iterations of the [while] loop. *)
Fixpoint backprop_loop (loss : Loss) (z_values : list node) (fuel : nat)
  (st : GenState) : result GenState :=
  match fuel with
  | O => Ok st
  | S fuel' =>
      match backprop_queue st with
      | [] => Ok st
      | _ :: _ =>
          st' <- backprop_step loss z_values st ;;
          backprop_loop loss z_values fuel' st'
      end
  end.

(** A number of iterations that empties the queue: every pop either
    discards a queue entry or handles a key of [component_to_forward_info]
    for the first time, adding its afferents to the queue. *)
Definition backprop_fuel : nat :=
  length (output_nodes self)
  + fold_right
      (fun p acc => S (S (length (fi_afferents (snd p)))) + acc) 0
      (component_to_forward_info self).

(** Step 4, the update of one [node_delta_w]: the two nested
    [for_loop_zero_inc] loops. *)
Definition weight_update_loop (node_delta_w : mat F)
  (afferent_node_activation err_val : vec F)
  (weights_dim_x weights_dim_y : nat) : mat F :=
  map (fun weight_row =>
         map (fun weight_column =>
                fadd (load2 node_delta_w weight_row weight_column)
                     (fmul (load afferent_node_activation weight_row)
                           (load err_val weight_column)))
             (seq 0 weights_dim_y))
      (seq 0 weights_dim_x).

Definition gradient_code (optimizer : Optimizer) (n afferent_node : node)
  (afferent_node_idx : nat) (w : nat * nat * nat * nat) : Code F :=
  fun m =>
    let '(_, _, weights_dim_x, weights_dim_y) := w in
    let node_idx := get_node_index self n in
    let afferent_node_activation :=
      m_output m (get_node_index self afferent_node) in
    let delta_w := m_optim m (_DELTA_W_NUM optimizer) in
    set_optim m (_DELTA_W_NUM optimizer)
      (upd2 delta_w node_idx afferent_node_idx
         (weight_update_loop (delta_w node_idx afferent_node_idx)
            afferent_node_activation (m_err m n)
            weights_dim_x weights_dim_y)).

Fixpoint gradients_afferents (optimizer : Optimizer) (n : node)
  (afferent_nodes : list (node * Tensor (mat F))) : result (Code F) :=
  match afferent_nodes with
  | [] => Ok (fun m => m)
  | (afferent_node, _) :: rest =>
      idx <- _get_afferent_node_index self n afferent_node ;;
      w <- _gen_get_node_weight_ptr self n afferent_node ;;
      match idx with
      | None => Raise "TypeError"
      | Some afferent_node_idx =>
          k <- gradients_afferents optimizer n rest ;;
          Ok (fun m =>
                k (gradient_code optimizer n afferent_node afferent_node_idx
                                 w m))
      end
  end.

Fixpoint compute_weight_gradients (optimizer : Optimizer)
  (errors : list node) : result (Code F) :=
  match errors with
  | [] => Ok (fun m => m)
  | n :: rest =>
      if node_mem n (input_nodes self)
      then compute_weight_gradients optimizer rest
      else
        afferent_nodes <- _get_afferent_nodes self n ;;
        c <- gradients_afferents optimizer n afferent_nodes ;;
        k <- compute_weight_gradients optimizer rest ;;
        Ok (fun m => k (c m))
  end.

(** Copy of the stimulus of every input node into the input structure. *)
Definition copy_inputs (input_idx : nat) : Code F :=
  fun m =>
    fold_left (fun acc n =>
                 set_input acc (get_node_index self n)
                   (vec_copy (m_stimuli acc n input_idx)
                             (variable_dim self n)))
              (input_nodes self) m.

(** The state of the generator when it enters the [while] loop: the code
    emitted so far copies the stimulus, runs the forward computation and
    clears [total_loss]; the queue holds the output nodes. *)
Definition backprop_init (forward_code : Code F) : GenState :=
  {| backprop_queue := output_nodes self;
     error_dict := [];
     code := fun input_idx m =>
               set_total_loss (forward_code (copy_inputs input_idx m)) fzero;
     emitted := [] |}.

(** The generator of the kernel for one stimulus; the kernel takes
    [input_idx]. *)
Definition _gen_llvm_training_backprop (optimizer : Optimizer) (loss : Loss)
  : result (nat -> Code F) :=
  fw <- _gen_llvm_forward_function_body ctx self true ;;
  let '(forward_code, z_values) := fw in
  st <- backprop_loop loss z_values backprop_fuel
          (backprop_init forward_code) ;;
  gradients <- compute_weight_gradients optimizer (error_dict st) ;;
  Ok (fun input_idx m =>
        let m1 := gradients (code st input_idx m) in
        set_total_loss m1 (fmul fhalf (m_total_loss m1))).

(** The generator of the training kernel; the kernel reads [epochs] and
    [num_inputs] from the stimuli structure. *)
Definition _gen_llvm_training_function_body
  : result (nat -> nat -> Code F) :=
  optimizer <- (if String.eqb (optimizer_type self) "adam"
                then Ok AdamOptimizer
                else if String.eqb (optimizer_type self) "sgd"
                     then Ok SGDOptimizer
                     else Raise "OPTIMIZER TYPE NOT SUPPORTED") ;;
  loss <- (if String.eqb (loss_spec self) "mse" then Ok MSELoss
           else Raise "LOSS TYPE NOT SUPPORTED") ;;
  backprop <- _gen_llvm_training_backprop optimizer loss ;;
  Ok (fun epochs num_inputs m =>
        training_loops (zero_grad optimizer) backprop
                       (optimizer_step optimizer) epochs num_inputs
                       (initialize_optimizer_struct optimizer m)).

End Training.

Arguments GenState F : clear implicits.

(** ** [_get_param_initializer] *)

(** [pnlvm.debug_env]: the debug flags that are set. *)
Definition in_debug_env (flag : string) (debug_env : list string) : bool :=
existsb (String.eqb flag) debug_env.

(** What an entry of the parameter initializer can hold. *)
Inductive ParamValue (A : Type) : Type :=
| Address (a : nat)
| Array (t : Tensor A)
| Tuple (x : A).
Arguments Address {A} a.
Arguments Array {A} t.
Arguments Tuple {A} x.

(** Python [l[i] = a] on a list: [IndexError] past the end. *)
Fixpoint list_set {A : Type} (l : list A) (i : nat) (a : A)
  : result (list A) :=
match l, i with
| [], _ => Raise "IndexError"
| _ :: rest, O => Ok (a :: rest)
| x :: rest, S i' => rest' <- list_set rest i' a ;; Ok (x :: rest')
end.

Section ParamInitializer.
Context {F : Type} `{FloatTy F}.

(** [node_params = [weight_array] (+ [bias])] *)
Record NodeParams : Type := {
  weight_array : list (option (ParamValue (mat F)));
  bias_param : option (ParamValue (vec F))
}.

(** The value stored for one tensor: its address unless ["no_ref_pass"] is
    set, the numpy array otherwise. *)
Definition param_value {A : Type} (debug_env : list string) (t : Tensor A)
  : ParamValue A :=
  if negb (in_debug_env "no_ref_pass" debug_env)
  then Address (data_ptr t)
  else Array t.

(** The loop [for (afferent_vertex, weights) in afferents.items()]. *)
Fixpoint initialize_weights (self : PytorchModelCreator F)
  (debug_env : list string) (n : node)
  (afferents : list (node * Tensor (mat F)))
  (weights : list (option (ParamValue (mat F))))
  : result (list (option (ParamValue (mat F)))) :=
  match afferents with
  | [] => Ok weights
  | (afferent_node, w) :: rest =>
      idx <- _get_afferent_node_index self n afferent_node ;;
      match idx with
      | None => Raise "TypeError"
      | Some afferent_index =>
          weights' <- list_set weights afferent_index
                        (Some (param_value debug_env w)) ;;
          initialize_weights self debug_env n rest weights'
      end
  end.

Definition initialize_node (self : PytorchModelCreator F)
  (debug_env : list string) (n : node) (forward_info : ForwardInfo F)
  : result NodeParams :=
  let afferents := fi_afferents forward_info in
  weights <- initialize_weights self debug_env n afferents
               (repeat None (length afferents)) ;;
  Ok {| weight_array := weights;
        bias_param := option_map (param_value debug_env)
                                 (fi_biases forward_info) |}.

(** The loop over [self.component_to_forward_info.items()]. *)
Fixpoint initialize_params (self : PytorchModelCreator F)
  (debug_env : list string) (items : list (node * ForwardInfo F))
  (param_list : list (option NodeParams))
  : result (list (option NodeParams)) :=
  match items with
  | [] => Ok param_list
  | (n, forward_info) :: rest =>
      node_params <- initialize_node self debug_env n forward_info ;;
      param_list' <- list_set param_list (get_node_index self n)
                       (Some node_params) ;;
      initialize_params self debug_env rest param_list'
  end.

(** Modelled from the spec: [pnlvm.execution._tupleize], which is not part
    of the sources, makes the value that is "copied into the compiled memory
    layout": an array becomes the nested tuples of its elements, a number
    stays as it is. *)
Definition tupleize_value {A : Type} (v : ParamValue A) : ParamValue A :=
  match v with
  | Array t => Tuple (numpy t)
  | _ => v
  end.

Definition _tupleize (param_list : list (option NodeParams))
  : list (option NodeParams) :=
  map (option_map
         (fun p =>
            {| weight_array := map (option_map tupleize_value)
                                   (weight_array p);
               bias_param := option_map tupleize_value (bias_param p) |}))
      param_list.

(** The arrays stored under ["no_ref_pass"] are made by
    [t.detach().numpy()], which shares the buffer of the tensor [t]: an
    array kept in [self._cached_param_list] holds, whenever it is read,
    what the tensor at its address holds then.  [weight_buffers] and
    [bias_buffers] are the tensors of the model; an array whose address is
    not that of a tensor of the model keeps its own buffer, with the
    contents it had. *)
Definition weight_buffers (self : PytorchModelCreator F)
  : list (Tensor (mat F)) :=
  flat_map (fun p => map snd (fi_afferents (snd p)))
           (component_to_forward_info self).

Definition bias_buffers (self : PytorchModelCreator F)
  : list (Tensor (vec F)) :=
  flat_map (fun p => match fi_biases (snd p) with
                     | Some biases => [biases]
                     | None => []
                     end)
           (component_to_forward_info self).

Definition read_view {A : Type} (buffers : list (Tensor A)) (t : Tensor A)
  : Tensor A :=
  match find (fun b => Nat.eqb (data_ptr b) (data_ptr t)) buffers with
  | Some b => b
  | None => t
  end.

Definition read_value {A : Type} (buffers : list (Tensor A))
  (v : ParamValue A) : ParamValue A :=
  match v with
  | Array t => Array (read_view buffers t)
  | _ => v
  end.

(** The cached list as it reads when [self] holds the tensors. *)
Definition read_views (self : PytorchModelCreator F)
  (param_list : list (option NodeParams)) : list (option NodeParams) :=
  map (option_map
         (fun p =>
            {| weight_array :=
                 map (option_map (read_value (weight_buffers self)))
                     (weight_array p);
               bias_param :=
                 option_map (read_value (bias_buffers self))
                            (bias_param p) |}))
      param_list.

(** [_get_param_initializer]: the returned initializer and the new
    [self._cached_param_list].  A cache filled by an earlier call is not
    built again; the arrays in it are read as the tensors of [self] are at
    this call. *)
Definition _get_param_initializer (self : PytorchModelCreator F)
  (debug_env : list string)
  (_cached_param_list : option (list (option NodeParams)))
  : result (list (option NodeParams) * list (option NodeParams)) :=
  let ref_pass := negb (in_debug_env "no_ref_pass" debug_env) in
  cached <-
    match _cached_param_list with
    | Some cached => Ok (read_views self cached)
    | None =>
        param_list <- initialize_params self debug_env
                        (component_to_forward_info self)
                        (repeat None (composition_nodes self)) ;;
        Ok (if ref_pass then _tupleize param_list else param_list)
    end ;;
  Ok (if ref_pass then cached else _tupleize cached, cached).

End ParamInitializer.

Arguments NodeParams F : clear implicits.

(** ** [_get_param_struct_type] *)

(** The LLVM types the parameter structure is made of:
    [pnlvm.ir.types.IntType], [pnlvm.ir.types.LiteralStructType] over a
    Python list whose places can still hold [None], and the type that
    [ctx.convert_python_struct_to_llvm_ir] gives for an array. *)
#[warnings="-register-all"] Inductive IrType : Type :=
| IntType (bits : nat)
| LiteralStructType (elements : list (option IrType))
| ArrayType (dims : list nat).

Section ParamStructType.
Context {F : Type} `{FloatTy F}.

(** [ctx.convert_python_struct_to_llvm_ir] on the array of a weight tensor
    and of a bias tensor; [pnlvm] is not part of the sources. *)
Variable convert_matrix : mat F -> IrType.
Variable convert_vector : vec F -> IrType.

(** The type of the entry of one tensor: a 64-bit integer for its address
    unless ["no_ref_pass"] is set, the type of the array otherwise. *)
Definition param_type {A : Type} (convert : A -> IrType)
  (debug_env : list string) (t : Tensor A) : IrType :=
  if negb (in_debug_env "no_ref_pass" debug_env)
  then IntType 64
  else convert (numpy t).

(** The loop [for (afferent_vertex, weights) in afferents.items()]. *)
Fixpoint struct_weights (self : PytorchModelCreator F)
  (debug_env : list string) (n : node)
  (afferents : list (node * Tensor (mat F)))
  (weight_array : list (option IrType)) : result (list (option IrType)) :=
  match afferents with
  | [] => Ok weight_array
  | (afferent_node, weights) :: rest =>
      idx <- _get_afferent_node_index self n afferent_node ;;
      match idx with
      | None => Raise "TypeError"
      | Some afferent_index =>
          weight_array' <- list_set weight_array afferent_index
                             (Some (param_type convert_matrix debug_env
                                               weights)) ;;
          struct_weights self debug_env n rest weight_array'
      end
  end.

(** [node_params]: the structure of the weights, followed by the type of
    the bias when the node has one. *)
Definition struct_node (self : PytorchModelCreator F)
  (debug_env : list string) (n : node) (forward_info : ForwardInfo F)
  : result IrType :=
  let afferents := fi_afferents forward_info in
  weight_array <- struct_weights self debug_env n afferents
                    (repeat None (length afferents)) ;;
  Ok (LiteralStructType
        (Some (LiteralStructType weight_array)
         :: match fi_biases forward_info with
            | Some bias => [Some (param_type convert_vector debug_env bias)]
            | None => []
            end)).

(** The loop over [self.component_to_forward_info.items()]. *)
Fixpoint struct_params (self : PytorchModelCreator F)
  (debug_env : list string) (items : list (node * ForwardInfo F))
  (param_list : list (option IrType)) : result (list (option IrType)) :=
  match items with
  | [] => Ok param_list
  | (n, forward_info) :: rest =>
      node_params <- struct_node self debug_env n forward_info ;;
      param_list' <- list_set param_list (get_node_index self n)
                       (Some node_params) ;;
      struct_params self debug_env rest param_list'
  end.

Definition _get_param_struct_type (self : PytorchModelCreator F)
  (debug_env : list string) : result IrType :=
  param_list <- struct_params self debug_env
                  (component_to_forward_info self)
                  (repeat None (composition_nodes self)) ;;
  Ok (LiteralStructType param_list).

End ParamStructType.


(** ** [forward]: the interpreted forward computation *)

Section Forward.
Context {F : Type} `{FloatTy F}.

(** [len(component.input_states[0].defaults.value)] *)
Variable input_state_len : node -> nat.

(** [torch.zeros(n).double()], [torch.matmul(v, w)] and [u + v] on tensors
    whose shapes agree (torch raises on the others, which is not
    modelled). *)
Definition torch_zeros (n : nat) : vec F := repeat fzero n.

Definition torch_matmul (v : vec F) (w : mat F) : vec F :=
  let (dim_x, dim_y) := shape w in vxm v w dim_x dim_y.

Definition torch_add (u v : vec F) : vec F := vec_add u v (length u).

(** What [forward] writes outside the model: the value and output-state
    value parameters of the mechanisms, their logs, the log of the
    projection matrices and the clock of the scheduler. *)
Record Host : Type := {
  parameters_value : list (node * vec F);
  output_state_value : list (node * vec F);
  value_log : list (node * vec F);
  matrix_log : list (nat * mat F);
  time_steps : nat
}.

(** [frozen_values[component] = self.component_to_forward_info[component][0]]
    for every component of the set. *)
Fixpoint freeze (infos : list (node * ForwardInfo F))
  (current_exec_set : list node) (frozen_values : list (node * vec F))
  : result (list (node * vec F)) :=
  match current_exec_set with
  | [] => Ok frozen_values
  | component :: rest =>
      info <- dict_get infos component ;;
      freeze infos rest (dict_set frozen_values component (fi_value info))
  end.

(** The loop [for input_node, weights in afferents.items()]. *)
Fixpoint sum_afferents (infos : list (node * ForwardInfo F))
  (current_exec_set : list node) (frozen_values : list (node * vec F))
  (afferents : list (node * Tensor (mat F))) (value : vec F)
  : result (vec F) :=
  match afferents with
  | [] => Ok value
  | (input_node, weights) :: rest =>
      input_value <-
        (if node_mem input_node current_exec_set
         then dict_get frozen_values input_node
         else info <- dict_get infos input_node ;; Ok (fi_value info)) ;;
      sum_afferents infos current_exec_set frozen_values rest
        (torch_add value (torch_matmul input_value (numpy weights)))
  end.

(** The value computed for one component. *)
Definition component_value (inputs : list (node * vec F))
  (infos : list (node * ForwardInfo F)) (i : nat)
  (current_exec_set : list node) (frozen_values : list (node * vec F))
  (component : node) (info : ForwardInfo F) : result (vec F) :=
  if Nat.eqb i 0
  then x <- dict_get inputs component ;; Ok (fi_function info x)
  else
    value <- sum_afferents infos current_exec_set frozen_values
               (fi_afferents info)
               (torch_zeros (input_state_len component)) ;;
    let value' :=
      match fi_biases info with
      | Some biases => torch_add value (numpy biases)
      | None => value
      end in
    Ok (fi_function info value').

Definition set_value (info : ForwardInfo F) (value : vec F) : ForwardInfo F :=
  {| fi_value := value; fi_biases := fi_biases info;
     fi_function := fi_function info; fi_afferents := fi_afferents info |}.

(** The state threaded through the loops of [forward]. *)
Record ForwardState : Type := {
  infos : list (node * ForwardInfo F);
  outputs : list (node * vec F);
  logged : list (node * vec F)
}.

(** The second loop [for component in current_exec_set]. *)
Fixpoint forward_components (inputs : list (node * vec F))
  (do_logging : bool) (i : nat) (last : bool)
  (current_exec_set : list node) (frozen_values : list (node * vec F))
  (components : list node) (st : ForwardState) : result ForwardState :=
  match components with
  | [] => Ok st
  | component :: rest =>
      info <- dict_get (infos st) component ;;
      value <- component_value inputs (infos st) i current_exec_set
                 frozen_values component info ;;
      forward_components inputs do_logging i last current_exec_set
        frozen_values rest
        {| infos := dict_set (infos st) component (set_value info value);
           outputs := if last then dict_set (outputs st) component value
                      else outputs st;
           logged := if do_logging then logged st ++ [(component, value)]
                     else logged st |}
  end.

(** The loop [for i in range(len(self.execution_sets))]; [total] is
    [len(self.execution_sets)]. *)
Fixpoint forward_loop (inputs : list (node * vec F)) (do_logging : bool)
  (total : nat) (i : nat) (sets : list (list node)) (st : ForwardState)
  : result ForwardState :=
  match sets with
  | [] => Ok st
  | current_exec_set :: rest =>
      frozen_values <- freeze (infos st) current_exec_set [] ;;
      st' <- forward_components inputs do_logging i (Nat.eqb i (total - 1))
               current_exec_set frozen_values current_exec_set st ;;
      forward_loop inputs do_logging total (S i) rest st'
  end.

(** [copy_outputs_to_psyneulink] *)
Definition copy_outputs_to_psyneulink (outs : list (node * vec F))
  (host : Host) : Host :=
  fold_left
    (fun h p =>
       {| parameters_value := dict_set (parameters_value h) (fst p) (snd p);
          output_state_value :=
            dict_set (output_state_value h) (fst p) (snd p);
          value_log := value_log h;
          matrix_log := matrix_log h;
          time_steps := time_steps h |})
    outs host.

(** [forward]: the returned [outputs], the forward information and the
    host state it leaves.  [scheduler] tells whether a scheduler was
    passed; [projections_to_pytorch_weights] is the dict of the model. *)
Definition forward (execution_sets : list (list node))
  (projections_to_pytorch_weights : list (nat * Tensor (mat F)))
  (inputs : list (node * vec F)) (do_logging : bool) (scheduler : bool)
  (component_to_forward_info : list (node * ForwardInfo F)) (host : Host)
  : result (list (node * vec F) * list (node * ForwardInfo F) * Host) :=
  st <- forward_loop inputs do_logging (length execution_sets) 0
          execution_sets
          {| infos := component_to_forward_info; outputs := [];
             logged := [] |} ;;
  let host1 :=
    {| parameters_value := parameters_value host;
       output_state_value := output_state_value host;
       value_log := value_log host ++ logged st;
       matrix_log := matrix_log host;
       time_steps := if scheduler
                     then time_steps host + length execution_sets
                     else time_steps host |} in
  let host2 := copy_outputs_to_psyneulink (outputs st) host1 in
  let host3 :=
    {| parameters_value := parameters_value host2;
       output_state_value := output_state_value host2;
       value_log := value_log host2;
       matrix_log :=
         if do_logging
         then matrix_log host2
              ++ map (fun p => (fst p, numpy (snd p)))
                     projections_to_pytorch_weights
         else matrix_log host2;
       time_steps := time_steps host2 |} in
  Ok (outputs st, infos st, host3).

End Forward.

Arguments Host F : clear implicits.
Arguments ForwardState F : clear implicits.

(** ** [get_weights_for_projections] and [get_biases_for_mechanisms] *)

Section Accessors.
(** The contents of an array buffer. *)
Variable ndarray : Type.

(** The buffers of the Python heap, by address.  A tensor and the array
    [t.detach().numpy()] are the address of one shared buffer. *)
Definition heap : Type := list ndarray.

(** [a.copy()]: a new buffer with the same contents. *)
Definition np_copy (h : heap) (a : nat) : result (heap * nat) :=
  match nth_error h a with
  | Some x => Ok (h ++ [x], length h)
  | None => Raise "invalid address"
  end.

(** In-place mutation of the array at [a]. *)
Fixpoint heap_write (h : heap) (a : nat) (x : ndarray) : heap :=
  match h, a with
  | [], _ => []
  | _ :: rest, O => x :: rest
  | y :: rest, S a' => y :: heap_write rest a' x
  end.

(** The loop shared by both accessors:
    [out[key] = tensor.detach().numpy().copy()]. *)
Fixpoint copy_all (items : list (nat * nat)) (h : heap)
  (out : list (nat * nat)) : result (heap * list (nat * nat)) :=
  match items with
  | [] => Ok (h, out)
  | (key, tensor) :: rest =>
      r <- np_copy h tensor ;;
      let '(h', copy) := r in
      copy_all rest h' (dict_set out key copy)
  end.

Definition get_weights_for_projections
  (projections_to_pytorch_weights : list (nat * nat)) (h : heap)
  : result (heap * list (nat * nat)) :=
  copy_all projections_to_pytorch_weights h [].

Definition get_biases_for_mechanisms
  (mechanisms_to_pytorch_biases : list (nat * nat)) (h : heap)
  : result (heap * list (nat * nat)) :=
  copy_all mechanisms_to_pytorch_biases h [].

End Accessors.


(** ** [__init__] and [copy_weights_to_psyneulink] *)

Section Construction.
Context {F : Type} `{FloatTy F} `{TorchTy F}.

(** What [__init__] reads of the composition, for the [execution_id] it
    is given: a projection is its identifying number. *)
Record Composition : Type := {
  (** [component.parameters.value._get(execution_id)], [None] when it is
      not set, and [component.parameters.value._get(None)] *)
  component_value_get : node -> option (list (vec F));
  component_value_default : node -> list (vec F);
  (** [component.input_states[0].parameters.value._get(None)] *)
  input_state_value : node -> vec F;
  (** [component.path_afferents] *)
  path_afferents : node -> list nat;
  (** [mapping_proj.sender.owner] *)
  sender_owner : nat -> node;
  (** the keys of [processing_graph.comp_to_vertex]; the vertex of a
      component is identified with the component *)
  comp_to_vertex : list node;
  (** [mapping_proj.parameters.matrix._get(execution_id)] and
      [mapping_proj.parameters.matrix._get(None)] *)
  matrix_get : nat -> option (mat F);
  matrix_default : nat -> mat F;
  (** [component.function] *)
  component_function : node -> TransferFunction F
}.

(** The fields of [self] that [__init__] fills:
    [self.component_to_forward_info], [self.projections_to_pytorch_weights],
    [self.mechanisms_to_pytorch_biases] and [self.params] (the parameters
    by the address of their buffer); then the next free buffer address and
    the number of calls of [torch.rand] so far. *)
Record Model : Type := {
  forward_infos : list (node * ForwardInfo F);
  projections_to_pytorch_weights : list (nat * Tensor (mat F));
  mechanisms_to_pytorch_biases : list (node * Tensor (vec F));
  parameter_list : list nat;
  next_buffer : nat;
  rand_calls : nat
}.

(** [torch.rand(shape)]: the matrix drawn at a given call. *)
Variable torch_rand : nat -> nat * nat -> mat F.

Variable composition : Composition.
Variable param_init_from_pnl : bool.

(** [value[0]] on a two-dimensional array *)
Definition first_row (value : list (vec F)) : result (vec F) :=
  match value with
  | [] => Raise "IndexError"
  | row :: _ => Ok row
  end.

(** [mapping_proj.parameters.matrix._get(execution_id)], or the default
    when that is [None]. *)
Definition proj_matrix (mapping_proj : nat) : mat F :=
  match matrix_get composition mapping_proj with
  | Some matrix => matrix
  | None => matrix_default composition mapping_proj
  end.

(** The loop [for k in range(len(component.path_afferents))]. *)
Fixpoint init_afferents (path : list nat)
  (afferents : list (node * Tensor (mat F))) (st : Model)
  : result (list (node * Tensor (mat F)) * Model) :=
  match path with
  | [] => Ok (afferents, st)
  | mapping_proj :: rest =>
      let input_component := sender_owner composition mapping_proj in
      if negb (node_mem input_component (comp_to_vertex composition))
      then Raise "KeyError"
      else
        let input_node := input_component in
        let weights :=
          {| data_ptr := next_buffer st;
             numpy := if param_init_from_pnl
                      then proj_matrix mapping_proj
                      else torch_rand (rand_calls st)
                                      (shape (proj_matrix mapping_proj)) |} in
        init_afferents rest (dict_set afferents input_node weights)
          {| forward_infos := forward_infos st;
             projections_to_pytorch_weights :=
               dict_set (projections_to_pytorch_weights st) mapping_proj
                        weights;
             mechanisms_to_pytorch_biases := mechanisms_to_pytorch_biases st;
             parameter_list := parameter_list st ++ [data_ptr weights];
             next_buffer := S (next_buffer st);
             rand_calls := if param_init_from_pnl then rand_calls st
                           else S (rand_calls st) |}
  end.

(** The bias parameter of a node outside the first execution set, made
    when the parameters are not copied from the composition. *)
Definition init_biases (component : node) (st : Model)
  : option (Tensor (vec F)) * Model :=
  if negb param_init_from_pnl
  then
    let input_length := length (input_state_value composition component) in
    let biases := {| data_ptr := next_buffer st;
                     numpy := torch_zeros input_length |} in
    (Some biases,
     {| forward_infos := forward_infos st;
        projections_to_pytorch_weights := projections_to_pytorch_weights st;
        mechanisms_to_pytorch_biases :=
          dict_set (mechanisms_to_pytorch_biases st) component biases;
        parameter_list := parameter_list st ++ [data_ptr biases];
        next_buffer := S (next_buffer st);
        rand_calls := rand_calls st |})
  else (None, st).

(** The body of [for component in self.execution_sets[i]]. *)
Definition init_component (i : nat) (component : node) (st : Model)
  : result Model :=
  let function :=
    function_creator (component_function composition component) in
  value <-
    (if param_init_from_pnl
     then first_row
            match component_value_get composition component with
            | None => component_value_default composition component
            | Some value => value
            end
     else Ok (torch_zeros
                (length (input_state_value composition component)))) ;;
  r <-
    (if negb (Nat.eqb i 0)
     then
       let (biases, st1) := init_biases component st in
       r <- init_afferents (path_afferents composition component) [] st1 ;;
       Ok (biases, fst r, snd r)
     else Ok (None, [], st)) ;;
  let '(biases, afferents, st') := r in
  Ok {| forward_infos :=
          dict_set (forward_infos st') component
            {| fi_value := value; fi_biases := biases;
               fi_function := function; fi_afferents := afferents |};
        projections_to_pytorch_weights := projections_to_pytorch_weights st';
        mechanisms_to_pytorch_biases := mechanisms_to_pytorch_biases st';
        parameter_list := parameter_list st';
        next_buffer := next_buffer st';
        rand_calls := rand_calls st' |}.

Fixpoint init_exec_set (i : nat) (components : list node) (st : Model)
  : result Model :=
  match components with
  | [] => Ok st
  | component :: rest =>
      st' <- init_component i component st ;;
      init_exec_set i rest st'
  end.

(** The loop [for i in range(len(self.execution_sets))]. *)
Fixpoint init_sets (i : nat) (sets : list (list node)) (st : Model)
  : result Model :=
  match sets with
  | [] => Ok st
  | current_exec_set :: rest =>
      st' <- init_exec_set i current_exec_set st ;;
      init_sets (S i) rest st'
  end.

(** [copy_weights_to_psyneulink]: the matrix parameter of every projection
    is set to [weights.detach().numpy()], the array on the buffer of the
    tensor itself. *)
Definition copy_weights_to_psyneulink
  (weights : list (nat * Tensor (mat F)))
  (matrix_parameter : list (nat * Tensor (mat F)))
  : list (nat * Tensor (mat F)) :=
  fold_left (fun acc p => dict_set acc (fst p) (snd p)) weights
            matrix_parameter.

(** [__init__]: the model it leaves and the matrix parameters of the
    projections of the composition; [first_buffer] is the first free buffer
    address. *)
Definition __init__ (execution_sets : list (list node)) (first_buffer : nat)
  (matrix_parameter : list (nat * Tensor (mat F)))
  : result (Model * list (nat * Tensor (mat F))) :=
  self <- init_sets 0 execution_sets
            {| forward_infos := [];
               projections_to_pytorch_weights := [];
               mechanisms_to_pytorch_biases := [];
               parameter_list := [];
               next_buffer := first_buffer;
               rand_calls := 0 |} ;;
  Ok (self,
      copy_weights_to_psyneulink (projections_to_pytorch_weights self)
                                 matrix_parameter).

End Construction.

Arguments Composition F : clear implicits.
Arguments Model F : clear implicits.


(** ** Schedules and propagated values *)

(** Python's dicts and sets hold a key once. *)
Fixpoint nodupb (l : list node) : bool :=
match l with
| [] => true
| x :: rest => negb (node_mem x rest) && nodupb rest
end.

Section Schedule.
Context {F : Type} `{FloatTy F}.

(** The invariant of the execution sets, checked from set [i] on with
    [earlier] the nodes of the sets before it: every node has its forward
    information and appears in exactly one set, and outside the first set
    the sender of every afferent is in an earlier set. *)
Fixpoint valid_from (infos : list (node * ForwardInfo F))
  (earlier : list node) (i : nat) (sets : list (list node)) : bool :=
  match sets with
  | [] => true
  | current_exec_set :: rest =>
      forallb
        (fun c =>
           negb (node_mem c earlier)
           && match dict_get infos c with
              | Ok info =>
                  Nat.eqb i 0
                  || forallb (fun p => node_mem (fst p) earlier)
                             (fi_afferents info)
              | Raise _ => false
              end)
        current_exec_set
      && nodupb current_exec_set
      && valid_from infos (earlier ++ current_exec_set) (S i) rest
  end.

Definition valid_schedule (execution_sets : list (list node))
  (infos : list (node * ForwardInfo F)) : bool :=
  valid_from infos [] 0 execution_sets.

(** [len(component.input_states[0].defaults.value)] *)
Variable input_state_len : node -> nat.

(** One propagation step as the specification words it: the sum over the
    incoming edges of (predecessor value x edge weight), read from the
    store [infos]. *)
Fixpoint spec_weighted_sum (infos : list (node * ForwardInfo F))
  (afferents : list (node * Tensor (mat F))) (value : vec F)
  : result (vec F) :=
  match afferents with
  | [] => Ok value
  | (input_node, weights) :: rest =>
      info <- dict_get infos input_node ;;
      spec_weighted_sum infos rest
        (torch_add value (torch_matmul (fi_value info) (numpy weights)))
  end.

(** The value of a node of set [i]: a source node applies its function to
    its input; another node applies it to the weighted sum of the values of
    its predecessors plus its bias. *)
Definition spec_node_value (inputs : list (node * vec F))
  (infos : list (node * ForwardInfo F)) (i : nat) (c : node)
  (info : ForwardInfo F) : result (vec F) :=
  if Nat.eqb i 0
  then x <- dict_get inputs c ;; Ok (fi_function info x)
  else
    total <- spec_weighted_sum infos (fi_afferents info)
               (torch_zeros (input_state_len c)) ;;
    Ok (fi_function info
          match fi_biases info with
          | Some biases => torch_add total (numpy biases)
          | None => total
          end).

End Schedule.


(** ** Concrete graphs *)

Module Examples.

Definition tensor {A : Type} (a : nat) (x : A) : Tensor A :=
{| data_ptr := a; numpy := x |}.

(** A model whose nodes are their own indices, are named by their number
    and hold vectors of [dim] elements. *)
Definition model_of {F : Type} (dim : nat) (sets : list (list node))
  (infos : list (node * ForwardInfo F))
  (functions : node -> TransferFunction F)
  (inputs outputs : list node) (effs : node -> list node)
  (optimizer loss : string) : PytorchModelCreator F :=
{| execution_sets := sets;
   component_to_forward_info := infos;
   composition_nodes := length infos;
   get_node_index := fun n => n;
   node_name := fun n => String (Ascii.ascii_of_nat (48 + n)) EmptyString;
   function_name := fun _ => "function"%string;
   node_function := functions;
   variable_dim := fun _ => dim;
   value_dim := fun _ => dim;
   input_nodes := inputs;
   output_nodes := outputs;
   input_CIM := 99;
   has_afferents := fun _ => true;
   efferents := effs;
   optimizer_type := optimizer;
   loss_spec := loss |}.

(** A context with no kernel registered. *)
Definition empty_ctx {F : Type} : LLVMBuilderContext F := fun _ => None.

(** A memory over the integers with every weight matrix equal to [w] and
    every buffer holding [v]. *)
Definition memory_of (w : mat Z) (v : vec Z) : Memory Z :=
{| m_params := fun _ _ => w;
   m_input := fun _ => v;
   m_output := fun _ => v;
   m_z := fun _ => v;
   m_err := fun _ => v;
   m_total_loss := 0%Z;
   m_optim := fun _ _ _ => w;
   m_stimuli := fun _ _ => v;
   m_targets := fun _ _ => v |}.

(** Two [Linear] nodes of one element, [0 -> 1], weight [[1]]; node 1
    has the bias [[1]]. *)
Definition biased_pair : PytorchModelCreator Z :=
model_of 1 [[0]; [1]]
  [(0, {| fi_value := [0%Z]; fi_biases := None;
          fi_function := fun x => x; fi_afferents := [] |});
   (1, {| fi_value := [0%Z]; fi_biases := Some (tensor 20 [1%Z]);
          fi_function := fun x => x;
          fi_afferents := [(0, tensor 10 [[1%Z]])] |})]
  (fun _ => Linear 1%Z 0%Z) [0] [1]
  (fun n => match n with 0 => [1] | _ => [] end) "sgd" "mse".


(** Three [Linear] nodes of one element in a chain [0 -> 1 -> 2]. *)
Definition chain_infos : list (node * ForwardInfo Z) :=
[(0, {| fi_value := [0%Z]; fi_biases := None;
        fi_function := fun x => x; fi_afferents := [] |});
 (1, {| fi_value := [0%Z]; fi_biases := None;
        fi_function := fun x => x;
        fi_afferents := [(0, tensor 10 [[2%Z]])] |});
 (2, {| fi_value := [0%Z]; fi_biases := None;
        fi_function := fun x => x;
        fi_afferents := [(1, tensor 11 [[3%Z]])] |})].

Definition chain_efferents (n : node) : list node :=
match n with
| 0 => [1]
| 1 => [2]
| _ => []
end.

Definition chain : PytorchModelCreator Z :=
model_of 1 [[0]; [1]; [2]] chain_infos (fun _ => Linear 1%Z 0%Z) [0] [2]
         chain_efferents "sgd" "mse".

(** The same chain with a [ReLU] function at node 1. *)
Definition relu_chain : PytorchModelCreator Z :=
model_of 1 [[0]; [1]; [2]] chain_infos
         (fun n => match n with
                   | 1 => ReLU 1%Z 0%Z 0%Z
                   | _ => Linear 1%Z 0%Z
                   end)
         [0] [2] chain_efferents "sgd" "mse".

(** A loss and an optimizer to run the generators with: the squared
    difference of the first elements, and an optimizer whose calls leave
    the memory as it is. *)
Definition squared_loss (_ : Loss) (output target : vec Z) (_ : nat) : Z :=
((nth 0 output 0 - nth 0 target 0) * (nth 0 output 0 - nth 0 target 0))%Z.

Definition squared_loss_differential (_ : Loss) (output target : vec Z)
  (dim : nat) : vec Z :=
map (fun i => (nth i output 0 - nth i target 0)%Z) (seq 0 dim).

Definition idle (_ : Optimizer) : Code Z := fun m => m.

(** The generator state once the output node 2 of the chain is handled. *)
Definition after_output : GenState Z :=
{| backprop_queue := [1];
   error_dict := [2];
   code := fun _ m => m;
   emitted := [Final 2] |}.

Definition empty_host : Host Z :=
{| parameters_value := []; output_state_value := []; value_log := [];
   matrix_log := []; time_steps := 0 |}.


(** Four nodes [0 -> 1 -> 2 -> 3] with the additional edge [1 -> 3], which
    comes first among the afferents of node 3. *)
Definition skip_infos : list (node * ForwardInfo Z) :=
[(0, {| fi_value := [0%Z]; fi_biases := None;
        fi_function := fun x => x; fi_afferents := [] |});
 (1, {| fi_value := [0%Z]; fi_biases := None;
        fi_function := fun x => x;
        fi_afferents := [(0, tensor 10 [[1%Z]])] |});
 (2, {| fi_value := [0%Z]; fi_biases := None;
        fi_function := fun x => x;
        fi_afferents := [(1, tensor 11 [[1%Z]])] |});
 (3, {| fi_value := [0%Z]; fi_biases := None;
        fi_function := fun x => x;
        fi_afferents := [(1, tensor 12 [[1%Z]]); (2, tensor 13 [[1%Z]])] |})].

Definition skip_graph : PytorchModelCreator Z :=
model_of 1 [[0]; [1]; [2]; [3]] skip_infos (fun _ => Linear 1%Z 0%Z) [0] [3]
         (fun n => match n with
                   | 0 => [1]
                   | 1 => [2; 3]
                   | 2 => [3]
                   | _ => []
                   end) "sgd" "mse".

(** The pair [0 -> 1] in a composition that counts one node only. *)
Definition crowded_pair : PytorchModelCreator Z :=
{| execution_sets := execution_sets biased_pair;
   component_to_forward_info := component_to_forward_info biased_pair;
   composition_nodes := 1;
   get_node_index := get_node_index biased_pair;
   node_name := node_name biased_pair;
   function_name := function_name biased_pair;
   node_function := node_function biased_pair;
   variable_dim := variable_dim biased_pair;
   value_dim := value_dim biased_pair;
   input_nodes := input_nodes biased_pair;
   output_nodes := output_nodes biased_pair;
   input_CIM := input_CIM biased_pair;
   has_afferents := has_afferents biased_pair;
   efferents := efferents biased_pair;
   optimizer_type := optimizer_type biased_pair;
   loss_spec := loss_spec biased_pair |}.

(** The generator state on [skip_graph] once the output node 3 is
    handled: its afferents 1 and 2 are in the queue. *)
Definition skip_after_output : GenState Z :=
{| backprop_queue := [1; 2];
   error_dict := [3];
   code := fun _ m => m;
   emitted := [Final 3] |}.

(** The composition of the chain [0 -> 1 -> 2]: the projection 10 from
    node 0 into node 1 with the matrix [[2]], the projection 11 from node 1
    into node 2 with the matrix [[3]]. *)
Definition chain_composition : Composition Z :=
{| component_value_get := fun _ => None;
   component_value_default := fun _ => [[0%Z]];
   input_state_value := fun _ => [0%Z];
   path_afferents := fun n => match n with
                              | 1 => [10]
                              | 2 => [11]
                              | _ => []
                              end;
   sender_owner := fun mapping_proj => match mapping_proj with
                                       | 10 => 0
                                       | _ => 1
                                       end;
   comp_to_vertex := [0; 1; 2];
   matrix_get := fun _ => None;
   matrix_default := fun mapping_proj => match mapping_proj with
                                         | 10 => [[2%Z]]
                                         | _ => [[3%Z]]
                                         end;
   component_function := fun _ => Linear 1%Z 0%Z |}.

(** A source of random matrices that always draws [[7]]. *)
Definition constant_rand (_ : nat) (_ : nat * nat) : mat Z := [[7%Z]].

(** The chain [0 -> 1 -> 2] over the reals, with the weight [[1]] on both
    edges and a [Logistic] function of gain 2 at the hidden node 1. *)
Definition logistic_chain : PytorchModelCreator R :=
model_of 1 [[0]; [1]; [2]]
  [(0, {| fi_value := [0%R]; fi_biases := None;
          fi_function := fun x => x; fi_afferents := [] |});
   (1, {| fi_value := [0%R]; fi_biases := None;
          fi_function := fun x => x;
          fi_afferents := [(0, tensor 10 [[1%R]])] |});
   (2, {| fi_value := [0%R]; fi_biases := None;
          fi_function := fun x => x;
          fi_afferents := [(1, tensor 11 [[1%R]])] |})]
  (fun n => match n with
            | 1 => Logistic 2%R 0%R 0%R
            | _ => Linear 1%R 0%R
            end)
  [0] [2] chain_efferents "sgd" "mse".

(** The generator state on [logistic_chain] when the [while] loop has
    handled the output node 2 and has popped the hidden node 1. *)
Definition logistic_after_output : GenState R :=
{| backprop_queue := [];
   error_dict := [2];
   code := fun _ m => m;
   emitted := [Final 2] |}.

(** A memory over the reals with every weight matrix equal to [w], every
    retained [z] buffer holding [z] and every error buffer holding [e]. *)
Definition real_memory_of (w : mat R) (z e : vec R) : Memory R :=
{| m_params := fun _ _ => w;
   m_input := fun _ => [0%R];
   m_output := fun _ => [0%R];
   m_z := fun _ => z;
   m_err := fun _ => e;
   m_total_loss := 0%R;
   m_optim := fun _ _ _ => w;
   m_stimuli := fun _ _ => [0%R];
   m_targets := fun _ _ => [0%R] |}.

(** A loss that is never evaluated on a hidden node. *)
Definition zero_loss (_ : Loss) (_ _ : vec R) (_ : nat) : R := 0%R.

Definition zero_loss_differential (_ : Loss) (_ _ : vec R) (dim : nat)
  : vec R :=
repeat 0%R dim.

End Examples.

(** * Specified values and invariants

    The values the specification words, and the predicates the properties
    below are stated with. *)

(** The logistic function the forward kernel computes, over the reals. *)
Definition logistic (gain bias offset x : R) : R :=
  (1 / (1 + exp (-1 * gain * (x - bias) + offset)))%R.

(** The pre-activation value as the specification words it: the sum over
    the incoming edges, in positional order, of
    [vec_mat_mul(predecessor_value, edge_weight)], plus the bias vector of
    the node. *)
Definition spec_pre_activation {F : Type} `{FloatTy F}
  (self : PytorchModelCreator F) (m : Memory F) (component : node)
  (info : ForwardInfo F) : vec F :=
let dim := variable_dim self component in
let term (k : nat) (p : node * Tensor (mat F)) : vec F :=
  let (dim_x, dim_y) := shape (numpy (snd p)) in
  vxm (m_output m (get_node_index self (fst p)))
      (m_params m (get_node_index self component) k) dim_x dim_y in
let terms :=
  map (fun kp => term (fst kp) (snd kp))
      (combine (seq 0 (length (fi_afferents info))) (fi_afferents info)) in
let total :=
  match terms with
  | [] => []
  | first :: others =>
      fold_left (fun acc t => vec_add t acc dim) others (vec_copy first dim)
  end in
match fi_biases info with
| Some biases => vec_add total (numpy biases) dim
| None => total
end.

Section SpecifiedValues.
Context {F : Type} `{FloatTy F}.
Variable ctx : LLVMBuilderContext F.
Variable self : PytorchModelCreator F.

Definition drop_bias (info : ForwardInfo F) : ForwardInfo F :=
  {| fi_value := fi_value info; fi_biases := None;
     fi_function := fi_function info; fi_afferents := fi_afferents info |}.

(** The model with every bias removed. *)
Definition without_biases (self : PytorchModelCreator F)
  : PytorchModelCreator F :=
  {| execution_sets := execution_sets self;
     component_to_forward_info :=
       map (fun p => (fst p, drop_bias (snd p)))
           (component_to_forward_info self);
     composition_nodes := composition_nodes self;
     get_node_index := get_node_index self;
     node_name := node_name self;
     function_name := function_name self;
     node_function := node_function self;
     variable_dim := variable_dim self;
     value_dim := value_dim self;
     input_nodes := input_nodes self;
     output_nodes := output_nodes self;
     input_CIM := input_CIM self;
     has_afferents := has_afferents self;
     efferents := efferents self;
     optimizer_type := optimizer_type self;
     loss_spec := loss_spec self |}.

(** The contribution of the incoming edge at position [k] of the
    afferents of [component]: [vec_mat_mul(predecessor_value, edge_weight)]
    on the memory [m]. *)
Definition forward_term (m : Memory F) (component : node) (k : nat)
  (p : node * Tensor (mat F)) : vec F :=
  vxm (m_output m (get_node_index self (fst p)))
      (m_params m (get_node_index self component) k)
      (fst (shape (numpy (snd p)))) (snd (shape (numpy (snd p)))).

(** Adding the contribution of one more edge to the pre-activation
    buffer. *)
Definition forward_accumulate (m : Memory F) (component : node)
  (acc : vec F) (kp : nat * (node * Tensor (mat F))) : vec F :=
  vec_add (forward_term m component (fst kp) (snd kp)) acc
          (snd (shape (numpy (snd (snd kp))))).

(** The pre-activation value of a node with the afferents [afferents]: the
    contributions of the incoming edges in positional order, the first one
    copied and each later one added. *)
Definition kernel_pre_activation (m : Memory F) (component : node)
  (afferents : list (node * Tensor (mat F))) : vec F :=
  match combine (seq 0 (length afferents)) afferents with
  | [] => m_output m (get_node_index self component)
  | (k, p) :: others =>
      fold_left (forward_accumulate m component) others
        (vec_copy (forward_term m component k p)
                  (snd (shape (numpy (snd p)))))
  end.

(** [m'] differs from [m] at most in the value slot [index]. *)
Definition same_but_output (index : nat) (m m' : Memory F) : Prop :=
  m_params m' = m_params m
  /\ m_input m' = m_input m
  /\ forall j, j <> index -> m_output m' j = m_output m j.

(** The contribution of one efferent edge [n -> efferent_node] as the
    specification words it:
    [vec_mat_mul_transposed(efferent_error, edge_weight)], on the memory
    [m]. *)
Definition spec_efferent_term (m : Memory F) (n efferent_node : node)
  : vec F :=
  match _gen_get_node_weight_ptr self efferent_node n with
  | Ok (node_idx, afferent_node_index, dim_x, dim_y) =>
      vxm_transposed (m_err m efferent_node)
                     (m_params m node_idx afferent_node_index) dim_x dim_y
  | Raise _ => []
  end.

(** The sum of the contributions over the efferent edges, in their order:
    the first one starts the sum and each later one is added to it. *)
Definition spec_efferent_sum (m : Memory F) (n : node) (node_dim : nat)
  (efferent_nodes : list node) : vec F :=
  match efferent_nodes with
  | [] => m_err m n
  | first :: others =>
      fold_left
        (fun acc e => vec_add (spec_efferent_term m n e) acc node_dim)
        others (spec_efferent_term m n first)
  end.

(** [m'] differs from [m] at most in the error buffer of [n]. *)
Definition same_but_error (n : node) (m m' : Memory F) : Prop :=
  m_params m' = m_params m
  /\ m_z m' = m_z m
  /\ forall e, e <> n -> m_err m' e = m_err m e.

(** What must have happened before an access to the error buffers: a read
    of the error of [e] comes after the final write to it, and the final
    write to the error of a node that is not an output node comes after the
    final writes to the errors of all its efferents. *)
Definition well_ordered_event (before : list Event) (ev : Event) : Prop :=
  match ev with
  | Read _ e => In (Final e) before
  | Final n =>
      node_mem n (output_nodes self) = false ->
      forall e, In e (efferents self n) -> In (Final e) before
  end.

Definition well_ordered (tr : list Event) : Prop :=
  forall before ev after,
    tr = before ++ ev :: after -> well_ordered_event before ev.

(** The invariant of the [while] loop. *)
Definition order_invariant (st : GenState F) : Prop :=
  well_ordered (emitted st)
  /\ forall x, In x (error_dict st) -> In (Final x) (emitted st).

(** The afferents that can still enter the queue: those of the keys of
    [component_to_forward_info] without an error buffer. *)
Fixpoint pending (errors : list node) (d : list (node * ForwardInfo F))
  : nat :=
  match d with
  | [] => 0
  | (k, info) :: rest =>
      (if node_mem k errors then 0
       else S (S (length (fi_afferents info))))
      + pending errors rest
  end.

Definition measure (st : GenState F) : nat :=
  length (backprop_queue st)
  + pending (error_dict st) (component_to_forward_info self).

(** The node has no kernel registered in the context and its function is
    neither [Linear] nor [Logistic]. *)
Definition unsupported_node (c : node) : Prop :=
  ctx (node_name self c ++ "_" ++ function_name self c)%string = None
  /\ supported (node_function self c) = false.

End SpecifiedValues.

(** The calls of one pass of the [input_loop] body. *)
Definition input_calls (input_idx : nat) : list Call :=
  [ZeroGrad; Backprop input_idx; OptimizerStep].

(** What a logged call does to the state the loops run on. *)
Definition run_call {S : Type} (zero_grad : S -> S) (backprop : nat -> S -> S)
  (optimizer_step : S -> S) (c : Call) : S -> S :=
  match c with
  | ZeroGrad => zero_grad
  | Backprop input_idx => backprop input_idx
  | OptimizerStep => optimizer_step
  end.

Section SpecifiedStores.
Context {F : Type} `{FloatTy F}.
Variable input_state_len : node -> nat.
Variable inputs : list (node * vec F).

(** The forward information of two stores differs at most in the values. *)
Definition struct_eq (a b : ForwardInfo F) : Prop :=
  fi_biases a = fi_biases b
  /\ fi_function a = fi_function b
  /\ fi_afferents a = fi_afferents b.

Definition sim (s0 s : list (node * ForwardInfo F)) : Prop :=
  forall k,
    match dict_get s0 k, dict_get s k with
    | Ok a, Ok b => struct_eq a b
    | Raise _, Raise _ => True
    | _, _ => False
    end.

(** What holds of the nodes that have been computed: their stored value is
    the value of one propagation step from the stored values of their
    senders, which have been computed as well. *)
Definition propagated (seen : node -> Prop) (done : node -> nat -> Prop)
  (s : list (node * ForwardInfo F)) : Prop :=
  forall c i,
    done c i ->
    seen c
    /\ exists info,
         dict_get s c = Ok info
         /\ (i = 0 \/ forall a w, In (a, w) (fi_afferents info) -> seen a)
         /\ spec_node_value input_state_len inputs s i c info
            = Ok (fi_value info).

(** Two stores with the same graph whose values agree on the nodes [P]. *)
Definition agree (P : node -> Prop) (s1 s2 : list (node * ForwardInfo F))
  : Prop :=
  forall k,
    match dict_get s1 k, dict_get s2 k with
    | Ok a, Ok b => struct_eq a b /\ (P k -> fi_value a = fi_value b)
    | Raise _, Raise _ => True
    | _, _ => False
    end.

End SpecifiedStores.

Section SpecifiedFrames.
Context {F : Type} `{FloatTy F}.
Variable self : PytorchModelCreator F.

(** What the forward code emitted for the nodes [nodes] can have changed
    between the memories [m] and [m']: the value slots of these nodes and,
    when the z values are retained, their z buffers. *)
Definition forward_frame (store_z_values : bool) (nodes : list node)
  (m m' : Memory F) : Prop :=
  m_params m' = m_params m
  /\ m_input m' = m_input m
  /\ m_err m' = m_err m
  /\ m_total_loss m' = m_total_loss m
  /\ m_optim m' = m_optim m
  /\ m_stimuli m' = m_stimuli m
  /\ m_targets m' = m_targets m
  /\ (forall j,
        (forall n, In n nodes -> get_node_index self n <> j) ->
        m_output m' j = m_output m j)
  /\ (forall n,
        store_z_values = false \/ ~ In n nodes -> m_z m' n = m_z m n).

End SpecifiedFrames.


Section SpecifiedKernelFrame.
Context {F : Type} `{FloatTy F}.

(** What the backpropagation kernel leaves as it is between the memories
    [m] and [m']: the weights, the stimuli, the targets and every field of
    the optimizer structure but the field [delta_w] of the gradients. *)
Definition keeps_weights (delta_w : nat) (m m' : Memory F) : Prop :=
  m_params m' = m_params m
  /\ m_stimuli m' = m_stimuli m
  /\ m_targets m' = m_targets m
  /\ forall field, field <> delta_w -> m_optim m' field = m_optim m field.

End SpecifiedKernelFrame.


Section SpecifiedTypes.
Context {F : Type} `{FloatTy F}.
Variable convert_matrix : mat F -> IrType.
Variable convert_vector : vec F -> IrType.

(** The LLVM type that fits a value of the parameter initializer: a 64-bit
    integer for an address, the converted type for an array or for the
    tuples made of it. *)
Definition type_of_value {A : Type} (convert : A -> IrType)
  (v : ParamValue A) : IrType :=
  match v with
  | Address _ => IntType 64
  | Array t => convert (numpy t)
  | Tuple x => convert x
  end.

Definition type_of_node (np : NodeParams F) : IrType :=
  LiteralStructType
    (Some (LiteralStructType
             (map (option_map (type_of_value convert_matrix))
                  (weight_array np)))
     :: match bias_param np with
        | Some bias => [Some (type_of_value convert_vector bias)]
        | None => []
        end).

Definition type_of_params (param_list : list (option (NodeParams F)))
  : IrType :=
  LiteralStructType (map (option_map type_of_node) param_list).

End SpecifiedTypes.


Section SpecifiedConstruction.
Context {F : Type} `{FloatTy F}.
Variable torch_rand : nat -> nat * nat -> mat F.
Variable composition : Composition F.
Variable param_init_from_pnl : bool.

(** The contents [__init__] gives the weight tensor of a projection: the
    matrix of the projection when the parameters are copied from the
    composition, a random matrix of the same shape otherwise. *)
Definition weights_of (mapping_proj : nat) (t : Tensor (mat F)) : Prop :=
  if param_init_from_pnl
  then numpy t = proj_matrix composition mapping_proj
  else exists call,
         numpy t = torch_rand call (shape (proj_matrix composition
                                                       mapping_proj)).

(** The number of parameters made for a component of execution set [i]:
    none in the first set; elsewhere one for each incoming projection and,
    unless the parameters are copied from the composition, one bias. *)
Definition created_parameters (i : nat) (component : node) : nat :=
  if Nat.eqb i 0 then 0
  else (if param_init_from_pnl then 0 else 1)
       + length (path_afferents composition component).

(** The components in the order [__init__] visits them, each with the
    number of its execution set. *)
Fixpoint scheduled (i : nat) (sets : list (list node)) : list (nat * node) :=
  match sets with
  | [] => []
  | current_exec_set :: rest =>
      map (pair i) current_exec_set ++ scheduled (S i) rest
  end.

End SpecifiedConstruction.


Section SpecifiedGradients.
Context {F : Type} `{FloatTy F}.

(** What the code of step 4 of the backpropagation kernel leaves as it is
    between the memories [m] and [m']: everything but the field [delta_w]
    of the optimizer structure. *)
Definition gradient_frame (delta_w : nat) (m m' : Memory F) : Prop :=
  m_params m' = m_params m
  /\ m_input m' = m_input m
  /\ m_output m' = m_output m
  /\ m_z m' = m_z m
  /\ m_err m' = m_err m
  /\ m_total_loss m' = m_total_loss m
  /\ m_stimuli m' = m_stimuli m
  /\ m_targets m' = m_targets m
  /\ forall field, field <> delta_w -> m_optim m' field = m_optim m field.

End SpecifiedGradients.


Section SpecifiedLoss.
Context {F : Type} `{FloatTy F}.
Variable lossfunc : Loss -> vec F -> vec F -> nat -> F.
Variable self : PytorchModelCreator F.

(** The losses of the nodes [nodes] added up in their order, each computed
    from the value slot of the node in [values] and from the target of the
    node for the stimulus [input_idx]. *)
Definition loss_sum (loss : Loss) (values : Memory F) (m : Memory F)
  (input_idx : nat) (nodes : list node) : F :=
  fold_left
    (fun acc n =>
       fadd acc
            (lossfunc loss (m_output values (get_node_index self n))
                      (m_targets m n input_idx) (value_dim self n)))
    nodes fzero.

(** The nodes the [while] loop of the backpropagation always passes
    over. *)
Definition never_handled (n : node) : bool :=
  negb (has_afferents self n) || Nat.eqb n (input_CIM self)
  || node_mem n (input_nodes self).

End SpecifiedLoss.


Section SpecifiedUpdates.
Context {F : Type} `{FloatTy F}.

(** A function applied to every weight entry and to every bias entry of a
    parameter list; [_tupleize] and [read_views] are of this form. *)
Definition map_params (on_weights : ParamValue (mat F) -> ParamValue (mat F))
  (on_biases : ParamValue (vec F) -> ParamValue (vec F))
  (param_list : list (option (NodeParams F))) : list (option (NodeParams F)) :=
  map (option_map
         (fun p =>
            {| weight_array := map (option_map on_weights) (weight_array p);
               bias_param := option_map on_biases (bias_param p) |}))
      param_list.

(** A tensor written in place, as an optimizer step writes the weights:
    the buffer stays at its address and holds the contents that [now]
    gives for this address. *)
Definition write_tensor {A : Type} (now : nat -> A) (t : Tensor A)
  : Tensor A :=
  {| data_ptr := data_ptr t; numpy := now (data_ptr t) |}.

Variable weights_now : nat -> mat F.
Variable biases_now : nat -> vec F.

Definition write_info (info : ForwardInfo F) : ForwardInfo F :=
  {| fi_value := fi_value info;
     fi_biases := option_map (write_tensor biases_now) (fi_biases info);
     fi_function := fi_function info;
     fi_afferents :=
       map (fun p => (fst p, write_tensor weights_now (snd p)))
           (fi_afferents info) |}.

(** The model after every weight and bias tensor has been written in
    place; nothing else changes. *)
Definition written_in_place (self : PytorchModelCreator F)
  : PytorchModelCreator F :=
  {| execution_sets := execution_sets self;
     component_to_forward_info :=
       map (fun p => (fst p, write_info (snd p)))
           (component_to_forward_info self);
     composition_nodes := composition_nodes self;
     get_node_index := get_node_index self;
     node_name := node_name self;
     function_name := function_name self;
     node_function := node_function self;
     variable_dim := variable_dim self;
     value_dim := value_dim self;
     input_nodes := input_nodes self;
     output_nodes := output_nodes self;
     input_CIM := input_CIM self;
     has_afferents := has_afferents self;
     efferents := efferents self;
     optimizer_type := optimizer_type self;
     loss_spec := loss_spec self |}.

End SpecifiedUpdates.


(** * Properties *)

Unset Implicit Arguments.

(** ** The activation kernels over the reals *)

Section ActivationAnalysis.
Local Open Scope R_scope.

Lemma modify_value_logistic (gain bias offset : R) :
  modify_value (Logistic gain bias offset) = Ok (logistic gain bias offset).
Proof. reflexivity. Qed.

Lemma logistic_denominator_pos (gain bias offset x : R) :
  0 < 1 + exp (-1 * gain * (x - bias) + offset).
Proof. pose proof (exp_pos (-1 * gain * (x - bias) + offset)). lra. Qed.

(** The derivative of the logistic function carries the factor [gain]. *)
Lemma logistic_derivative (gain bias offset x : R) :
  derivable_pt_lim (logistic gain bias offset) x
    (gain * (logistic gain bias offset x
             * (1 - logistic gain bias offset x))).
Proof.
  set (u := fun y : R => -1 * gain * (y - bias) + offset).
  assert (Hu : derivable_pt_lim u x (-1 * gain)).
  { unfold u.
    replace (-1 * gain) with (-1 * gain * (1 - 0) + 0) at 1 by ring.
    apply (derivable_pt_lim_plus (fun y => -1 * gain * (y - bias))
             (fct_cte offset)).
    - apply (derivable_pt_lim_scal (fun y => y - bias) (-1 * gain)).
      apply (derivable_pt_lim_minus id (fct_cte bias)).
      + apply derivable_pt_lim_id.
      + apply derivable_pt_lim_const.
    - apply derivable_pt_lim_const. }
  assert (He : derivable_pt_lim (fun y => exp (u y)) x
                 (exp (u x) * (-1 * gain))).
  { apply (derivable_pt_lim_comp u exp); [exact Hu|].
    apply derivable_pt_lim_exp. }
  assert (Hd : derivable_pt_lim (fun y => 1 + exp (u y)) x
                 (0 + exp (u x) * (-1 * gain))).
  { apply (derivable_pt_lim_plus (fct_cte 1) (fun y => exp (u y)));
      [apply derivable_pt_lim_const | exact He]. }
  pose proof (logistic_denominator_pos gain bias offset x) as Hpos.
  fold (u x) in Hpos.
  assert (Hq : derivable_pt_lim (div_fct (fct_cte 1) (fun y => 1 + exp (u y))) x
                 ((0 * (1 + exp (u x))
                   - (0 + exp (u x) * (-1 * gain)) * fct_cte 1 x)
                  / Rsqr (1 + exp (u x)))).
  { apply (derivable_pt_lim_div (fct_cte 1) (fun y => 1 + exp (u y)));
      [apply derivable_pt_lim_const | exact Hd | lra]. }
  unfold logistic. fold (u x).
  replace (gain * (1 / (1 + exp (u x)) * (1 - 1 / (1 + exp (u x)))))
    with ((0 * (1 + exp (u x))
           - (0 + exp (u x) * (-1 * gain)) * fct_cte 1 x)
          / Rsqr (1 + exp (u x))).
  - exact Hq.
  - unfold fct_cte, Rsqr. field. lra.
Qed.

(** X28.  The [Linear] derivative kernel is the derivative of the [Linear]
    kernel. *)
Lemma linear_derivative_kernel (slope intercept x : R) :
  exists f f' : R -> R,
    modify_value (Linear slope intercept) = Ok f
    /\ modify_value_derivative (Linear slope intercept) = Ok f'
    /\ derivable_pt_lim f x (f' x).
Proof.
  eexists; eexists; split; [reflexivity | split; [reflexivity |]].
  assert (Hl : derivable_pt_lim
                 (plus_fct (mult_real_fct slope id) (fct_cte intercept)) x
                 (slope * 1 + 0)).
  { apply derivable_pt_lim_plus.
    - apply derivable_pt_lim_scal. apply derivable_pt_lim_id.
    - apply derivable_pt_lim_const. }
  replace (slope * 1 + 0) with slope in Hl by ring.
  intros eps Heps. destruct (Hl eps Heps) as [delta Hdelta].
  exists delta. intros h Hh Hlt. specialize (Hdelta h Hh Hlt).
  unfold plus_fct, mult_real_fct, fct_cte, id in Hdelta. cbn.
  replace ((x + h) * slope + intercept - (x * slope + intercept))
    with (slope * (x + h) + intercept - (slope * x + intercept)) by ring.
  exact Hdelta.
Qed.

(** The [Logistic] derivative kernel computes [f(x) * (1 - f(x))]. *)
Lemma logistic_derivative_kernel (gain bias offset : R) :
  modify_value_derivative (Logistic gain bias offset)
  = Ok (fun x => logistic gain bias offset x
                 * (1 - logistic gain bias offset x)).
Proof. reflexivity. Qed.

(** C4, at [Logistic(gain=2, bias=0, offset=0)] and [z = 0]: the derivative
    kernel returns 1/4, while the activation kernel has derivative 1/2
    there, so the kernel's value is not the derivative of the node's
    activation function: the factor [gain] is missing. *)
Theorem logistic_derivative_kernel_omits_gain :
  exists f f' : R -> R,
    modify_value (Logistic 2 0 0) = Ok f
    /\ modify_value_derivative (Logistic 2 0 0) = Ok f'
    /\ f' 0 = / 4
    /\ derivable_pt_lim f 0 (/ 2)
    /\ ~ derivable_pt_lim f 0 (f' 0).
Proof.
  exists (logistic 2 0 0).
  exists (fun x => logistic 2 0 0 x * (1 - logistic 2 0 0 x)).
  assert (Hv : logistic 2 0 0 0 = / 2).
  { unfold logistic.
    replace (-1 * 2 * (0 - 0) + 0) with 0 by ring.
    rewrite exp_0. lra. }
  assert (Hd : derivable_pt_lim (logistic 2 0 0) 0 (/ 2)).
  { pose proof (logistic_derivative 2 0 0 0) as Hl.
    rewrite Hv in Hl.
    replace (2 * (/ 2 * (1 - / 2))) with (/ 2) in Hl by lra.
    exact Hl. }
  split; [reflexivity | split; [reflexivity |]].
  split; [rewrite Hv; lra |].
  split; [exact Hd |].
  intro Hbad. rewrite Hv in Hbad.
  pose proof (uniqueness_limite _ _ _ _ Hd Hbad). lra.
Qed.

End ActivationAnalysis.

(** ** The emitted forward kernel *)

(** C2, on the pair [0 -> 1] with weight [[1]], bias [[1]] at node 1 and
    input [[1]]: the emitted kernel stores [[1]] in the slot of node 1,
    the value without the bias, where the specified value is [[2]]. *)
Theorem forward_kernel_ignores_bias :
  exists c keys,
    _gen_llvm_forward_function_body Examples.empty_ctx Examples.biased_pair
                                    false = Ok (c, keys)
    /\ let m := Examples.memory_of [[1%Z]] [1%Z] in
       m_output (c m) 1 = [1%Z]
       /\ (exists info f,
             dict_get (component_to_forward_info Examples.biased_pair) 1
             = Ok info
             /\ modify_value (node_function Examples.biased_pair 1) = Ok f
             /\ function_loop f
                  (spec_pre_activation Examples.biased_pair (c m) 1 info) 1
                = [2%Z]).
Proof.
  eexists; eexists; split; [reflexivity |].
  cbv zeta. split; [vm_compute; reflexivity |].
  eexists; eexists; split; [reflexivity | split; [reflexivity |]].
  vm_compute. reflexivity.
Qed.

(** ** The value the emitted forward kernel stores for a node *)

Section ForwardValue.
Context {F : Type} `{FloatTy F}.
Variable ctx : LLVMBuilderContext F.
Variable self : PytorchModelCreator F.

Lemma find_afferent_at (l : list (node * Tensor (mat F))) :
  forall (k i : nat) (a : node) (w : Tensor (mat F)),
    NoDup (map fst l) -> nth_error l k = Some (a, w) ->
    find_afferent l a i = Some (i + k, w).
Proof.
  induction l as [| [a' w'] rest IH]; intros k i a w Hnd Hnth.
  - now destruct k.
  - cbn [map fst] in Hnd. inversion Hnd as [| ? ? Hnotin Hnd']; subst.
    destruct k as [| k'].
    + cbn in Hnth. injection Hnth as -> ->. cbn.
      rewrite Nat.eqb_refl. now rewrite Nat.add_0_r.
    + cbn in Hnth. cbn [find_afferent].
      destruct (Nat.eqb_spec a' a) as [-> | Hne].
      * exfalso. apply Hnotin. apply in_map_iff. exists (a, w).
        split; [reflexivity | now apply nth_error_In with (n := k')].
      * rewrite (IH k' (S i) a w Hnd' Hnth). f_equal. f_equal. lia.
Qed.

Lemma same_but_output_refl (index : nat) (m : Memory F) :
  same_but_output index m m.
Proof. repeat split. Qed.

Lemma same_but_output_set (index : nat) (m m' : Memory F) (v : vec F) :
  same_but_output index m m' ->
  same_but_output index m (set_output m' index v).
Proof.
  intros (Hp & Hi & Ho). repeat split; cbn; auto.
  intros j Hne. unfold upd.
  destruct (Nat.eqb_spec j index); [contradiction | auto].
Qed.

Lemma set_output_same (m : Memory F) (index : nat) (v : vec F) :
  m_output (set_output m index v) index = v.
Proof. cbn. unfold upd. now rewrite Nat.eqb_refl. Qed.

Section OneNode.
Variable component : node.
Variable info : ForwardInfo F.
Hypothesis info_found :
  dict_get (component_to_forward_info self) component = Ok info.
Hypothesis afferents_once : NoDup (map fst (fi_afferents info)).
Hypothesis senders_elsewhere :
  forall a w,
    In (a, w) (fi_afferents info) ->
    get_node_index self a <> get_node_index self component.

Lemma weight_ptr_at (k : nat) (a : node) (w : Tensor (mat F)) :
  nth_error (fi_afferents info) k = Some (a, w) ->
  _gen_get_node_weight_ptr self component a
  = Ok (get_node_index self component, k,
        fst (shape (numpy w)), snd (shape (numpy w))).
Proof.
  intro Hnth. unfold _gen_get_node_weight_ptr. rewrite info_found.
  cbn [bind]. now rewrite (find_afferent_at _ k 0 a w afferents_once Hnth).
Qed.

(** One afferent after the first: its contribution is added to the slot of
    the node. *)
Lemma forward_afferent_code_value (k : nat) (a : node) (w : Tensor (mat F))
  (is_set : bool) (m0 m : Memory F) :
  In (a, w) (fi_afferents info) ->
  same_but_output (get_node_index self component) m0 m ->
  let m' :=
    forward_afferent_code (get_node_index self component)
      (get_node_index self a)
      (get_node_index self component, k,
       fst (shape (numpy w)), snd (shape (numpy w))) is_set m in
  same_but_output (get_node_index self component) m0 m'
  /\ m_output m' (get_node_index self component)
     = if is_set
       then forward_accumulate self m0 component
              (m_output m (get_node_index self component)) (k, (a, w))
       else vec_copy (forward_term self m0 component k (a, w))
                     (snd (shape (numpy w))).
Proof.
  intros Hin Hsame m'. subst m'. unfold forward_afferent_code.
  destruct Hsame as (Hp & Hi & Ho).
  assert (Hterm :
            vxm (m_output m (get_node_index self a))
                (m_params m (get_node_index self component) k)
                (fst (shape (numpy w))) (snd (shape (numpy w)))
            = forward_term self m0 component k (a, w)).
  { unfold forward_term. cbn [fst snd].
    now rewrite Hp, (Ho _ (senders_elsewhere a w Hin)). }
  rewrite Hterm.
  destruct is_set.
  - split; [now apply same_but_output_set |].
    now rewrite set_output_same.
  - split; [now apply same_but_output_set |].
    now rewrite set_output_same.
Qed.

Lemma forward_afferents_value (todo : list (node * Tensor (mat F))) :
  forall (done : list (node * Tensor (mat F))) (k : Code F)
         (m0 m : Memory F),
    fi_afferents info = done ++ todo ->
    forward_afferents self component todo true = Ok k ->
    same_but_output (get_node_index self component) m0 m ->
    same_but_output (get_node_index self component) m0 (k m)
    /\ m_output (k m) (get_node_index self component)
       = fold_left (forward_accumulate self m0 component)
                   (combine (seq (length done) (length todo)) todo)
                   (m_output m (get_node_index self component)).
Proof.
  induction todo as [| [a w] rest IH]; intros done k m0 m Hall Hgen Hsame.
  - cbn in Hgen. injection Hgen as <-. split; [exact Hsame | reflexivity].
  - cbn [forward_afferents] in Hgen.
    assert (Hnth : nth_error (fi_afferents info) (length done) = Some (a, w)).
    { rewrite Hall, nth_error_app2 by lia. now rewrite Nat.sub_diag. }
    rewrite (weight_ptr_at _ _ _ Hnth) in Hgen. cbn [bind] in Hgen.
    destruct (forward_afferents self component rest true) as [k' |] eqn:Hrest;
      [| discriminate].
    cbn [bind] in Hgen. injection Hgen as <-.
    assert (Hin : In (a, w) (fi_afferents info))
      by (now apply nth_error_In with (n := length done)).
    destruct (forward_afferent_code_value (length done) a w true m0 m Hin
                Hsame) as [Hsame1 Hval1].
    assert (Hall' : fi_afferents info = (done ++ [(a, w)]) ++ rest)
      by (now rewrite <- app_assoc).
    destruct (IH (done ++ [(a, w)]) k' m0 _ Hall' eq_refl Hsame1)
      as [Hsame' Hval'].
    split; [exact Hsame' |].
    etransitivity; [exact Hval' |].
    rewrite Hval1, length_app. cbn [length seq combine fold_left].
    now replace (length done + 1) with (S (length done)) by lia.
Qed.

(** X13.  The value the emitted code stores for a node outside the first
    execution set: the activation kernel applied to the contributions of
    the incoming edges, the first one copied and the others added, in the
    order of the afferents; no bias is added. *)
Lemma forward_component_value (store_z_values : bool) (i : nat)
  (c : Code F) :
  i <> 0 ->
  forward_component ctx self store_z_values i component = Ok c ->
  exists bin_func,
    bin_function_creator ctx self component = Ok bin_func
    /\ forall m,
         m_output (c m) (get_node_index self component)
         = bin_func (kernel_pre_activation self m component
                                           (fi_afferents info))
                    (variable_dim self component).
Proof.
  intros Hi Hgen. unfold forward_component in Hgen.
  rewrite info_found in Hgen. cbn [bind] in Hgen.
  destruct (Nat.eqb_spec i 0) as [Hz | _]; [contradiction |].
  destruct (forward_afferents self component (fi_afferents info) false)
    as [weighted |] eqn:Hw; [| discriminate].
  cbn [bind] in Hgen.
  destruct (bin_function_creator ctx self component) as [bin_func |];
    [| discriminate].
  cbn [bind] in Hgen. injection Hgen as <-.
  exists bin_func. split; [reflexivity |].
  intro m. cbv zeta.
  assert (Hpre : m_output (weighted m) (get_node_index self component)
                 = kernel_pre_activation self m component
                                         (fi_afferents info)).
  { unfold kernel_pre_activation.
    pose (affs := fi_afferents info).
    assert (Haff : fi_afferents info = affs) by reflexivity.
    clearbody affs. rewrite Haff in Hw |- *.
    destruct affs as [| [a w] rest].
    - cbn in Hw. injection Hw as <-. reflexivity.
    - cbn [forward_afferents] in Hw.
      assert (Hnth : nth_error (fi_afferents info) 0 = Some (a, w))
        by (now rewrite Haff).
      rewrite (weight_ptr_at _ _ _ Hnth) in Hw. cbn [bind] in Hw.
      destruct (forward_afferents self component rest true) as [k' |]
        eqn:Hrest; [| discriminate].
      cbn [bind] in Hw. injection Hw as <-.
      assert (Hin : In (a, w) (fi_afferents info))
        by (rewrite Haff; now left).
      destruct (forward_afferent_code_value 0 a w false m m Hin
                  (same_but_output_refl _ m)) as [Hsame1 Hval1].
      destruct (forward_afferents_value rest [(a, w)] k' m _ Haff Hrest
                  Hsame1) as [_ Hval'].
      etransitivity; [exact Hval' |]. rewrite Hval1. reflexivity. }
  destruct store_z_values; rewrite set_output_same; cbn [m_output set_z];
    now rewrite Hpre.
Qed.

End OneNode.

End ForwardValue.

(** ** The emitted forward kernel never reads the biases *)

Section ForwardBias.
Context {F : Type} `{FloatTy F}.

Lemma dict_get_drop_bias (d : list (node * ForwardInfo F)) (k : node) :
  dict_get (map (fun p => (fst p, drop_bias (snd p))) d) k
  = info <- dict_get d k ;; Ok (drop_bias info).
Proof.
  induction d as [| [k' info] rest IH]; cbn; [reflexivity |].
  destruct (Nat.eqb k' k); [reflexivity | exact IH].
Qed.

Lemma weight_ptr_without_biases (self : PytorchModelCreator F)
  (n afferent_node : node) :
  _gen_get_node_weight_ptr (without_biases self) n afferent_node
  = _gen_get_node_weight_ptr self n afferent_node.
Proof.
  unfold _gen_get_node_weight_ptr. cbn [component_to_forward_info
                                         without_biases get_node_index].
  rewrite dict_get_drop_bias.
  now destruct (dict_get (component_to_forward_info self) n).
Qed.

Lemma forward_afferents_without_biases (self : PytorchModelCreator F)
  (component : node) (afferents : list (node * Tensor (mat F))) :
  forall is_set,
    forward_afferents (without_biases self) component afferents is_set
    = forward_afferents self component afferents is_set.
Proof.
  induction afferents as [| [a w] rest IH]; intro is_set; [reflexivity |].
  cbn [forward_afferents]. rewrite weight_ptr_without_biases, IH.
  reflexivity.
Qed.

Lemma forward_component_without_biases (ctx : LLVMBuilderContext F)
  (self : PytorchModelCreator F) (store_z_values : bool) (i : nat)
  (component : node) :
  forward_component ctx (without_biases self) store_z_values i component
  = forward_component ctx self store_z_values i component.
Proof.
  unfold forward_component.
  cbn [component_to_forward_info without_biases].
  rewrite dict_get_drop_bias.
  destruct (dict_get (component_to_forward_info self) component) as [info |];
    [| reflexivity].
  cbn [bind drop_bias fi_afferents].
  now rewrite forward_afferents_without_biases.
Qed.

(** X14.  The generator emits the same forward kernel whatever the biases
    of the nodes are: the kernel is the one of the model without biases. *)
Lemma forward_kernel_independent_of_biases (ctx : LLVMBuilderContext F)
  (self : PytorchModelCreator F) (store_z_values : bool) :
  _gen_llvm_forward_function_body ctx (without_biases self) store_z_values
  = _gen_llvm_forward_function_body ctx self store_z_values.
Proof.
  unfold _gen_llvm_forward_function_body, z_values_keys.
  cbn [execution_sets without_biases].
  assert (Hsets : forall sets i,
             forward_sets ctx (without_biases self) store_z_values i sets
             = forward_sets ctx self store_z_values i sets).
  { induction sets as [| s rest IH]; intro i; [reflexivity |].
    cbn [forward_sets]. rewrite IH.
    assert (Hset : forall l,
               forward_exec_set ctx (without_biases self) store_z_values i l
               = forward_exec_set ctx self store_z_values i l).
    { induction l as [| c l' IHl]; [reflexivity |].
      cbn [forward_exec_set].
      now rewrite forward_component_without_biases, IHl. }
    now rewrite Hset. }
  now rewrite Hsets.
Qed.

End ForwardBias.

(** ** The backpropagated error of a hidden node *)

Section BackpropError.
Context {F : Type} `{FloatTy F}.
Variable lossfunc : Loss -> vec F -> vec F -> nat -> F.
Variable loss_differential : Loss -> vec F -> vec F -> nat -> vec F.
Variable ctx : LLVMBuilderContext F.
Variable self : PytorchModelCreator F.

Lemma same_but_error_refl (n : node) (m : Memory F) : same_but_error n m m.
Proof. repeat split. Qed.

Lemma same_but_error_set (n : node) (m m' : Memory F) (v : vec F) :
  same_but_error n m m' -> same_but_error n m (set_err m' n v).
Proof.
  intros (Hp & Hz & He). repeat split; cbn; auto.
  intros e Hne. unfold upd.
  destruct (Nat.eqb_spec e n); [contradiction | auto].
Qed.

Lemma set_err_same (m : Memory F) (n : node) (v : vec F) :
  m_err (set_err m n v) n = v.
Proof. cbn. unfold upd. now rewrite Nat.eqb_refl. Qed.

Lemma spec_efferent_term_frame (n e : node) (m m' : Memory F) :
  same_but_error n m m' -> e <> n ->
  spec_efferent_term self m' n e = spec_efferent_term self m n e.
Proof.
  intros (Hp & _ & He) Hne. unfold spec_efferent_term.
  destruct (_gen_get_node_weight_ptr self e n) as [[[[i k] dx] dy] |];
    [| reflexivity].
  now rewrite Hp, (He e Hne).
Qed.

(** The code of the efferent loop, once the buffer is set, adds the
    contribution of every efferent to it and touches nothing else. *)
Lemma backprop_efferents_set (errors : list node) (n : node)
  (node_dim : nat) (efferent_nodes : list node) :
  forall (k : Code F) (tr : list Event) (m0 m : Memory F),
    backprop_efferents self errors n node_dim efferent_nodes true
    = Ok (k, tr) ->
    ~ In n efferent_nodes ->
    same_but_error n m0 m ->
    same_but_error n m0 (k m)
    /\ m_err (k m) n
       = fold_left
           (fun acc e => vec_add (spec_efferent_term self m0 n e) acc node_dim)
           efferent_nodes (m_err m n).
Proof.
  induction efferent_nodes as [| e rest IH]; intros k tr m0 m Hgen Hnin Hsame.
  - cbn in Hgen. injection Hgen as <- _. split; [exact Hsame | reflexivity].
  - cbn [backprop_efferents] in Hgen.
    destruct (negb (node_mem e errors)); [discriminate |].
    pose proof (spec_efferent_term_frame n e m0 m Hsame) as Hterm.
    unfold spec_efferent_term in Hterm.
    destruct (_gen_get_node_weight_ptr self e n) as [w |] eqn:Hw;
      [| discriminate].
    cbn [bind] in Hgen.
    destruct (backprop_efferents self errors n node_dim rest true)
      as [[k' tr'] |] eqn:Hrest; [| discriminate].
    cbn [bind] in Hgen. injection Hgen as <- _.
    assert (Hne : e <> n) by (intro Heq; apply Hnin; left; exact Heq).
    assert (Hnin' : ~ In n rest) by (intro Hin; apply Hnin; right; exact Hin).
    destruct w as [[[i j] dx] dy].
    specialize (Hterm Hne).
    set (m1 := backprop_efferent_code n e node_dim (i, j, dx, dy) true m).
    assert (Hm1 : same_but_error n m0 m1)
      by (apply same_but_error_set; exact Hsame).
    destruct (IH k' tr' m0 m1 eq_refl Hnin' Hm1) as [Hs Hv].
    split; [exact Hs |].
    rewrite Hv. cbn [fold_left]. f_equal.
    unfold m1, backprop_efferent_code. rewrite set_err_same.
    unfold spec_efferent_term. rewrite Hw. now rewrite Hterm.
Qed.

(** The whole efferent loop of a node with at least one efferent. *)
Lemma backprop_efferents_sum (errors : list node) (n : node)
  (node_dim : nat) (efferent_nodes : list node) (k : Code F)
  (tr : list Event) (m : Memory F) :
  backprop_efferents self errors n node_dim efferent_nodes false
  = Ok (k, tr) ->
  ~ In n efferent_nodes ->
  same_but_error n m (k m)
  /\ m_err (k m) n = spec_efferent_sum self m n node_dim efferent_nodes.
Proof.
  destruct efferent_nodes as [| e rest]; intros Hgen Hnin.
  - cbn in Hgen. injection Hgen as <- _.
    split; [apply same_but_error_refl | reflexivity].
  - cbn [backprop_efferents] in Hgen.
    destruct (negb (node_mem e errors)); [discriminate |].
    destruct (_gen_get_node_weight_ptr self e n) as [w |] eqn:Hw;
      [| discriminate].
    cbn [bind] in Hgen.
    destruct (backprop_efferents self errors n node_dim rest true)
      as [[k' tr'] |] eqn:Hrest; [| discriminate].
    cbn [bind] in Hgen. injection Hgen as <- _.
    assert (Hnin' : ~ In n rest) by (intro Hin; apply Hnin; right; exact Hin).
    destruct w as [[[i j] dx] dy].
    set (m1 := backprop_efferent_code n e node_dim (i, j, dx, dy) false m).
    assert (Hm1 : same_but_error n m m1)
      by (apply same_but_error_set; apply same_but_error_refl).
    destruct (backprop_efferents_set errors n node_dim rest k' tr' m m1
                Hrest Hnin' Hm1) as [Hs Hv].
    split; [exact Hs |].
    rewrite Hv. unfold spec_efferent_sum. f_equal.
    unfold m1, backprop_efferent_code. rewrite set_err_same.
    unfold spec_efferent_term. now rewrite Hw.
Qed.

(** What the emitted code computes for a hidden node.  For a node [n]
    that is not an output node, has no edge to itself and passes the
    [continue] test, the code the generator emits leaves in the error
    buffer of [n] the Hadamard product of the kernel made by
    [bin_function_derivative_creator], whatever that kernel computes,
    applied to the retained [z] values of [n], with the sum
    over the efferent edges of [n] of
    [vec_mat_mul_transposed(efferent_error, edge_weight)], all read from
    the memory [m0] in which the code for [n] starts. *)
Lemma backprop_hidden_node_error (loss : Loss) (z_values : list node)
  (n : node) (st st' : GenState F) :
  node_mem n (output_nodes self) = false ->
  efferents self n <> [] ->
  ~ In n (efferents self n) ->
  backprop_node lossfunc loss_differential ctx self loss z_values n st
  = Ok st' ->
  exists derivative,
    bin_function_derivative_creator ctx self n = Ok derivative
    /\ forall (input_idx : nat) (m : Memory F),
         let m0 := code st input_idx m in
         m_err (code st' input_idx m) n
         = vec_hadamard (derivative (m_z m0 n) (value_dim self n))
             (spec_efferent_sum self m0 n (value_dim self n) (efferents self n))
             (value_dim self n).
Proof.
  intros Hout Hne Hself Hnode. unfold backprop_node in Hnode.
  destruct (_get_afferent_nodes self n) as [affs |]; [| discriminate].
  cbn [bind] in Hnode.
  destruct (bin_function_derivative_creator ctx self n) as [derivative |];
    [| discriminate].
  cbn [bind] in Hnode.
  destruct (negb (node_mem n z_values)); [discriminate |].
  rewrite Hout in Hnode.
  destruct (backprop_efferents self (error_dict st ++ [n]) n
              (value_dim self n) (efferents self n) false)
    as [[propagate tr] |] eqn:Heff; [| discriminate].
  cbn [bind] in Hnode. injection Hnode as <-.
  exists derivative. split; [reflexivity |].
  intros input_idx m m0. cbn [code].
  unfold backprop_hidden_code. rewrite set_err_same. fold m0.
  destruct (backprop_efferents_sum _ _ _ _ _ _ m0 Heff Hself) as [_ Hv].
  now rewrite Hv.
Qed.

End BackpropError.

(** C6.  On the chain [0 -> 1 -> 2] over the reals, whose hidden node 1 has
    a [Logistic] function of gain 2, the code emitted for node 1 does not
    leave in its error buffer what the statement says.  With the retained
    [z] value [0] of node 1, the error [1] of its efferent node 2 and the
    edge weight [[1]], the sum over the efferent edges of
    [vec_mat_mul_transposed(efferent_error, edge_weight)] is [1] and the
    derivative of the activation function of node 1 at [0] is [1/2], so
    the stated error is [1/2]; the emitted code stores [1/4], the
    product of the sum with [f(z) * (1 - f(z))], and this differs from the
    product of the sum with the derivative of the activation at [z]
    whatever value that derivative is taken to have. *)
Theorem backprop_hidden_error_omits_gain :
  exists (st' : GenState R) (f : R -> R),
    node_mem 1 (output_nodes Examples.logistic_chain) = false
    /\ efferents Examples.logistic_chain 1 = [2]
    /\ modify_value (node_function Examples.logistic_chain 1) = Ok f
    /\ backprop_node Examples.zero_loss Examples.zero_loss_differential
         Examples.empty_ctx Examples.logistic_chain MSELoss [2; 1] 1
         Examples.logistic_after_output
       = Ok st'
    /\ let m := Examples.real_memory_of [[1%R]] [0%R] [1%R] in
       let efferent_sum :=
         spec_efferent_sum Examples.logistic_chain m 1 1 [2] in
       m_z m 1 = [0%R]
       /\ efferent_sum = [1%R]
       /\ derivable_pt_lim f 0%R (/ 2)%R
       /\ vec_hadamard [(/ 2)%R] efferent_sum 1 = [(/ 2)%R]
       /\ m_err (code st' 0 m) 1 = [(/ 4)%R]
       /\ forall d : R,
            derivable_pt_lim f 0%R d ->
            m_err (code st' 0 m) 1 <> vec_hadamard [d] efferent_sum 1.
Proof.
  assert (Hhalf : logistic 2 0 0 0 = (/ 2)%R :> R).
  { unfold logistic.
    replace (-1 * 2 * (0 - 0) + 0)%R with 0%R by ring.
    rewrite exp_0. lra. }
  assert (Hlim : derivable_pt_lim (logistic 2 0 0) 0%R (/ 2)%R).
  { pose proof (logistic_derivative 2 0 0 0) as Hd.
    rewrite Hhalf in Hd.
    now replace (2 * (/ 2 * (1 - / 2)))%R with (/ 2)%R in Hd by lra. }
  do 2 eexists.
  split; [reflexivity |]. split; [reflexivity |].
  split; [apply modify_value_logistic |].
  split; [reflexivity |].
  cbv zeta.
  assert (Hsum : spec_efferent_sum Examples.logistic_chain
                   (Examples.real_memory_of [[1%R]] [0%R] [1%R]) 1 1 [2]
                 = [1%R]).
  { cbn. f_equal. ring. }
  rewrite Hsum.
  split; [reflexivity |]. split; [reflexivity |].
  split; [exact Hlim |].
  split; [cbn; f_equal; lra |].
  match goal with
  | |- ?stored = _ /\ _ => assert (Hcode : stored = [(/ 4)%R])
  end.
  { cbn. f_equal.
    replace (-1 * 2 * (0 - 0) + 0)%R with 0%R by ring.
    rewrite exp_0. lra. }
  split; [exact Hcode |].
  intros d Hd. rewrite Hcode.
  rewrite (uniqueness_limite _ _ _ _ Hd Hlim).
  cbn. intro Heq. injection Heq as Heq. lra.
Qed.

(** ** The order in which the errors are computed *)

Section BackpropOrder.
Context {F : Type} `{FloatTy F}.
Variable lossfunc : Loss -> vec F -> vec F -> nat -> F.
Variable loss_differential : Loss -> vec F -> vec F -> nat -> vec F.
Variable ctx : LLVMBuilderContext F.
Variable self : PytorchModelCreator F.

Lemma well_ordered_event_mono (before more : list Event) (ev : Event) :
  well_ordered_event self before ev ->
  well_ordered_event self (before ++ more) ev.
Proof.
  destruct ev as [n e | n]; cbn.
  - intro Hin. apply in_or_app. now left.
  - intros Hall Hout e He. apply in_or_app. left. now apply Hall.
Qed.

Lemma well_ordered_app (a b : list Event) :
  well_ordered self a ->
  (forall before ev after,
      b = before ++ ev :: after -> well_ordered_event self (a ++ before) ev) ->
  well_ordered self (a ++ b).
Proof.
  intros Ha Hb before ev after Heq.
  apply app_eq_app in Heq. destruct Heq as [l [[Ha' Hl] | [Hb' Hl]]].
  - destruct l as [| x l'].
    + cbn in Hl. rewrite app_nil_r in Ha'. subst a.
      rewrite <- (app_nil_r before). apply (Hb [] ev after). now symmetry.
    + cbn in Hl. injection Hl as <- ->.
      apply (Ha before ev (l' )). exact Ha'.
  - subst before. apply (Hb l ev after). exact Hl.
Qed.

Lemma node_mem_In (k : node) (l : list node) :
  node_mem k l = true <-> In k l.
Proof.
  unfold node_mem. rewrite existsb_exists. split.
  - intros [x [Hin Heq]]. apply Nat.eqb_eq in Heq. now subst.
  - intro Hin. exists k. split; [exact Hin | apply Nat.eqb_refl].
Qed.

(** The efferent loop emits one read per efferent, in order, and only of
    buffers that are bound in [error_dict]. *)
Lemma backprop_efferents_emitted (errors : list node) (n : node)
  (node_dim : nat) (efferent_nodes : list node) :
  forall (is_set : bool) (k : Code F) (tr : list Event),
    backprop_efferents self errors n node_dim efferent_nodes is_set
    = Ok (k, tr) ->
    tr = map (Read n) efferent_nodes
    /\ forall e, In e efferent_nodes -> In e errors.
Proof.
  induction efferent_nodes as [| e rest IH]; intros is_set k tr Hgen.
  - cbn in Hgen. injection Hgen as _ <-. split; [reflexivity | easy].
  - cbn [backprop_efferents] in Hgen.
    destruct (node_mem e errors) eqn:Hmem; [| discriminate].
    cbn [negb] in Hgen.
    destruct (_gen_get_node_weight_ptr self e n) as [w |]; [| discriminate].
    cbn [bind] in Hgen.
    destruct (backprop_efferents self errors n node_dim rest true)
      as [[k' tr'] |] eqn:Hrest; [| discriminate].
    cbn [bind] in Hgen. injection Hgen as _ <-.
    destruct (IH true k' tr' Hrest) as [Htr Hall].
    split.
    + cbn. now rewrite Htr.
    + intros e' [<- | Hin]; [now apply node_mem_In | now apply Hall].
Qed.

Lemma backprop_node_invariant (loss : Loss) (z_values : list node)
  (n : node) (st st' : GenState F) :
  (forall x, ~ In x (efferents self x)) ->
  order_invariant self st ->
  backprop_node lossfunc loss_differential ctx self loss z_values n st
  = Ok st' ->
  order_invariant self st'.
Proof.
  intros Hloop [Hord Hfin] Hnode. unfold backprop_node in Hnode.
  destruct (_get_afferent_nodes self n) as [affs |]; [| discriminate].
  cbn [bind] in Hnode.
  destruct (bin_function_derivative_creator ctx self n) as [derivative |];
    [| discriminate].
  cbn [bind] in Hnode.
  destruct (negb (node_mem n z_values)); [discriminate |].
  destruct (node_mem n (output_nodes self)) eqn:Hout.
  - injection Hnode as <-. split; cbn.
    + apply well_ordered_app; [exact Hord |].
      intros before ev after Heq.
      destruct before as [| x before'].
      * cbn in Heq. injection Heq as <- _. cbn. congruence.
      * cbn in Heq. injection Heq as _ Heq. now destruct before'.
    + intros x Hin. apply in_app_or in Hin. apply in_or_app.
      destruct Hin as [Hin | [<- | []]];
        [left; now apply Hfin | right; now left].
  - destruct (backprop_efferents self (error_dict st ++ [n]) n
                (value_dim self n) (efferents self n) false)
      as [[propagate tr] |] eqn:Heff; [| discriminate].
    cbn [bind] in Hnode. injection Hnode as <-.
    destruct (backprop_efferents_emitted _ _ _ _ _ _ _ Heff) as [Htr Hall].
    assert (Hdone : forall e, In e (efferents self n) ->
                              In (Final e) (emitted st)).
    { intros e He. apply Hfin. specialize (Hall e He).
      apply in_app_or in Hall. destruct Hall as [Hin | [Heq | []]];
        [exact Hin | subst e; exfalso; now apply (Hloop n)]. }
    split; cbn.
    + apply well_ordered_app; [exact Hord |].
      intros before ev after Heq.
      apply well_ordered_event_mono.
      assert (Hev : In ev (tr ++ [Final n]))
        by (rewrite Heq; apply in_or_app; right; now left).
      apply in_app_or in Hev. destruct Hev as [Hev | [<- | []]].
      * rewrite Htr in Hev. apply in_map_iff in Hev.
        destruct Hev as [e [<- He]]. cbn. now apply Hdone.
      * cbn. intros _ e He. now apply Hdone.
    + intros x Hin. apply in_app_or in Hin. apply in_or_app.
      destruct Hin as [Hin | [<- | []]].
      * left. now apply Hfin.
      * right. apply in_or_app. right. now left.
Qed.

Lemma backprop_step_invariant (loss : Loss) (z_values : list node)
  (st st' : GenState F) :
  (forall x, ~ In x (efferents self x)) ->
  order_invariant self st ->
  backprop_step lossfunc loss_differential ctx self loss z_values st
  = Ok st' ->
  order_invariant self st'.
Proof.
  intros Hloop Hinv Hstep. unfold backprop_step in Hstep.
  destruct (backprop_queue st) as [| n rest].
  - injection Hstep as <-. exact Hinv.
  - destruct (backprop_skip self (error_dict st) n).
    + injection Hstep as <-. exact Hinv.
    + eapply backprop_node_invariant; [exact Hloop | | exact Hstep].
      exact Hinv.
Qed.

Lemma backprop_loop_invariant (loss : Loss) (z_values : list node)
  (fuel : nat) :
  forall st st' : GenState F,
    (forall x, ~ In x (efferents self x)) ->
    order_invariant self st ->
    backprop_loop lossfunc loss_differential ctx self loss z_values fuel st
    = Ok st' ->
    order_invariant self st'.
Proof.
  induction fuel as [| fuel IH]; intros st st' Hloop Hinv Hrun.
  - cbn in Hrun. injection Hrun as <-. exact Hinv.
  - cbn [backprop_loop] in Hrun.
    destruct (backprop_queue st) as [| n rest] eqn:Hq.
    + injection Hrun as <-. exact Hinv.
    + destruct (backprop_step lossfunc loss_differential ctx self loss
                  z_values st) as [st1 |] eqn:Hstep; [| discriminate].
      cbn [bind] in Hrun.
      apply (IH st1 st' Hloop); [| exact Hrun].
      eapply backprop_step_invariant; eauto.
Qed.

(** C5.  In a graph without an edge from a node to itself (in particular an
    acyclic one), whenever the generator gets through any number of
    iterations of the [while] loop, the accesses to the error buffers it
    has emitted are ordered: the final write to the error of a node that is
    not an output node comes after the final writes to the errors of all
    its efferents, and every read of an efferent's error comes after the
    final write to it. *)
Theorem backprop_errors_after_efferents (loss : Loss)
  (z_values : list node) (forward_code : Code F) (fuel : nat)
  (st : GenState F) :
  (forall x, ~ In x (efferents self x)) ->
  backprop_loop lossfunc loss_differential ctx self loss z_values fuel
                (backprop_init self forward_code) = Ok st ->
  (forall before n after,
      emitted st = before ++ Final n :: after ->
      node_mem n (output_nodes self) = false ->
      forall e, In e (efferents self n) -> In (Final e) before)
  /\ (forall before n e after,
        emitted st = before ++ Read n e :: after -> In (Final e) before).
Proof.
  intros Hloop Hrun.
  assert (Hinit : order_invariant self (backprop_init self forward_code)).
  { split; cbn; [| easy]. intros before ev after Heq. now destruct before. }
  destruct (backprop_loop_invariant loss z_values fuel _ _ Hloop Hinit Hrun)
    as [Hord _].
  split.
  - intros before n after Heq. exact (Hord _ _ _ Heq).
  - intros before n e after Heq. exact (Hord _ _ _ Heq).
Qed.

End BackpropOrder.

(** ** The [while] loop of the backpropagation terminates *)

Section BackpropTermination.
Context {F : Type} `{FloatTy F}.
Variable lossfunc : Loss -> vec F -> vec F -> nat -> F.
Variable loss_differential : Loss -> vec F -> vec F -> nat -> vec F.
Variable ctx : LLVMBuilderContext F.
Variable self : PytorchModelCreator F.

Lemma node_mem_app (x : node) (l1 l2 : list node) :
  node_mem x (l1 ++ l2) = node_mem x l1 || node_mem x l2.
Proof. unfold node_mem. apply existsb_app. Qed.

Lemma pending_mono (errors : list node) (n : node)
  (d : list (node * ForwardInfo F)) :
  pending (errors ++ [n]) d <= pending errors d.
Proof.
  induction d as [| [k info] rest IH]; cbn [pending]; [lia |].
  rewrite node_mem_app.
  destruct (node_mem k errors), (node_mem k [n]); cbn [orb]; lia.
Qed.

Lemma pending_drop (errors : list node) (n : node)
  (d : list (node * ForwardInfo F)) (info : ForwardInfo F) :
  dict_get d n = Ok info ->
  node_mem n errors = false ->
  pending (errors ++ [n]) d + S (S (length (fi_afferents info)))
  <= pending errors d.
Proof.
  induction d as [| [k info'] rest IH]; cbn [pending dict_get];
    [discriminate |].
  intros Hget Hmem. rewrite node_mem_app.
  destruct (Nat.eqb_spec k n) as [-> | Hne].
  - injection Hget as ->. rewrite Hmem.
    assert (Hn : node_mem n [n] = true)
      by (cbn; now rewrite Nat.eqb_refl).
    rewrite Hn. cbn [orb].
    pose proof (pending_mono errors n rest). lia.
  - specialize (IH Hget Hmem).
    destruct (node_mem k errors), (node_mem k [n]); cbn [orb]; lia.
Qed.

Lemma pending_nil (d : list (node * ForwardInfo F)) :
  pending [] d
  = fold_right
      (fun p acc => S (S (length (fi_afferents (snd p)))) + acc) 0 d.
Proof.
  induction d as [| [k info] rest IH]; cbn; [reflexivity | now rewrite IH].
Qed.

Lemma backprop_step_decreases (loss : Loss) (z_values : list node)
  (st st' : GenState F) :
  backprop_queue st <> [] ->
  backprop_step lossfunc loss_differential ctx self loss z_values st
  = Ok st' ->
  measure self st' < measure self st.
Proof.
  intros Hq Hstep. unfold backprop_step in Hstep.
  destruct (backprop_queue st) as [| n rest] eqn:Hqueue; [congruence |].
  unfold measure. rewrite Hqueue.
  destruct (backprop_skip self (error_dict st) n) eqn:Hskip.
  - injection Hstep as <-. cbn. lia.
  - unfold backprop_node, _get_afferent_nodes in Hstep.
    destruct (dict_get (component_to_forward_info self) n) as [info |]
      eqn:Hget; [| discriminate].
    cbn [bind] in Hstep.
    destruct (bin_function_derivative_creator ctx self n); [| discriminate].
    cbn [bind] in Hstep.
    destruct (negb (node_mem n z_values)); [discriminate |].
    assert (Hmem : node_mem n (error_dict st) = false).
    { unfold backprop_skip in Hskip.
      destruct (node_mem n (error_dict st)); [discriminate | reflexivity]. }
    pose proof (pending_drop (error_dict st) n _ _ Hget Hmem) as Hdrop.
    destruct (node_mem n (output_nodes self)).
    + injection Hstep as <-. cbn.
      rewrite length_app, length_map. lia.
    + cbn [backprop_queue error_dict] in Hstep.
      destruct (backprop_efferents self (error_dict st ++ [n]) n
                  (value_dim self n) (efferents self n) false)
        as [[propagate tr] |]; [| discriminate].
      cbn [bind] in Hstep. injection Hstep as <-. cbn.
      rewrite length_app, length_map. lia.
Qed.

Lemma backprop_loop_empties (loss : Loss) (z_values : list node)
  (fuel : nat) :
  forall st st' : GenState F,
    measure self st <= fuel ->
    backprop_loop lossfunc loss_differential ctx self loss z_values fuel st
    = Ok st' ->
    backprop_queue st' = [].
Proof.
  induction fuel as [| fuel IH]; intros st st' Hm Hrun.
  - cbn in Hrun. injection Hrun as <-.
    unfold measure in Hm. destruct (backprop_queue st); [reflexivity |].
    cbn in Hm. lia.
  - cbn [backprop_loop] in Hrun.
    destruct (backprop_queue st) as [| n rest] eqn:Hq.
    + injection Hrun as <-. exact Hq.
    + destruct (backprop_step lossfunc loss_differential ctx self loss
                  z_values st) as [st1 |] eqn:Hstep; [| discriminate].
      cbn [bind] in Hrun.
      apply (IH st1 st'); [| exact Hrun].
      assert (Hne : backprop_queue st <> []) by (rewrite Hq; discriminate).
      pose proof (backprop_step_decreases _ _ _ _ Hne Hstep). lia.
Qed.

(** With [backprop_fuel] iterations the [while] loop has run to its end:
    the generator either raised or left the queue empty. *)
Lemma backprop_loop_terminates (loss : Loss) (z_values : list node)
  (forward_code : Code F) (st : GenState F) :
  backprop_loop lossfunc loss_differential ctx self loss z_values
                (backprop_fuel self) (backprop_init self forward_code)
  = Ok st ->
  backprop_queue st = [].
Proof.
  apply backprop_loop_empties.
  unfold measure, backprop_fuel. cbn. now rewrite pending_nil.
Qed.

End BackpropTermination.

(** ** Unsupported kinds are rejected by the generators *)

Section Rejection.
Context {F : Type} `{FloatTy F}.
Variable lossfunc : Loss -> vec F -> vec F -> nat -> F.
Variable loss_differential : Loss -> vec F -> vec F -> nat -> vec F.
Variable _DELTA_W_NUM : Optimizer -> nat.
Variable initialize_optimizer_struct : Optimizer -> Code F.
Variable zero_grad : Optimizer -> Code F.
Variable optimizer_step : Optimizer -> Code F.
Variable ctx : LLVMBuilderContext F.
Variable self : PytorchModelCreator F.

Lemma is_ok_bind_raise {A B : Type} (r : result A) (k : A -> result B) :
  is_ok r = false -> is_ok (bind r k) = false.
Proof. destruct r; [discriminate | reflexivity]. Qed.

Lemma is_ok_bind_then {A B : Type} (r : result A) (k : A -> result B) :
  (forall a, is_ok (k a) = false) -> is_ok (bind r k) = false.
Proof. intro Hk. destruct r; [apply Hk | reflexivity]. Qed.

Lemma modify_value_ok (function : TransferFunction F) :
  is_ok (modify_value function) = supported function.
Proof. destruct function; reflexivity. Qed.

Lemma modify_value_derivative_ok (function : TransferFunction F) :
  is_ok (modify_value_derivative function) = supported function.
Proof. destruct function; reflexivity. Qed.

Lemma bin_function_creator_raises (c : node) :
  unsupported_node ctx self c ->
  is_ok (bin_function_creator ctx self c) = false.
Proof.
  intros [Hctx Hsup]. unfold bin_function_creator. rewrite Hctx.
  apply is_ok_bind_raise. now rewrite modify_value_ok.
Qed.

Lemma forward_component_raises (store_z_values : bool) (i : nat) (c : node) :
  unsupported_node ctx self c ->
  is_ok (forward_component ctx self store_z_values i c) = false.
Proof.
  intro Hc. unfold forward_component.
  apply is_ok_bind_then. intro info.
  apply is_ok_bind_then. intro weighted.
  apply is_ok_bind_raise. now apply bin_function_creator_raises.
Qed.

Lemma forward_exec_set_raises (store_z_values : bool) (i : nat) (c : node)
  (current_exec_set : list node) :
  unsupported_node ctx self c -> In c current_exec_set ->
  is_ok (forward_exec_set ctx self store_z_values i current_exec_set) = false.
Proof.
  intros Hc. induction current_exec_set as [| x rest IH]; [easy |].
  intros [-> | Hin]; cbn [forward_exec_set].
  - apply is_ok_bind_raise. now apply forward_component_raises.
  - apply is_ok_bind_then. intro code0.
    apply is_ok_bind_raise. now apply IH.
Qed.

Lemma forward_sets_raises (store_z_values : bool) (c : node)
  (sets : list (list node)) :
  unsupported_node ctx self c -> In c (concat sets) ->
  forall i, is_ok (forward_sets ctx self store_z_values i sets) = false.
Proof.
  intros Hc. induction sets as [| s rest IH]; [easy |].
  cbn [concat]. intros Hin i. apply in_app_or in Hin.
  cbn [forward_sets]. destruct Hin as [Hin | Hin].
  - apply is_ok_bind_raise. now apply forward_exec_set_raises with (c := c).
  - apply is_ok_bind_then. intro code0.
    apply is_ok_bind_raise. now apply IH.
Qed.

Lemma forward_body_raises (store_z_values : bool) (c : node) :
  unsupported_node ctx self c -> In c (concat (execution_sets self)) ->
  is_ok (_gen_llvm_forward_function_body ctx self store_z_values) = false.
Proof.
  intros Hc Hin. unfold _gen_llvm_forward_function_body.
  apply is_ok_bind_raise. now apply forward_sets_raises with (c := c).
Qed.

Local Abbreviation training_function_body :=
  (_gen_llvm_training_function_body lossfunc loss_differential _DELTA_W_NUM
     initialize_optimizer_struct zero_grad optimizer_step ctx self).

(** C7.  When a node of the execution sets has a function other than
    [Linear] and [Logistic] (and no kernel is registered for it in the
    context the generator starts from), or the optimizer type is neither
    ['adam'] nor ['sgd'], or the loss is not ['mse'], the generator of the
    training kernel raises, so no kernel exists that could be run; with
    such a node the generator of the forward kernel raises as well.  An
    emitted kernel is a function on memories that has no way to raise. *)
Theorem unsupported_kinds_rejected_by_generator :
  (exists c, In c (concat (execution_sets self)) /\ unsupported_node ctx self c)
  \/ (optimizer_type self <> "adam"%string
      /\ optimizer_type self <> "sgd"%string)
  \/ loss_spec self <> "mse"%string ->
  is_ok training_function_body = false
  /\ ((exists c,
         In c (concat (execution_sets self)) /\ unsupported_node ctx self c) ->
      forall store_z_values,
        is_ok (_gen_llvm_forward_function_body ctx self store_z_values)
        = false).
Proof.
  intro Hbad. split.
  - unfold _gen_llvm_training_function_body.
    destruct Hbad as [[c [Hin Hc]] | [[Hadam Hsgd] | Hloss]].
    + apply is_ok_bind_then. intro optimizer.
      apply is_ok_bind_then. intro loss.
      apply is_ok_bind_raise. unfold _gen_llvm_training_backprop.
      apply is_ok_bind_raise. now apply forward_body_raises with (c := c).
    + apply is_ok_bind_raise.
      apply String.eqb_neq in Hadam, Hsgd. now rewrite Hadam, Hsgd.
    + apply is_ok_bind_then. intro optimizer.
      apply is_ok_bind_raise.
      apply String.eqb_neq in Hloss. now rewrite Hloss.
  - intros [c [Hin Hc]] store_z_values.
    now apply forward_body_raises with (c := c).
Qed.

End Rejection.

(** ** When the optimizer step is applied *)

Section OptimizerSteps.

Lemma input_loop_log (l : list nat) (tr : list Call) :
  fold_left
    (fun acc idx =>
       input_loop_body (fun tr => tr ++ [ZeroGrad])
                       (fun input_idx tr => tr ++ [Backprop input_idx])
                       (fun tr => tr ++ [OptimizerStep]) idx acc) l tr
  = tr ++ flat_map input_calls l.
Proof.
  revert tr. induction l as [| i rest IH]; intro tr; cbn [fold_left flat_map].
  - now rewrite app_nil_r.
  - rewrite IH. unfold input_loop_body, input_calls.
    rewrite <- !app_assoc. reflexivity.
Qed.

Lemma epoch_loop_log (num_inputs : nat) (epochs : list nat)
  (tr : list Call) :
  fold_left
    (fun acc (epoch_idx : nat) =>
       for_loop_zero_inc num_inputs
         (input_loop_body (fun tr => tr ++ [ZeroGrad])
                          (fun input_idx tr => tr ++ [Backprop input_idx])
                          (fun tr => tr ++ [OptimizerStep])) acc) epochs tr
  = tr ++ concat (map (fun _ => flat_map input_calls (seq 0 num_inputs))
                      epochs).
Proof.
  revert tr. induction epochs as [| e rest IH]; intro tr;
    cbn [fold_left map concat].
  - now rewrite app_nil_r.
  - rewrite IH. unfold for_loop_zero_inc. rewrite input_loop_log.
    now rewrite <- app_assoc.
Qed.

(** The calls of the training kernel: for every epoch and every stimulus,
    [ZeroGrad], [Backprop] of that stimulus, [OptimizerStep]. *)
Lemma training_trace_calls (epochs num_inputs : nat) :
  training_trace epochs num_inputs
  = concat (map (fun _ => flat_map input_calls (seq 0 num_inputs))
                (seq 0 epochs)).
Proof.
  unfold training_trace, training_loops, for_loop_zero_inc at 1.
  now rewrite epoch_loop_log.
Qed.

Lemma applied_gradients_inputs (l : list nat) :
  forall (accumulated : list nat) (rest : list Call),
  exists accumulated',
    applied_gradients accumulated (flat_map input_calls l ++ rest)
    = map (fun i => [i]) l ++ applied_gradients accumulated' rest.
Proof.
  induction l as [| i l' IH]; intros accumulated rest.
  - exists accumulated. reflexivity.
  - destruct (IH [i] rest) as [acc' Hacc'].
    exists acc'. cbn. now rewrite Hacc'.
Qed.

Lemma applied_gradients_epochs (num_inputs : nat) (epochs : list nat) :
  forall accumulated,
    applied_gradients accumulated
      (concat (map (fun _ => flat_map input_calls (seq 0 num_inputs)) epochs))
    = concat (map (fun _ => map (fun i => [i]) (seq 0 num_inputs)) epochs).
Proof.
  induction epochs as [| e rest IH]; intro accumulated; [reflexivity |].
  cbn [map concat].
  destruct (applied_gradients_inputs (seq 0 num_inputs) accumulated
              (concat (map (fun _ => flat_map input_calls (seq 0 num_inputs))
                           rest))) as [acc' Hacc'].
  rewrite Hacc'. now rewrite IH.
Qed.

(** Whatever the three calls do, the loops make them in the order of the
    log. *)
Lemma training_loops_follow_trace {S : Type} (zero_grad : S -> S)
  (backprop : nat -> S -> S) (optimizer_step : S -> S)
  (epochs num_inputs : nat) (s : S) :
  training_loops zero_grad backprop optimizer_step epochs num_inputs s
  = fold_left
      (fun acc c => run_call zero_grad backprop optimizer_step c acc)
      (training_trace epochs num_inputs) s.
Proof.
  rewrite training_trace_calls.
  unfold training_loops, for_loop_zero_inc.
  assert (Hinner : forall l s0,
             fold_left
               (fun acc idx =>
                  input_loop_body zero_grad backprop optimizer_step idx acc)
               l s0
             = fold_left
                 (fun acc c =>
                    run_call zero_grad backprop optimizer_step c acc)
                 (flat_map input_calls l) s0).
  { induction l as [| i l' IH]; intro s0; [reflexivity |].
    cbn [fold_left flat_map input_calls app]. now rewrite IH. }
  generalize (seq 0 epochs) as el. intro el. revert s.
  induction el as [| e rest IH]; intro s; [reflexivity |].
  cbn [fold_left map concat]. rewrite fold_left_app, IH, Hinner.
  reflexivity.
Qed.

(** C1, as the code has it.  In every epoch the loops make, for every
    stimulus in turn, the calls [ZeroGrad], [Backprop] of that stimulus and
    [OptimizerStep]: the optimizer step is applied once for every stimulus,
    each time to accumulators that hold the gradient of that one stimulus;
    in all it is applied [epochs * num_inputs] times. *)
Theorem optimizer_step_after_every_stimulus (epochs num_inputs : nat) :
  training_trace epochs num_inputs
  = concat (map (fun _ => flat_map input_calls (seq 0 num_inputs))
                (seq 0 epochs))
  /\ applied_gradients [] (training_trace epochs num_inputs)
     = concat (map (fun _ => map (fun i => [i]) (seq 0 num_inputs))
                   (seq 0 epochs))
  /\ length (applied_gradients [] (training_trace epochs num_inputs))
     = epochs * num_inputs.
Proof.
  split; [apply training_trace_calls |].
  rewrite training_trace_calls, applied_gradients_epochs. split;
    [reflexivity |].
  generalize (seq 0 epochs) (length_seq epochs 0).
  intros l Hl. rewrite <- Hl. clear Hl.
  induction l as [| e rest IH]; [reflexivity |].
  cbn [map concat length]. rewrite length_app, IH, length_map, length_seq.
  reflexivity.
Qed.

(** C1 as stated fails for one epoch over a batch of two stimuli: the
    optimizer step is applied twice, first to the gradient of stimulus 0
    alone, instead of once to the gradient accumulated over both. *)
Lemma optimizer_step_once_per_batch_fails :
  applied_gradients [] (training_trace 1 2) = [[0]; [1]]
  /\ applied_gradients [] (training_trace 1 2) <> [[0; 1]].
Proof. split; [reflexivity | discriminate]. Qed.

End OptimizerSteps.

(** ** What the parameter initializer stores for a weight matrix *)

Section InitializerEntries.
Context {F : Type} `{FloatTy F}.
Variable self : PytorchModelCreator F.
Variable debug_env : list string.

Lemma list_set_spec {A : Type} (l : list A) :
  forall (i : nat) (a : A) (l' : list A),
    list_set l i a = Ok l' ->
    nth_error l' i = Some a
    /\ (forall j, j <> i -> nth_error l' j = nth_error l j).
Proof.
  induction l as [| x rest IH]; intros i a l' Hset; [discriminate |].
  destruct i as [| i'].
  - cbn in Hset. injection Hset as <-. split; [reflexivity |].
    intros [| j] Hj; [congruence | reflexivity].
  - cbn [list_set] in Hset.
    destruct (list_set rest i' a) as [rest' |] eqn:Hrest; [| discriminate].
    cbn in Hset. injection Hset as <-.
    destruct (IH i' a rest' Hrest) as [Hat Hother].
    split; [exact Hat |].
    intros [| j] Hj; [reflexivity |]. cbn. apply Hother. congruence.
Qed.

Lemma dict_get_In {A : Type} (d : list (node * A)) (k : node) (a : A) :
  NoDup (map fst d) -> In (k, a) d -> dict_get d k = Ok a.
Proof.
  induction d as [| [k' a'] rest IH]; [easy |].
  cbn [map fst]. intros Hnd [Heq | Hin].
  - injection Heq as -> ->. cbn. now rewrite Nat.eqb_refl.
  - cbn [dict_get]. inversion Hnd as [| ? ? Hnotin Hnd']; subst.
    destruct (Nat.eqb_spec k' k) as [-> | Hne].
    + exfalso. apply Hnotin. apply in_map_iff. now exists (k, a).
    + now apply IH.
Qed.

(** The loop over the afferents writes the entry of every afferent it
    visits at that afferent's position. *)
Lemma initialize_weights_entries (n : node) (info : ForwardInfo F) :
  dict_get (component_to_forward_info self) n = Ok info ->
  NoDup (map fst (fi_afferents info)) ->
  forall (todo done : list (node * Tensor (mat F)))
         (weights weights' : list (option (ParamValue (mat F)))),
    fi_afferents info = done ++ todo ->
    initialize_weights self debug_env n todo weights = Ok weights' ->
    (forall k a w,
        nth_error todo k = Some (a, w) ->
        nth_error weights' (length done + k)
        = Some (Some (param_value debug_env w)))
    /\ (forall j,
          j < length done -> nth_error weights' j = nth_error weights j).
Proof.
  intros Hget Hnd.
  induction todo as [| [a w] rest IH]; intros done weights weights' Hall Hinit.
  - cbn in Hinit. injection Hinit as <-. split; [| reflexivity].
    intros k a w Hnth. now destruct k.
  - cbn [initialize_weights] in Hinit.
    unfold _get_afferent_node_index in Hinit. rewrite Hget in Hinit.
    cbn [bind] in Hinit.
    assert (Hpos : nth_error (fi_afferents info) (length done) = Some (a, w)).
    { rewrite Hall, nth_error_app2 by lia. now rewrite Nat.sub_diag. }
    rewrite (find_afferent_at _ _ 0 _ _ Hnd Hpos) in Hinit.
    cbn [option_map fst Nat.add] in Hinit.
    destruct (list_set weights (length done)
                (Some (param_value debug_env w))) as [weights1 |] eqn:Hset;
      [| discriminate].
    cbn [bind] in Hinit.
    destruct (list_set_spec _ _ _ _ Hset) as [Hat Hother].
    assert (Hall' : fi_afferents info = (done ++ [(a, w)]) ++ rest)
      by (now rewrite <- app_assoc).
    destruct (IH (done ++ [(a, w)]) weights1 weights' Hall' Hinit)
      as [Hlater Hearlier].
    rewrite length_app in Hlater, Hearlier. cbn [length] in Hlater, Hearlier.
    split.
    + intros [| k] a0 w0 Hnth.
      * cbn in Hnth. injection Hnth as <- <-.
        rewrite Nat.add_0_r, Hearlier by lia. exact Hat.
      * cbn in Hnth. specialize (Hlater k a0 w0 Hnth).
        now replace (length done + S k) with (length done + 1 + k) by lia.
    + intros j Hj. rewrite Hearlier by lia. apply Hother. lia.
Qed.

Lemma initialize_node_entries (n : node) (info : ForwardInfo F)
  (np : NodeParams F) :
  dict_get (component_to_forward_info self) n = Ok info ->
  NoDup (map fst (fi_afferents info)) ->
  initialize_node self debug_env n info = Ok np ->
  forall k a w,
    nth_error (fi_afferents info) k = Some (a, w) ->
    nth_error (weight_array np) k = Some (Some (param_value debug_env w)).
Proof.
  intros Hget Hnd Hnode k a w Hnth. unfold initialize_node in Hnode.
  destruct (initialize_weights self debug_env n (fi_afferents info)
              (repeat None (length (fi_afferents info))))
    as [weights |] eqn:Hw; [| discriminate].
  cbn [bind] in Hnode. injection Hnode as <-. cbn [weight_array].
  destruct (initialize_weights_entries n info Hget Hnd
              (fi_afferents info) [] _ _ eq_refl Hw) as [Hlater _].
  exact (Hlater k a w Hnth).
Qed.

(** The loop over the nodes leaves at the index of every node it visits
    the parameters made for that node. *)
Lemma initialize_params_entries :
  forall (items : list (node * ForwardInfo F))
         (param_list param_list' : list (option (NodeParams F))),
    NoDup (map (fun p => get_node_index self (fst p)) items) ->
    initialize_params self debug_env items param_list = Ok param_list' ->
    (forall n info,
        In (n, info) items ->
        exists np,
          initialize_node self debug_env n info = Ok np
          /\ nth_error param_list' (get_node_index self n) = Some (Some np))
    /\ (forall j,
          ~ In j (map (fun p => get_node_index self (fst p)) items) ->
          nth_error param_list' j = nth_error param_list j).
Proof.
  induction items as [| [n0 info0] rest IH];
    intros param_list param_list' Hnd Hinit.
  - cbn in Hinit. injection Hinit as <-. split; [easy | reflexivity].
  - cbn [initialize_params] in Hinit.
    destruct (initialize_node self debug_env n0 info0) as [np0 |] eqn:Hnode;
      [| discriminate].
    cbn [bind] in Hinit.
    destruct (list_set param_list (get_node_index self n0) (Some np0))
      as [param_list1 |] eqn:Hset; [| discriminate].
    cbn [bind] in Hinit.
    cbn [map fst] in Hnd. inversion Hnd as [| ? ? Hnotin Hnd']; subst.
    destruct (IH param_list1 param_list' Hnd' Hinit) as [Hin Hout].
    destruct (list_set_spec _ _ _ _ Hset) as [Hat Hother].
    split.
    + intros n info [Heq | Hrest].
      * injection Heq as <- <-. exists np0. split; [exact Hnode |].
        rewrite Hout by exact Hnotin. exact Hat.
      * now apply Hin.
    + intros j Hj. cbn [map fst In] in Hj.
      rewrite Hout by tauto. apply Hother. intro Heq. apply Hj. now left.
Qed.

(** C3, as the code has it.  With a fresh cache, the entry the parameter
    initializer holds for a weight tensor is the address of the tensor's
    buffer unless ["no_ref_pass"] is among the debug flags, and the values
    of the tensor when it is. *)
Theorem param_initializer_weight_entries
  (param_list cached : list (option (NodeParams F))) :
  NoDup (map fst (component_to_forward_info self)) ->
  NoDup (map (fun p => get_node_index self (fst p))
             (component_to_forward_info self)) ->
  (forall n info,
      In (n, info) (component_to_forward_info self) ->
      NoDup (map fst (fi_afferents info))) ->
  _get_param_initializer self debug_env None = Ok (param_list, cached) ->
  forall n info k a w,
    In (n, info) (component_to_forward_info self) ->
    nth_error (fi_afferents info) k = Some (a, w) ->
    exists np,
      nth_error param_list (get_node_index self n) = Some (Some np)
      /\ nth_error (weight_array np) k
         = Some (Some (if in_debug_env "no_ref_pass" debug_env
                       then Tuple (numpy w)
                       else Address (data_ptr w))).
Proof.
  intros Hkeys Hidx Haff Hinit n info k a w Hin Hnth.
  unfold _get_param_initializer in Hinit.
  destruct (initialize_params self debug_env (component_to_forward_info self)
              (repeat None (composition_nodes self)))
    as [raw |] eqn:Hraw; [| discriminate].
  cbn [bind] in Hinit.
  assert (Hret : param_list = _tupleize raw).
  { destruct (negb (in_debug_env "no_ref_pass" debug_env));
      injection Hinit as <- _; reflexivity. }
  subst param_list.
  destruct (initialize_params_entries _ _ _ Hidx Hraw) as [Hall _].
  destruct (Hall n info Hin) as [np [Hnode Hat]].
  pose proof (initialize_node_entries n info np
                (dict_get_In _ _ _ Hkeys Hin) (Haff n info Hin) Hnode
                k a w Hnth) as Hentry.
  eexists. split.
  - unfold _tupleize. rewrite nth_error_map, Hat. reflexivity.
  - cbn [weight_array]. rewrite nth_error_map, Hentry. cbn [option_map].
    unfold param_value.
    now destruct (in_debug_env "no_ref_pass" debug_env).
Qed.

End InitializerEntries.

(** C3 as stated fails on the pair [0 -> 1] in the default configuration
    (no debug flag set): the entry for the weight matrix of the edge is
    the address of the host tensor, not a copy of its values. *)
Lemma default_configuration_stores_addresses :
  exists param_list cached np,
    _get_param_initializer Examples.biased_pair [] None
    = Ok (param_list, cached)
    /\ nth_error param_list 1 = Some (Some np)
    /\ nth_error (weight_array np) 0 = Some (Some (Address 10))
    /\ nth_error (weight_array np) 0 <> Some (Some (Tuple [[1%Z]])).
Proof.
  eexists; eexists; eexists.
  split; [reflexivity |]. split; [reflexivity |].
  split; [reflexivity | discriminate].
Qed.

(** ** The accessors return copies *)

Section AccessorCopies.
Variable ndarray : Type.

Lemma heap_write_other (h : heap ndarray) :
  forall (a p : nat) (x : ndarray),
    p <> a -> nth_error (heap_write h a x) p = nth_error h p.
Proof.
  induction h as [| y rest IH]; intros a p x Hne; [reflexivity |].
  destruct a as [| a']; destruct p as [| p']; cbn; try reflexivity;
    try congruence.
  apply IH. congruence.
Qed.

Lemma dict_set_In {A : Type} (d : list (node * A)) (k k' : node) (a a' : A) :
  In (k', a') (dict_set d k a) -> (k', a') = (k, a) \/ In (k', a') d.
Proof.
  induction d as [| [k0 a0] rest IH]; cbn [dict_set].
  - intros [Heq | []]. left. now symmetry.
  - destruct (Nat.eqb_spec k0 k) as [-> | Hne].
    + intros [Heq | Hin]; [left; now symmetry | right; now right].
    + intros [Heq | Hin]; [right; now left |].
      destruct (IH Hin) as [Hnew | Hold]; [now left | right; now right].
Qed.

(** The copying loop only appends buffers to the heap, and every array it
    returns is one of the appended buffers. *)
Lemma copy_all_fresh (items : list (nat * nat)) :
  forall (h h' : heap ndarray) (out out' : list (nat * nat)),
    copy_all items h out = Ok (h', out') ->
    length h <= length h'
    /\ (forall p, p < length h -> nth_error h' p = nth_error h p)
    /\ (forall k c, In (k, c) out' -> In (k, c) out \/ length h <= c).
Proof.
  induction items as [| [key tensor] rest IH]; intros h h' out out' Hcopy.
  - cbn in Hcopy. injection Hcopy as <- <-.
    split; [lia | split; [reflexivity | now left]].
  - cbn [copy_all] in Hcopy. unfold np_copy in Hcopy.
    destruct (nth_error h tensor) as [x |]; [| discriminate].
    cbn [bind] in Hcopy.
    destruct (IH _ _ _ _ Hcopy) as (Hlen & Hsame & Hout).
    rewrite length_app in Hlen, Hsame, Hout. cbn [length] in Hlen, Hsame, Hout.
    split; [lia |]. split.
    + intros p Hp. rewrite Hsame by lia. now apply nth_error_app1.
    + intros k c Hin. destruct (Hout k c Hin) as [Hset | Hnew]; [| right; lia].
      destruct (dict_set_In _ _ _ _ _ Hset) as [Heq | Hold]; [| now left].
      injection Heq as _ ->. now right.
Qed.

(** C10.  When every tensor of the model has its buffer in the heap, an
    array returned by [get_weights_for_projections] or by
    [get_biases_for_mechanisms] is a new buffer: writing into it leaves the
    buffer of every weight and bias tensor of the model as it was before
    the call. *)
Theorem accessors_return_independent_copies
  (projections_to_pytorch_weights mechanisms_to_pytorch_biases
     : list (nat * nat))
  (h h' : heap ndarray) (out : list (nat * nat)) (key copy : nat)
  (x : ndarray) :
  (forall k p,
      In (k, p) (projections_to_pytorch_weights
                 ++ mechanisms_to_pytorch_biases) ->
      p < length h) ->
  get_weights_for_projections projections_to_pytorch_weights h = Ok (h', out)
  \/ get_biases_for_mechanisms mechanisms_to_pytorch_biases h
     = Ok (h', out) ->
  In (key, copy) out ->
  forall k p,
    In (k, p) (projections_to_pytorch_weights
               ++ mechanisms_to_pytorch_biases) ->
    nth_error (heap_write h' copy x) p = nth_error h p.
Proof.
  intros Hvalid Hcall Hin k p Hparam.
  assert (Hcopy : exists items, copy_all items h [] = Ok (h', out))
    by (destruct Hcall as [Hw | Hb]; eexists; eassumption).
  destruct Hcopy as [items Hcopy].
  destruct (copy_all_fresh _ _ _ _ _ Hcopy) as (_ & Hsame & Hout).
  specialize (Hvalid k p Hparam).
  destruct (Hout key copy Hin) as [[] | Hfresh].
  rewrite heap_write_other by lia. now apply Hsame.
Qed.

End AccessorCopies.

(** ** The interpreted forward computation *)

Section ForwardProperties.
Context {F : Type} `{FloatTy F}.
Variable input_state_len : node -> nat.
Variable inputs : list (node * vec F).

Lemma dict_get_set_same {A : Type} (d : list (node * A)) (k : node) (a : A) :
  dict_get (dict_set d k a) k = Ok a.
Proof.
  induction d as [| [k' a'] rest IH]; cbn.
  - now rewrite Nat.eqb_refl.
  - destruct (Nat.eqb k' k) eqn:Hk; cbn; rewrite Hk; [reflexivity | exact IH].
Qed.

Lemma dict_get_set_other {A : Type} (d : list (node * A)) (k k' : node)
  (a : A) :
  k <> k' -> dict_get (dict_set d k a) k' = dict_get d k'.
Proof.
  intro Hne. induction d as [| [k0 a0] rest IH]; cbn.
  - destruct (Nat.eqb_spec k k'); [contradiction | reflexivity].
  - destruct (Nat.eqb_spec k0 k) as [-> | Hk]; cbn.
    + destruct (Nat.eqb_spec k k'); [contradiction | reflexivity].
    + destruct (Nat.eqb k0 k'); [reflexivity | exact IH].
Qed.

Lemma nodupb_NoDup (l : list node) : nodupb l = true -> NoDup l.
Proof.
  induction l as [| x rest IH]; cbn; [constructor |].
  intro Hb. apply andb_prop in Hb. destruct Hb as [Hx Hrest].
  constructor; [| now apply IH].
  intro Hin. apply node_mem_In in Hin. now rewrite Hin in Hx.
Qed.

Lemma sim_refl (s : list (node * ForwardInfo F)) : sim s s.
Proof. intro k. destruct (dict_get s k); [repeat split | exact I]. Qed.

Lemma sim_set (s0 s : list (node * ForwardInfo F)) (c : node)
  (info : ForwardInfo F) (v : vec F) :
  sim s0 s -> dict_get s c = Ok info ->
  sim s0 (dict_set s c (set_value info v)).
Proof.
  intros Hsim Hget k. specialize (Hsim k).
  destruct (Nat.eq_dec c k) as [<- | Hne].
  - rewrite dict_get_set_same. rewrite Hget in Hsim.
    destruct (dict_get s0 c); [| exact Hsim].
    destruct Hsim as (Hb & Hf & Ha). repeat split; cbn; assumption.
  - now rewrite dict_get_set_other.
Qed.

(** The weighted sum only depends on the values of the senders. *)
Lemma spec_weighted_sum_local (s s' : list (node * ForwardInfo F))
  (afferents : list (node * Tensor (mat F))) :
  (forall a w, In (a, w) afferents -> dict_get s' a = dict_get s a) ->
  forall value,
    spec_weighted_sum s' afferents value = spec_weighted_sum s afferents value.
Proof.
  induction afferents as [| [a w] rest IH]; intros Hsame value;
    [reflexivity |].
  cbn [spec_weighted_sum]. rewrite (Hsame a w) by now left.
  destruct (dict_get s a); [| reflexivity]. cbn [bind].
  apply IH. intros a' w' Hin. apply (Hsame a' w'). now right.
Qed.

(** Without a sender in the current execution set, the loop over the
    afferents reads every value from the store. *)
Lemma sum_afferents_spec (s : list (node * ForwardInfo F))
  (current_exec_set : list node) (frozen_values : list (node * vec F))
  (afferents : list (node * Tensor (mat F))) :
  (forall a w, In (a, w) afferents -> node_mem a current_exec_set = false) ->
  forall value,
    sum_afferents s current_exec_set frozen_values afferents value
    = spec_weighted_sum s afferents value.
Proof.
  induction afferents as [| [a w] rest IH]; intros Hout value;
    [reflexivity |].
  cbn [sum_afferents spec_weighted_sum]. rewrite (Hout a w) by now left.
  destruct (dict_get s a) as [info |]; [| reflexivity]. cbn [bind].
  apply IH. intros a' w' Hin. apply (Hout a' w'). now right.
Qed.

Lemma component_value_spec (s : list (node * ForwardInfo F)) (i : nat)
  (current_exec_set : list node) (frozen_values : list (node * vec F))
  (c : node) (info : ForwardInfo F) :
  (i = 0 \/
   forall a w, In (a, w) (fi_afferents info) ->
               node_mem a current_exec_set = false) ->
  component_value input_state_len inputs s i current_exec_set frozen_values
                  c info
  = spec_node_value input_state_len inputs s i c info.
Proof.
  intro Hout. unfold component_value, spec_node_value.
  destruct (Nat.eqb_spec i 0) as [Hi | Hi]; [reflexivity |].
  destruct Hout as [Hi' | Hout]; [contradiction |].
  now rewrite sum_afferents_spec.
Qed.

Lemma spec_node_value_local (s s' : list (node * ForwardInfo F)) (i : nat)
  (c : node) (info info' : ForwardInfo F) :
  struct_eq info info' ->
  (i = 0 \/
   forall a w, In (a, w) (fi_afferents info) ->
               dict_get s' a = dict_get s a) ->
  spec_node_value input_state_len inputs s' i c info'
  = spec_node_value input_state_len inputs s i c info.
Proof.
  intros (Hb & Hf & Ha) Hsame. unfold spec_node_value.
  rewrite <- Hb, <- Hf, <- Ha.
  destruct (Nat.eqb_spec i 0) as [Hi | Hi]; [reflexivity |].
  destruct Hsame as [Hi' | Hsame]; [contradiction |].
  now rewrite (spec_weighted_sum_local s s').
Qed.

Lemma propagated_weaken (seen seen' : node -> Prop)
  (done done' : node -> nat -> Prop) (s : list (node * ForwardInfo F)) :
  (forall x, seen x -> seen' x) ->
  (forall c i, done' c i -> done c i) ->
  propagated input_state_len inputs seen done s ->
  propagated input_state_len inputs seen' done' s.
Proof.
  intros Hseen Hdone Hp c i Hd.
  destruct (Hp c i (Hdone c i Hd)) as (Hc & info & Hget & Haff & Hval).
  split; [now apply Hseen |]. exists info. split; [exact Hget |].
  split; [| exact Hval].
  destruct Haff as [Hi | Haff]; [now left | right].
  intros a w Hin. apply Hseen. now apply (Haff a w).
Qed.

(** Computing a node that has not been seen keeps what holds of the
    computed nodes and adds the node to them. *)
Lemma propagated_step (seen : node -> Prop) (done : node -> nat -> Prop)
  (s : list (node * ForwardInfo F)) (i : nat) (c : node)
  (info : ForwardInfo F) (v : vec F) :
  propagated input_state_len inputs seen done s ->
  ~ seen c ->
  dict_get s c = Ok info ->
  (i = 0 \/ forall a w, In (a, w) (fi_afferents info) -> seen a) ->
  spec_node_value input_state_len inputs s i c info = Ok v ->
  propagated input_state_len inputs (fun x => seen x \/ x = c)
             (fun x j => done x j \/ (x = c /\ j = i))
             (dict_set s c (set_value info v)).
Proof.
  intros Hp Hnew Hget Haff Hval x j [Hd | [-> ->]].
  - destruct (Hp x j Hd) as (Hx & info0 & Hget0 & Haff0 & Hval0).
    assert (Hne : c <> x) by (intro Heq; subst; contradiction).
    split; [now left |]. exists info0.
    split; [now rewrite dict_get_set_other |].
    split.
    + destruct Haff0 as [Hj | Haff0]; [now left | right].
      intros a w Hin. left. now apply (Haff0 a w).
    + rewrite <- Hval0. apply spec_node_value_local; [repeat split |].
      destruct Haff0 as [Hj | Haff0]; [now left | right].
      intros a w Hin. apply dict_get_set_other.
      intro Heq. subst a. apply Hnew. now apply (Haff0 c w).
  - split; [now right |]. exists (set_value info v).
    split; [apply dict_get_set_same |].
    split.
    + destruct Haff as [Hi | Haff]; [now left | right].
      intros a w Hin. left. now apply (Haff a w).
    + cbn [fi_value set_value]. rewrite <- Hval.
      apply spec_node_value_local; [repeat split |].
      destruct Haff as [Hi | Haff]; [now left | right].
      intros a w Hin. apply dict_get_set_other.
      intro Heq. subst a. apply Hnew. now apply (Haff c w).
Qed.


Lemma valid_from_cons (infos0 : list (node * ForwardInfo F))
  (earlier : list node) (i : nat) (current_exec_set : list node)
  (rest : list (list node)) :
  valid_from infos0 earlier i (current_exec_set :: rest) = true ->
  (forall c,
      In c current_exec_set ->
      ~ In c earlier
      /\ exists info0,
           dict_get infos0 c = Ok info0
           /\ (i = 0 \/
               forall a w, In (a, w) (fi_afferents info0) -> In a earlier))
  /\ NoDup current_exec_set
  /\ valid_from infos0 (earlier ++ current_exec_set) (S i) rest = true.
Proof.
  cbn [valid_from]. intro Hv.
  apply andb_prop in Hv. destruct Hv as [Hv Hrest].
  apply andb_prop in Hv. destruct Hv as [Hall Hnd].
  split; [| split; [now apply nodupb_NoDup | exact Hrest]].
  intros c Hin. rewrite forallb_forall in Hall. specialize (Hall c Hin).
  apply andb_prop in Hall. destruct Hall as [Hnew Hinfo].
  split.
  - intro Hearlier. apply node_mem_In in Hearlier.
    now rewrite Hearlier in Hnew.
  - destruct (dict_get infos0 c) as [info0 |]; [| discriminate].
    exists info0. split; [reflexivity |].
    apply orb_prop in Hinfo. destruct Hinfo as [Hi | Haff].
    + left. now apply Nat.eqb_eq.
    + right. intros a w Hin'. rewrite forallb_forall in Haff.
      apply node_mem_In. exact (Haff (a, w) Hin').
Qed.

Section OneSet.
Variable infos0 : list (node * ForwardInfo F).
Variable earlier : list node.
Variable i : nat.
Variable current_exec_set : list node.
Variable frozen_values : list (node * vec F).
Variable do_logging last : bool.

Hypothesis earlier_outside :
  forall a, In a earlier -> node_mem a current_exec_set = false.

(** The loop over the components of one execution set. *)
Lemma forward_components_propagated (todo : list node) :
  forall (before : list node) (done : node -> nat -> Prop)
         (st st' : ForwardState F),
    NoDup todo ->
    (forall c,
        In c todo ->
        ~ In c earlier /\ ~ In c before
        /\ exists info0,
             dict_get infos0 c = Ok info0
             /\ (i = 0 \/
                 forall a w, In (a, w) (fi_afferents info0) -> In a earlier)) ->
    sim infos0 (infos st) ->
    propagated input_state_len inputs
               (fun x => In x earlier \/ In x before) done (infos st) ->
    forward_components input_state_len inputs do_logging i last
      current_exec_set frozen_values todo st = Ok st' ->
    sim infos0 (infos st')
    /\ propagated input_state_len inputs
                  (fun x => In x earlier \/ In x before \/ In x todo)
                  (fun x j => done x j \/ (In x todo /\ j = i))
                  (infos st').
Proof.
  induction todo as [| c rest IH]; intros before done st st' Hnd Htodo Hsim
    Hp Hrun.
  - cbn in Hrun. injection Hrun as <-. split; [exact Hsim |].
    refine (propagated_weaken _ _ _ _ _ _ _ Hp).
    + intros x [Hx | Hx]; [now left | right; now left].
    + intros x j [Hd | [[] _]]. exact Hd.
  - cbn [forward_components] in Hrun.
    destruct (dict_get (infos st) c) as [info |] eqn:Hget; [| discriminate].
    cbn [bind] in Hrun.
    destruct (Htodo c (or_introl eq_refl))
      as (Hnew1 & Hnew2 & info0 & Hget0 & Haff0).
    assert (Hstruct : struct_eq info0 info).
    { specialize (Hsim c). now rewrite Hget0, Hget in Hsim. }
    assert (Haff : i = 0 \/
                   forall a w, In (a, w) (fi_afferents info) -> In a earlier).
    { destruct Hstruct as (_ & _ & <-). exact Haff0. }
    rewrite component_value_spec in Hrun.
    2:{ destruct Haff as [Hi | Haff]; [now left | right].
        intros a w Hin. apply earlier_outside. now apply (Haff a w). }
    destruct (spec_node_value input_state_len inputs (infos st) i c info)
      as [v |] eqn:Hval; [| discriminate].
    cbn [bind] in Hrun.
    inversion Hnd as [| ? ? Hnotin Hnd']; subst.
    set (st1 := {| infos := dict_set (infos st) c (set_value info v);
                   outputs := if last then dict_set (outputs st) c v
                              else outputs st;
                   logged := if do_logging then logged st ++ [(c, v)]
                             else logged st |}) in Hrun.
    assert (Hp1 : propagated input_state_len inputs
                             (fun x => In x earlier \/ In x (before ++ [c]))
                             (fun x j => done x j \/ (x = c /\ j = i))
                             (infos st1)).
    { cbn [infos st1].
      apply (propagated_weaken (fun x => (In x earlier \/ In x before)
                                         \/ x = c)
               _ (fun x j => done x j \/ (x = c /\ j = i)) _).
      - intros x [[Hx | Hx] | ->]; [now left | right | right];
          apply in_or_app; [now left | right; now left].
      - trivial.
      - apply propagated_step; try assumption.
        + intros [Hx | Hx]; contradiction.
        + destruct Haff as [Hi | Haff]; [now left | right].
          intros a w Hin. left. now apply (Haff a w). }
    destruct (IH (before ++ [c]) (fun x j => done x j \/ (x = c /\ j = i))
                st1 st' Hnd') as [Hsim' Hp'];
      try assumption.
    + intros c' Hin'.
      destruct (Htodo c' (or_intror Hin')) as (Ha & Hb & Hc).
      split; [exact Ha |]. split; [| exact Hc].
      intro Hin''. apply in_app_or in Hin''.
      destruct Hin'' as [Hin'' | [-> | []]]; contradiction.
    + cbn [infos st1]. now apply sim_set.
    + split; [exact Hsim' |].
      refine (propagated_weaken _ _ _ _ _ _ _ Hp');
        [intros x Hx | intros x j Hd].
      * destruct Hx as [Hx | [Hx | Hx]]; [now left | | right; right; now right].
        apply in_app_or in Hx.
        destruct Hx as [Hx | [<- | []]];
          [right; now left | right; right; now left].
      * destruct Hd as [Hd | [[<- | Hin'] ->]].
        -- left. now left.
        -- left. right. now split.
        -- right. now split.
Qed.

End OneSet.


(** The loop over the execution sets. *)
Lemma forward_loop_propagated (infos0 : list (node * ForwardInfo F))
  (do_logging : bool) (total : nat) (sets : list (list node)) :
  forall (i : nat) (earlier : list node) (done : node -> nat -> Prop)
         (st st' : ForwardState F),
    valid_from infos0 earlier i sets = true ->
    sim infos0 (infos st) ->
    propagated input_state_len inputs (fun x => In x earlier) done (infos st) ->
    forward_loop input_state_len inputs do_logging total i sets st = Ok st' ->
    sim infos0 (infos st')
    /\ propagated input_state_len inputs
                  (fun x => In x (earlier ++ concat sets))
                  (fun c j =>
                     done c j
                     \/ exists k set,
                          nth_error sets k = Some set /\ In c set
                          /\ j = i + k)
                  (infos st').
Proof.
  induction sets as [| current_exec_set rest IH];
    intros i earlier done st st' Hvalid Hsim Hp Hrun.
  - cbn in Hrun. injection Hrun as <-. split; [exact Hsim |].
    refine (propagated_weaken _ _ _ _ _ _ _ Hp).
    + intros x Hx. apply in_or_app. now left.
    + intros c j [Hd | [k [set [Hnth _]]]]; [exact Hd | now destruct k].
  - apply valid_from_cons in Hvalid.
    destruct Hvalid as (Hset & Hnd & Hrest).
    cbn [forward_loop] in Hrun.
    destruct (freeze (infos st) current_exec_set []) as [frozen_values |];
      [| discriminate].
    cbn [bind] in Hrun.
    destruct (forward_components input_state_len inputs do_logging i
                (Nat.eqb i (total - 1)) current_exec_set frozen_values
                current_exec_set st) as [st1 |] eqn:Hcomp; [| discriminate].
    cbn [bind] in Hrun.
    assert (Houtside : forall a, In a earlier ->
                                 node_mem a current_exec_set = false).
    { intros a Ha. destruct (node_mem a current_exec_set) eqn:Hmem;
        [| reflexivity].
      apply node_mem_In in Hmem. destruct (Hset a Hmem) as [Hnot _].
      contradiction. }
    destruct (forward_components_propagated infos0 earlier i
                current_exec_set frozen_values do_logging
                (Nat.eqb i (total - 1)) Houtside current_exec_set [] done
                st st1 Hnd) as [Hsim1 Hp1]; try assumption.
    { intros c Hc. destruct (Hset c Hc) as [Hnot Hinfo].
      split; [exact Hnot |]. split; [easy | exact Hinfo]. }
    { refine (propagated_weaken _ _ _ _ _ _ _ Hp); [| trivial].
      intros x Hx. now left. }
    destruct (IH (S i) (earlier ++ current_exec_set)
                (fun x j => done x j \/ (In x current_exec_set /\ j = i))
                st1 st' Hrest Hsim1) as [Hsim' Hp']; try assumption.
    { refine (propagated_weaken _ _ _ _ _ _ _ Hp1); [| trivial].
      intros x [Hx | [[] | Hx]]; apply in_or_app; [now left | now right]. }
    split; [exact Hsim' |].
    refine (propagated_weaken _ _ _ _ _ _ _ Hp').
    + intros x Hx. cbn [concat]. now rewrite app_assoc.
    + intros c j [Hd | [k [set [Hnth [Hin ->]]]]]; [left; now left |].
      destruct k as [| k'].
      * cbn in Hnth. injection Hnth as <-. left. right.
        split; [exact Hin | lia].
      * cbn in Hnth. right. exists k', set.
        split; [exact Hnth |]. split; [exact Hin | lia].
Qed.

(** The values [forward] leaves in the model.  When the execution sets
    are a valid schedule of the graph (every node in exactly one set, every
    sender in an earlier set than its receiver), then after [forward]
    returns the forward information holds,
    for every node of every execution set, the value of one propagation of
    the inputs: the node's function applied to its input in the first set,
    and applied to the weighted sum of the stored values of its senders
    plus its bias in the other sets. *)
Lemma forward_values_reflect_one_propagation
  (execution_sets : list (list node))
  (projections_to_pytorch_weights : list (nat * Tensor (mat F)))
  (do_logging scheduler : bool)
  (component_to_forward_info infos' : list (node * ForwardInfo F))
  (host host' : Host F) (outs : list (node * vec F)) :
  valid_schedule execution_sets component_to_forward_info = true ->
  forward input_state_len execution_sets projections_to_pytorch_weights
          inputs do_logging scheduler component_to_forward_info host
  = Ok (outs, infos', host') ->
  forall i current_exec_set c,
    nth_error execution_sets i = Some current_exec_set ->
    In c current_exec_set ->
    exists info,
      dict_get infos' c = Ok info
      /\ spec_node_value input_state_len inputs infos' i c info
         = Ok (fi_value info).
Proof.
  intros Hvalid Hfwd i current_exec_set c Hnth Hin. unfold forward in Hfwd.
  destruct (forward_loop input_state_len inputs do_logging
              (length execution_sets) 0 execution_sets
              {| infos := component_to_forward_info; outputs := [];
                 logged := [] |}) as [st |] eqn:Hloop; [| discriminate].
  cbn [bind] in Hfwd. injection Hfwd as _ <- _.
  destruct (forward_loop_propagated component_to_forward_info do_logging
              (length execution_sets) execution_sets 0 []
              (fun _ _ => False)
              {| infos := component_to_forward_info; outputs := [];
                 logged := [] |} st Hvalid
              (sim_refl component_to_forward_info)) as [_ Hp];
    [| exact Hloop |].
  { intros x j []. }
  destruct (Hp c i) as (_ & info & Hget & _ & Hval).
  { right. exists i, current_exec_set. now repeat split. }
  exists info. now split.
Qed.


(** *** Two calls in succession *)

Lemma forward_info_eq (a b : ForwardInfo F) :
  struct_eq a b -> fi_value a = fi_value b -> a = b.
Proof.
  destruct a, b. unfold struct_eq. cbn. intros (Hb & Hf & Ha) Hv.
  now subst.
Qed.

Lemma dict_get_raise {A : Type} (d : list (node * A)) (k : node)
  (msg : string) :
  dict_get d k = Raise msg -> msg = "KeyError"%string.
Proof.
  induction d as [| [k' a] rest IH]; cbn.
  - intro Heq. now injection Heq as <-.
  - destruct (Nat.eqb k' k); [discriminate | exact IH].
Qed.

Lemma agree_dict_get (P : node -> Prop) (s1 s2 : list (node * ForwardInfo F))
  (k : node) :
  agree P s1 s2 -> P k -> dict_get s2 k = dict_get s1 k.
Proof.
  intros Hag Hk. specialize (Hag k).
  destruct (dict_get s1 k) as [a | m1] eqn:H1,
           (dict_get s2 k) as [b | m2] eqn:H2; try contradiction.
  - destruct Hag as [Hs Hv]. f_equal. symmetry.
    now apply forward_info_eq; [| apply Hv].
  - apply dict_get_raise in H1, H2. now subst.
Qed.

Lemma agree_set (P : node -> Prop) (s1 s2 : list (node * ForwardInfo F))
  (c : node) (info1 info2 : ForwardInfo F) (v : vec F) :
  agree P s1 s2 ->
  dict_get s1 c = Ok info1 -> dict_get s2 c = Ok info2 ->
  agree (fun x => P x \/ x = c)
        (dict_set s1 c (set_value info1 v))
        (dict_set s2 c (set_value info2 v)).
Proof.
  intros Hag H1 H2 k. pose proof (Hag k) as Hk.
  destruct (Nat.eq_dec c k) as [<- | Hne].
  - rewrite !dict_get_set_same. rewrite H1, H2 in Hk.
    destruct Hk as [(Hb & Hf & Ha) _]. now repeat split.
  - rewrite !dict_get_set_other by exact Hne.
    destruct (dict_get s1 k), (dict_get s2 k); try exact Hk.
    destruct Hk as [Hs Hv]. split; [exact Hs |].
    intros [Hp | ->]; [now apply Hv | contradiction].
Qed.

Lemma agree_weaken (P P' : node -> Prop)
  (s1 s2 : list (node * ForwardInfo F)) :
  (forall x, P' x -> P x) -> agree P s1 s2 -> agree P' s1 s2.
Proof.
  intros Himp Hag k. specialize (Hag k).
  destruct (dict_get s1 k), (dict_get s2 k); try exact Hag.
  destruct Hag as [Hs Hv]. split; [exact Hs |].
  intro Hk. apply Hv. now apply Himp.
Qed.

Lemma freeze_ok (s : list (node * ForwardInfo F)) (set : list node) :
  (forall c, In c set -> exists info, dict_get s c = Ok info) ->
  forall acc, exists frozen_values, freeze s set acc = Ok frozen_values.
Proof.
  induction set as [| c rest IH]; intros Hall acc.
  - now exists acc.
  - cbn [freeze]. destruct (Hall c (or_introl eq_refl)) as [info ->].
    cbn [bind]. apply IH. intros c' Hc'. apply Hall. now right.
Qed.

Section OneSetTwice.
Variable infos0 : list (node * ForwardInfo F).
Variable earlier : list node.
Variable i : nat.
Variable current_exec_set : list node.
Variable frozen1 frozen2 : list (node * vec F).
Variable do_logging last : bool.

Hypothesis earlier_outside :
  forall a, In a earlier -> node_mem a current_exec_set = false.

(** The loop over the components of one execution set, run on two stores
    that agree on the earlier sets. *)
Lemma forward_components_agree (todo : list node) :
  forall (before : list node) (st1 st2 st1' : ForwardState F),
    (forall c,
        In c todo ->
        exists info0,
          dict_get infos0 c = Ok info0
          /\ (i = 0 \/
              forall a w, In (a, w) (fi_afferents info0) -> In a earlier)) ->
    sim infos0 (infos st1) ->
    agree (fun x => In x earlier \/ In x before) (infos st1) (infos st2) ->
    outputs st1 = outputs st2 ->
    forward_components input_state_len inputs do_logging i last
      current_exec_set frozen1 todo st1 = Ok st1' ->
    exists st2',
      forward_components input_state_len inputs do_logging i last
        current_exec_set frozen2 todo st2 = Ok st2'
      /\ sim infos0 (infos st1')
      /\ agree (fun x => In x earlier \/ In x before \/ In x todo)
               (infos st1') (infos st2')
      /\ outputs st1' = outputs st2'.
Proof.
  induction todo as [| c rest IH];
    intros before st1 st2 st1' Htodo Hsim Hag Hout Hrun.
  - cbn in Hrun. injection Hrun as <-. exists st2.
    split; [reflexivity |]. split; [exact Hsim |]. split; [| exact Hout].
    refine (agree_weaken _ _ _ _ _ Hag). intros x [Hx | [Hx | []]]; auto.
  - cbn [forward_components] in Hrun |- *.
    destruct (dict_get (infos st1) c) as [info1 |] eqn:Hget1;
      [| discriminate].
    cbn [bind] in Hrun.
    destruct (Htodo c (or_introl eq_refl)) as (info0 & Hget0 & Haff0).
    assert (Hstruct : struct_eq info0 info1).
    { specialize (Hsim c). now rewrite Hget0, Hget1 in Hsim. }
    pose proof (Hag c) as Hc. rewrite Hget1 in Hc.
    destruct (dict_get (infos st2) c) as [info2 |] eqn:Hget2;
      [| contradiction].
    destruct Hc as [Hstruct12 _]. cbn [bind].
    assert (Haff1 : i = 0 \/
                    forall a w, In (a, w) (fi_afferents info1) ->
                                In a earlier).
    { destruct Hstruct as (_ & _ & <-). exact Haff0. }
    assert (Haff2 : i = 0 \/
                    forall a w, In (a, w) (fi_afferents info2) ->
                                In a earlier).
    { destruct Hstruct12 as (_ & _ & <-). exact Haff1. }
    rewrite component_value_spec in Hrun.
    2:{ destruct Haff1 as [Hi | Haff1]; [now left | right].
        intros a w Hin. apply earlier_outside. now apply (Haff1 a w). }
    rewrite component_value_spec.
    2:{ destruct Haff2 as [Hi | Haff2]; [now left | right].
        intros a w Hin. apply earlier_outside. now apply (Haff2 a w). }
    rewrite (spec_node_value_local (infos st1) (infos st2) i c info1 info2
               Hstruct12).
    2:{ destruct Haff1 as [Hi | Haff1]; [now left | right].
        intros a w Hin.
        apply (agree_dict_get _ _ _ a Hag). left. now apply (Haff1 a w). }
    destruct (spec_node_value input_state_len inputs (infos st1) i c info1)
      as [v |] eqn:Hval; [| discriminate].
    cbn [bind] in Hrun |- *.
    match type of Hrun with
    | forward_components _ _ _ _ _ _ _ _ ?s = _ => set (st1n := s) in Hrun
    end.
    set (st2n := {| infos := dict_set (infos st2) c (set_value info2 v);
                    outputs := if last then dict_set (outputs st2) c v
                               else outputs st2;
                    logged := if do_logging then logged st2 ++ [(c, v)]
                              else logged st2 |}).
    assert (Hsim1 : sim infos0 (infos st1n))
      by (cbn [infos st1n]; now apply sim_set).
    assert (Hag1 : agree (fun x => In x earlier \/ In x (before ++ [c]))
                         (infos st1n) (infos st2n)).
    { cbn [infos st1n st2n].
      refine (agree_weaken _ _ _ _ _
                (agree_set _ _ _ c info1 info2 v Hag Hget1 Hget2)).
      intros x [Hx | Hx]; [left; now left |].
      apply in_app_or in Hx.
      destruct Hx as [Hx | [<- | []]]; [left; now right | now right]. }
    assert (Hout1 : outputs st1n = outputs st2n)
      by (cbn [outputs st1n st2n]; now rewrite Hout).
    destruct (IH (before ++ [c]) st1n st2n st1'
                (fun c' Hc' => Htodo c' (or_intror Hc')) Hsim1 Hag1 Hout1
                Hrun) as (st2' & Hrun2 & Hsim' & Hag' & Hout').
    exists st2'. split; [exact Hrun2 |]. split; [exact Hsim' |].
    split; [| exact Hout'].
    refine (agree_weaken _ _ _ _ _ Hag').
    intros x [Hx | [Hx | [<- | Hx]]];
      [now left | right; left | right; left | right; now right];
      apply in_or_app; [now left | right; now left].
Qed.

End OneSetTwice.

(** The loop over the execution sets, run on two stores that agree on the
    sets already computed. *)
Lemma forward_loop_agree (infos0 : list (node * ForwardInfo F))
  (do_logging : bool) (total : nat) (sets : list (list node)) :
  forall (i : nat) (earlier : list node) (st1 st2 st1' : ForwardState F),
    valid_from infos0 earlier i sets = true ->
    sim infos0 (infos st1) ->
    agree (fun x => In x earlier) (infos st1) (infos st2) ->
    outputs st1 = outputs st2 ->
    forward_loop input_state_len inputs do_logging total i sets st1
    = Ok st1' ->
    exists st2',
      forward_loop input_state_len inputs do_logging total i sets st2
      = Ok st2'
      /\ sim infos0 (infos st1')
      /\ agree (fun x => In x (earlier ++ concat sets))
               (infos st1') (infos st2')
      /\ outputs st1' = outputs st2'.
Proof.
  induction sets as [| current_exec_set rest IH];
    intros i earlier st1 st2 st1' Hvalid Hsim Hag Hout Hrun.
  - cbn in Hrun. injection Hrun as <-. exists st2.
    split; [reflexivity |]. split; [exact Hsim |]. split; [| exact Hout].
    refine (agree_weaken _ _ _ _ _ Hag).
    intros x Hx. cbn in Hx. now rewrite app_nil_r in Hx.
  - apply valid_from_cons in Hvalid.
    destruct Hvalid as (Hset & Hnd & Hrest).
    cbn [forward_loop] in Hrun |- *.
    destruct (freeze (infos st1) current_exec_set []) as [frozen1 |];
      [| discriminate].
    cbn [bind] in Hrun.
    destruct (forward_components input_state_len inputs do_logging i
                (Nat.eqb i (total - 1)) current_exec_set frozen1
                current_exec_set st1) as [st1a |] eqn:Hcomp; [| discriminate].
    cbn [bind] in Hrun.
    destruct (freeze_ok (infos st2) current_exec_set)
      with (acc := @nil (node * vec F))
      as [frozen2 Hfrozen2].
    { intros c Hc. destruct (Hset c Hc) as [_ (info0 & Hget0 & _)].
      pose proof (Hsim c) as Hs. pose proof (Hag c) as Ha.
      rewrite Hget0 in Hs.
      destruct (dict_get (infos st1) c); [| contradiction].
      destruct (dict_get (infos st2) c) as [info2 |]; [| contradiction].
      now exists info2. }
    rewrite Hfrozen2. cbn [bind].
    assert (Houtside : forall a, In a earlier ->
                                 node_mem a current_exec_set = false).
    { intros a Ha. destruct (node_mem a current_exec_set) eqn:Hmem;
        [| reflexivity].
      apply node_mem_In in Hmem. destruct (Hset a Hmem) as [Hnot _].
      contradiction. }
    destruct (forward_components_agree infos0 earlier i current_exec_set
                frozen1 frozen2 do_logging (Nat.eqb i (total - 1))
                Houtside current_exec_set [] st1 st2 st1a)
      as (st2a & Hcomp2 & Hsim1 & Hag1 & Hout1); try assumption.
    { intros c Hc. now destruct (Hset c Hc) as [_ Hinfo]. }
    { refine (agree_weaken _ _ _ _ _ Hag). intros x [Hx | []]. exact Hx. }
    rewrite Hcomp2. cbn [bind].
    destruct (IH (S i) (earlier ++ current_exec_set) st1a st2a st1' Hrest
                Hsim1) as (st2' & Hrun2 & Hsim' & Hag' & Hout');
      try assumption.
    { refine (agree_weaken _ _ _ _ _ Hag1). intros x Hx.
      apply in_app_or in Hx. destruct Hx as [Hx | Hx];
        [now left | right; now right]. }
    exists st2'. split; [exact Hrun2 |]. split; [exact Hsim' |].
    split; [| exact Hout'].
    refine (agree_weaken _ _ _ _ _ Hag'). intros x Hx.
    cbn [concat] in Hx. now rewrite app_assoc in Hx.
Qed.

(** C8.  When the execution sets are a valid schedule of the graph, a
    second call of [forward] with the same inputs, right after a call that
    returned, returns the same outputs and leaves the same forward
    information (values included) for every node of the execution sets;
    the weights and biases are part of the forward information and are not
    changed by [forward]. *)
Theorem forward_twice_same_outputs
  (execution_sets : list (list node))
  (projections_to_pytorch_weights : list (nat * Tensor (mat F)))
  (do_logging scheduler : bool)
  (component_to_forward_info infos1 : list (node * ForwardInfo F))
  (host host1 : Host F) (outs : list (node * vec F)) :
  valid_schedule execution_sets component_to_forward_info = true ->
  forward input_state_len execution_sets projections_to_pytorch_weights
          inputs do_logging scheduler component_to_forward_info host
  = Ok (outs, infos1, host1) ->
  exists infos2 host2,
    forward input_state_len execution_sets projections_to_pytorch_weights
            inputs do_logging scheduler infos1 host1
    = Ok (outs, infos2, host2)
    /\ forall c, In c (concat execution_sets) ->
                 dict_get infos2 c = dict_get infos1 c.
Proof.
  intros Hvalid Hfwd. unfold forward in Hfwd |- *.
  set (st0 := {| infos := component_to_forward_info; outputs := [];
                 logged := [] |}) in Hfwd.
  destruct (forward_loop input_state_len inputs do_logging
              (length execution_sets) 0 execution_sets st0)
    as [st1 |] eqn:Hloop; [| discriminate].
  cbn [bind] in Hfwd. injection Hfwd as <- <- _.
  destruct (forward_loop_propagated component_to_forward_info do_logging
              (length execution_sets) execution_sets 0 []
              (fun _ _ => False) st0 st1 Hvalid
              (sim_refl component_to_forward_info)) as [Hsim1 _];
    [| exact Hloop |].
  { intros x j []. }
  set (st0' := {| infos := infos st1; outputs := []; logged := [] |}).
  destruct (forward_loop_agree component_to_forward_info do_logging
              (length execution_sets) execution_sets 0 [] st0 st0' st1
              Hvalid (sim_refl component_to_forward_info))
    as (st2 & Hloop2 & _ & Hag & Hout); [| reflexivity | exact Hloop |].
  { intro k. specialize (Hsim1 k). cbn [infos st0 st0'].
    destruct (dict_get component_to_forward_info k),
             (dict_get (infos st1) k); try exact Hsim1.
    split; [exact Hsim1 | intros []]. }
  rewrite Hloop2. cbn [bind]. rewrite <- Hout.
  eexists; eexists. split; [reflexivity |].
  intros c Hc. apply (agree_dict_get _ _ _ c Hag). exact Hc.
Qed.

End ForwardProperties.

(** ** The statements on the concrete graphs *)

Lemma chain_has_no_self_loop :
  forall x, ~ In x (efferents Examples.chain x).
Proof.
  intros [| [| x]]; cbn; intuition discriminate.
Defined.

(** The emitted error of the hidden node 1 of the chain [0 -> 1 -> 2]. *)
Lemma backprop_hidden_node_error_on_chain :
  exists st' derivative,
    backprop_node Examples.squared_loss Examples.squared_loss_differential
                  Examples.empty_ctx Examples.chain MSELoss [0; 1; 2] 1
                  Examples.after_output = Ok st'
    /\ bin_function_derivative_creator Examples.empty_ctx Examples.chain 1
       = Ok derivative
    /\ forall (input_idx : nat) (m : Memory Z),
         let m0 := code Examples.after_output input_idx m in
         m_err (code st' input_idx m) 1
         = vec_hadamard (derivative (m_z m0 1) 1)
             (spec_efferent_sum Examples.chain m0 1 1 [2]) 1.
Proof.
  eexists.
  assert (Hnode : backprop_node Examples.squared_loss
                    Examples.squared_loss_differential Examples.empty_ctx
                    Examples.chain MSELoss [0; 1; 2] 1 Examples.after_output
                  = Ok _) by reflexivity.
  destruct (backprop_hidden_node_error Examples.squared_loss
              Examples.squared_loss_differential Examples.empty_ctx
              Examples.chain MSELoss [0; 1; 2] 1 Examples.after_output _
              eq_refl ltac:(discriminate)
              (chain_has_no_self_loop 1) Hnode) as [derivative [Hd Hv]].
  exists derivative. split; [exact Hnode |]. split; [exact Hd | exact Hv].
Defined.

(** C5 on the chain [0 -> 1 -> 2]: the generator runs through the whole
    loop, and the errors are computed in the order 2, 1. *)
Lemma backprop_errors_after_efferents_witness :
  exists st,
    backprop_loop Examples.squared_loss Examples.squared_loss_differential
                  Examples.empty_ctx Examples.chain MSELoss [0; 1; 2]
                  (backprop_fuel Examples.chain)
                  (backprop_init Examples.chain (fun m => m)) = Ok st
    /\ emitted st = [Final 2; Read 1 2; Final 1]
    /\ (forall before n after,
          emitted st = before ++ Final n :: after ->
          node_mem n (output_nodes Examples.chain) = false ->
          forall e, In e (efferents Examples.chain n) -> In (Final e) before)
    /\ (forall before n e after,
          emitted st = before ++ Read n e :: after -> In (Final e) before).
Proof.
  eexists.
  assert (Hrun : backprop_loop Examples.squared_loss
                   Examples.squared_loss_differential Examples.empty_ctx
                   Examples.chain MSELoss [0; 1; 2]
                   (backprop_fuel Examples.chain)
                   (backprop_init Examples.chain (fun m => m)) = Ok _)
    by reflexivity.
  split; [exact Hrun |]. split; [reflexivity |].
  exact (backprop_errors_after_efferents Examples.squared_loss
           Examples.squared_loss_differential Examples.empty_ctx
           Examples.chain MSELoss [0; 1; 2] (fun m => m)
           (backprop_fuel Examples.chain) _ chain_has_no_self_loop Hrun).
Defined.

(** C7 on the chain with a [ReLU] node. *)
Lemma unsupported_kinds_rejected_by_generator_witness :
  is_ok (_gen_llvm_training_function_body Examples.squared_loss
           Examples.squared_loss_differential (fun _ => 0) Examples.idle
           Examples.idle Examples.idle Examples.empty_ctx
           Examples.relu_chain) = false
  /\ is_ok (_gen_llvm_forward_function_body Examples.empty_ctx
              Examples.relu_chain false) = false.
Proof.
  assert (Hnode : exists c,
             In c (concat (execution_sets Examples.relu_chain))
             /\ unsupported_node Examples.empty_ctx Examples.relu_chain c).
  { exists 1. split; [cbn; auto | split; reflexivity]. }
  destruct (unsupported_kinds_rejected_by_generator Examples.squared_loss
              Examples.squared_loss_differential (fun _ => 0) Examples.idle
              Examples.idle Examples.idle Examples.empty_ctx
              Examples.relu_chain (or_introl Hnode)) as [Htrain Hforward].
  split; [exact Htrain | exact (Hforward Hnode false)].
Defined.

(** C3 on the pair [0 -> 1], with and without ["no_ref_pass"]. *)
Lemma param_initializer_weight_entries_witness :
  exists param_list cached np,
    _get_param_initializer Examples.biased_pair ["no_ref_pass"%string] None
    = Ok (param_list, cached)
    /\ nth_error param_list 1 = Some (Some np)
    /\ nth_error (weight_array np) 0 = Some (Some (Tuple [[1%Z]])).
Proof.
  eexists; eexists.
  assert (Hinit : _get_param_initializer Examples.biased_pair
                    ["no_ref_pass"%string] None = Ok (_, _))
    by (vm_compute; reflexivity).
  assert (Hkeys : NoDup (map fst (component_to_forward_info
                                    Examples.biased_pair)))
    by (repeat constructor; cbn; intuition discriminate).
  assert (Hidx : NoDup (map (fun p => get_node_index Examples.biased_pair
                                        (fst p))
                            (component_to_forward_info Examples.biased_pair)))
    by (repeat constructor; cbn; intuition discriminate).
  assert (Haff : forall n info,
             In (n, info) (component_to_forward_info Examples.biased_pair) ->
             NoDup (map fst (fi_afferents info))).
  { intros n info [Heq | [Heq | []]]; injection Heq as <- <-; cbn;
      repeat constructor; cbn; intuition. }
  match type of Hinit with
  | _ = Ok (?p, ?c) =>
      destruct (param_initializer_weight_entries Examples.biased_pair
                  ["no_ref_pass"%string] p c Hkeys Hidx Haff Hinit 1
                  {| fi_value := [0%Z];
                     fi_biases := Some (Examples.tensor 20 [1%Z]);
                     fi_function := fun x : vec Z => x;
                     fi_afferents := [(0, Examples.tensor 10 [[1%Z]])] |}
                  0 0 (Examples.tensor 10 [[1%Z]])
                  (or_intror (or_introl eq_refl)) eq_refl) as [np [Hnp Hw]]
  end.
  exists np. split; [exact Hinit |]. split; [exact Hnp | exact Hw].
Defined.

(** C10 on a heap of two buffers, the weight tensor at address 0 and the
    bias tensor at address 1. *)
Lemma accessors_return_independent_copies_witness :
  exists h' out,
    get_weights_for_projections [(0, 0)] [5; 6] = Ok (h', out)
    /\ In (0, 2) out
    /\ forall k p,
         In (k, p) ([(0, 0)] ++ [(1, 1)]) ->
         nth_error (heap_write h' 2 7) p = nth_error [5; 6] p.
Proof.
  exists [5; 6; 5], [(0, 2)].
  assert (Hcall : get_weights_for_projections [(0, 0)] [5; 6]
                  = Ok ([5; 6; 5], [(0, 2)])) by reflexivity.
  split; [exact Hcall |]. split; [now left |].
  apply (accessors_return_independent_copies nat [(0, 0)] [(1, 1)]
           [5; 6] [5; 6; 5] [(0, 2)] 0 2 7).
  - intros k p [Heq | [Heq | []]]; injection Heq as <- <-; cbn; lia.
  - left. exact Hcall.
  - now left.
Defined.

(** C8 on the chain [0 -> 1 -> 2] with the input [[1]] at node 0: both
    calls return [[6]] for the output node 2. *)
Lemma forward_twice_same_outputs_witness :
  exists infos1 host1 infos2 host2,
    forward (fun _ => 1) [[0]; [1]; [2]] [] [(0, [1%Z])] false false
            Examples.chain_infos Examples.empty_host
    = Ok ([(2, [6%Z])], infos1, host1)
    /\ forward (fun _ => 1) [[0]; [1]; [2]] [] [(0, [1%Z])] false false
               infos1 host1
       = Ok ([(2, [6%Z])], infos2, host2)
    /\ forall c, In c (concat [[0]; [1]; [2]]) ->
                 dict_get infos2 c = dict_get infos1 c.
Proof.
  eexists; eexists.
  assert (Hfwd : forward (fun _ => 1) [[0]; [1]; [2]] [] [(0, [1%Z])]
                         false false Examples.chain_infos Examples.empty_host
                 = Ok ([(2, [6%Z])], _, _)) by (vm_compute; reflexivity).
  match type of Hfwd with
  | _ = Ok (_, ?s, ?h) =>
      destruct (forward_twice_same_outputs (fun _ => 1) [(0, [1%Z])]
                  [[0]; [1]; [2]] [] false false Examples.chain_infos s
                  Examples.empty_host h [(2, [6%Z])] eq_refl Hfwd)
        as [infos2 [host2 [Hfwd2 Hsame]]]
  end.
  exists infos2, host2. split; [exact Hfwd |].
  split; [exact Hfwd2 | exact Hsame].
Defined.

(** On the graph [0 -> 1 -> 2 -> 3] with the edge [1 -> 3] first among the
    afferents of node 3, the queue reaches node 1 before node 2: the
    generator does not put node 1 off but raises [KeyError] at the lookup
    of the error of node 2, so no kernel is emitted. *)
Lemma skip_connection_raises :
  backprop_loop Examples.squared_loss Examples.squared_loss_differential
                Examples.empty_ctx Examples.skip_graph MSELoss [0; 1; 2; 3]
                (backprop_fuel Examples.skip_graph)
                (backprop_init Examples.skip_graph (fun m => m))
  = Raise "KeyError".
Proof. reflexivity. Qed.

(** On the chain [0 -> 1 -> 2], [forward] returns and writes into the
    mechanisms' value parameters the value of the output node 2 only; the
    value of the hidden node 1 stays in the forward information of the
    model. *)
Lemma forward_copies_last_set_to_host :
  exists infos' host',
    forward (fun _ => 1) [[0]; [1]; [2]] [] [(0, [1%Z])] false false
            Examples.chain_infos Examples.empty_host
    = Ok ([(2, [6%Z])], infos', host')
    /\ parameters_value host' = [(2, [6%Z])]
    /\ dict_get (parameters_value host') 1 = Raise "KeyError".
Proof.
  eexists; eexists. split; [vm_compute; reflexivity |].
  split; reflexivity.
Qed.

(** * Further properties of the generators and of the model *)

(** ** What the emitted forward kernel leaves untouched *)

Section ForwardFrame.
Context {F : Type} `{FloatTy F}.
Variable ctx : LLVMBuilderContext F.
Variable self : PytorchModelCreator F.

Lemma forward_frame_refl (store_z_values : bool) (nodes : list node)
  (m : Memory F) :
  forward_frame self store_z_values nodes m m.
Proof. unfold forward_frame. repeat split; reflexivity. Qed.

Lemma forward_frame_trans (store_z_values : bool) (nodes1 nodes2 : list node)
  (m1 m2 m3 : Memory F) :
  forward_frame self store_z_values nodes1 m1 m2 ->
  forward_frame self store_z_values nodes2 m2 m3 ->
  forward_frame self store_z_values (nodes1 ++ nodes2) m1 m3.
Proof.
  intros (Hp & Hi & He & Hl & Ho & Hs & Ht & Hout & Hz)
         (Hp' & Hi' & He' & Hl' & Ho' & Hs' & Ht' & Hout' & Hz').
  unfold forward_frame.
  repeat split; try (etransitivity; eassumption).
  - intros j Hj. rewrite Hout', Hout; [reflexivity | |];
      intros n Hn; apply Hj; apply in_or_app; tauto.
  - intros n Hn. rewrite Hz', Hz; [reflexivity | |];
      (destruct Hn as [Hn | Hn]; [now left | right]);
      intro Hin; apply Hn; apply in_or_app; tauto.
Qed.

Lemma forward_frame_weaken (store_z_values : bool) (nodes : list node)
  (m m' : Memory F) :
  forward_frame self false nodes m m' ->
  forward_frame self store_z_values nodes m m'.
Proof.
  intros (Hp & Hi & He & Hl & Ho & Hs & Ht & Hout & Hz).
  unfold forward_frame. repeat split; try assumption.
  intros n _. apply Hz. now left.
Qed.

Lemma set_output_frame (component : node) (m : Memory F) (v : vec F) :
  forward_frame self false [component] m
                (set_output m (get_node_index self component) v).
Proof.
  unfold forward_frame. cbn. repeat split; try reflexivity.
  intros j Hj. unfold upd.
  destruct (Nat.eqb_spec j (get_node_index self component)) as [-> | _];
    [| reflexivity].
  exfalso. apply (Hj component); [now left | reflexivity].
Qed.

Lemma forward_frame_single (store_z_values : bool) (component : node)
  (m1 m2 m3 : Memory F) :
  forward_frame self store_z_values [component] m1 m2 ->
  forward_frame self store_z_values [component] m2 m3 ->
  forward_frame self store_z_values [component] m1 m3.
Proof.
  intros H12 H23.
  pose proof (forward_frame_trans _ _ _ _ _ _ H12 H23)
    as (Hp & Hi & He & Hl & Ho & Hs & Ht & Hout & Hz).
  unfold forward_frame. repeat split; try assumption.
  - intros j Hj. apply Hout. intros n [<- | [<- | []]]; apply Hj; now left.
  - intros n Hn. apply Hz. destruct Hn as [Hn | Hn]; [now left | right].
    intros [<- | [<- | []]]; apply Hn; now left.
Qed.

Lemma forward_afferents_frame (component : node)
  (afferents : list (node * Tensor (mat F))) :
  forall (is_set : bool) (k : Code F),
    forward_afferents self component afferents is_set = Ok k ->
    forall m, forward_frame self false [component] m (k m).
Proof.
  induction afferents as [| [input_node w0] rest IH]; intros is_set k Hgen m.
  - cbn in Hgen. injection Hgen as <-. apply forward_frame_refl.
  - cbn [forward_afferents] in Hgen.
    destruct (_gen_get_node_weight_ptr self component input_node)
      as [[[[node_idx afferent_node_index] dim_x] dim_y] |];
      [| discriminate].
    cbn [bind] in Hgen.
    destruct (forward_afferents self component rest true) as [k' |] eqn:Hrest;
      [| discriminate].
    cbn [bind] in Hgen. injection Hgen as <-.
    eapply forward_frame_single; [| apply (IH true k' Hrest)].
    unfold forward_afferent_code.
    destruct is_set; apply set_output_frame.
Qed.

Lemma forward_component_frame (store_z_values : bool) (i : nat)
  (component : node) (c : Code F) :
  forward_component ctx self store_z_values i component = Ok c ->
  forall m, forward_frame self store_z_values [component] m (c m).
Proof.
  intros Hgen m. unfold forward_component in Hgen.
  destruct (dict_get (component_to_forward_info self) component)
    as [info |]; [| discriminate].
  cbn [bind] in Hgen.
  destruct (if Nat.eqb i 0 then Ok (fun m0 : Memory F => m0)
            else forward_afferents self component (fi_afferents info) false)
    as [weighted |] eqn:Hw; [| discriminate].
  cbn [bind] in Hgen.
  destruct (bin_function_creator ctx self component) as [bin_func |];
    [| discriminate].
  cbn [bind] in Hgen. injection Hgen as <-.
  assert (Hweighted : forward_frame self store_z_values [component] m
                                    (weighted m)).
  { apply forward_frame_weaken.
    destruct (Nat.eqb i 0).
    - injection Hw as <-. apply forward_frame_refl.
    - exact (forward_afferents_frame _ _ _ _ Hw m). }
  eapply forward_frame_single; [exact Hweighted |].
  cbv zeta.
  eapply forward_frame_single;
    [| apply forward_frame_weaken; apply set_output_frame].
  destruct store_z_values; [| apply forward_frame_refl].
  unfold forward_frame. cbn. repeat split; try reflexivity.
  intros n [Hn | Hn]; [discriminate |]. unfold upd.
  destruct (Nat.eqb_spec n component) as [-> | _]; [| reflexivity].
  exfalso. apply Hn. now left.
Qed.

Lemma forward_exec_set_frame (store_z_values : bool) (i : nat)
  (current_exec_set : list node) :
  forall c : Code F,
    forward_exec_set ctx self store_z_values i current_exec_set = Ok c ->
    forall m, forward_frame self store_z_values current_exec_set m (c m).
Proof.
  induction current_exec_set as [| component rest IH]; intros c Hgen m.
  - cbn in Hgen. injection Hgen as <-. apply forward_frame_refl.
  - cbn [forward_exec_set] in Hgen.
    destruct (forward_component ctx self store_z_values i component)
      as [c0 |] eqn:Hc0; [| discriminate].
    cbn [bind] in Hgen.
    destruct (forward_exec_set ctx self store_z_values i rest) as [k |]
      eqn:Hk; [| discriminate].
    cbn [bind] in Hgen. injection Hgen as <-.
    exact (forward_frame_trans _ [component] rest _ _ _
             (forward_component_frame _ _ _ _ Hc0 m) (IH k eq_refl (c0 m))).
Qed.

Lemma forward_sets_frame (store_z_values : bool) (sets : list (list node)) :
  forall (i : nat) (c : Code F),
    forward_sets ctx self store_z_values i sets = Ok c ->
    forall m, forward_frame self store_z_values (concat sets) m (c m).
Proof.
  induction sets as [| current_exec_set rest IH]; intros i c Hgen m.
  - cbn in Hgen. injection Hgen as <-. apply forward_frame_refl.
  - cbn [forward_sets] in Hgen.
    destruct (forward_exec_set ctx self store_z_values i current_exec_set)
      as [c0 |] eqn:Hc0; [| discriminate].
    cbn [bind] in Hgen.
    destruct (forward_sets ctx self store_z_values (S i) rest) as [k |]
      eqn:Hk; [| discriminate].
    cbn [bind] in Hgen. injection Hgen as <-.
    cbn [concat].
    exact (forward_frame_trans _ _ _ _ _ _
             (forward_exec_set_frame _ _ _ _ Hc0 m) (IH _ k Hk (c0 m))).
Qed.

(** X11.  The kernel emitted by [_gen_llvm_forward_function_body] writes
    nothing but the value slots of the nodes of the execution sets and,
    when the z values are retained, the z buffers of these nodes: the
    weights, the input structure, the error buffers, the loss, the
    optimizer structure, the stimuli and the targets are as before, and so
    is the value slot of every index that belongs to no scheduled node. *)
Theorem forward_kernel_frame (store_z_values : bool) (c : Code F)
  (keys : list node) :
  _gen_llvm_forward_function_body ctx self store_z_values = Ok (c, keys) ->
  forall m,
    forward_frame self store_z_values (concat (execution_sets self)) m (c m).
Proof.
  intros Hgen m. unfold _gen_llvm_forward_function_body in Hgen.
  destruct (forward_sets ctx self store_z_values 0 (execution_sets self))
    as [c0 |] eqn:Hc0; [| discriminate].
  cbn [bind] in Hgen. injection Hgen as <- _.
  exact (forward_sets_frame _ _ _ _ Hc0 m).
Qed.

End ForwardFrame.

(** ** The z values the training kernel retains *)

Section ForwardRetained.
Context {F : Type} `{FloatTy F}.
Variable ctx : LLVMBuilderContext F.
Variable self : PytorchModelCreator F.

Lemma NoDup_app_disjoint {A : Type} (l1 l2 : list A) :
  NoDup (l1 ++ l2) -> forall a, In a l1 -> ~ In a l2.
Proof.
  induction l1 as [| x rest IH]; [easy |].
  cbn [app]. intros Hnd a [<- | Hin] Hin2.
  - inversion Hnd as [| ? ? Hnotin _]; subst.
    apply Hnotin. apply in_or_app. now right.
  - inversion Hnd as [| ? ? _ Hnd']; subst. exact (IH Hnd' a Hin Hin2).
Qed.

Lemma forward_component_retained (i : nat) (component : node) (c : Code F) :
  forward_component ctx self true i component = Ok c ->
  exists bin_func,
    bin_function_creator ctx self component = Ok bin_func
    /\ forall m, exists cmp_arg,
         m_z (c m) component
         = vec_copy cmp_arg (variable_dim self component)
         /\ m_output (c m) (get_node_index self component)
            = bin_func cmp_arg (variable_dim self component)
         /\ (i = 0 -> cmp_arg = m_input m (get_node_index self component)).
Proof.
  intro Hgen. unfold forward_component in Hgen.
  destruct (dict_get (component_to_forward_info self) component)
    as [info |]; [| discriminate].
  cbn [bind] in Hgen.
  destruct (if Nat.eqb i 0 then Ok (fun m0 : Memory F => m0)
            else forward_afferents self component (fi_afferents info) false)
    as [weighted |] eqn:Hw; [| discriminate].
  cbn [bind] in Hgen.
  destruct (bin_function_creator ctx self component) as [bin_func |];
    [| discriminate].
  cbn [bind] in Hgen. injection Hgen as <-.
  exists bin_func. split; [reflexivity |]. intro m.
  exists (if Nat.eqb i 0
          then m_input (weighted m) (get_node_index self component)
          else m_output (weighted m) (get_node_index self component)).
  cbn. unfold upd. rewrite !Nat.eqb_refl.
  split; [reflexivity | split; [reflexivity |]].
  intros ->. cbn in Hw |- *. now injection Hw as <-.
Qed.

Lemma forward_exec_set_retained (i : nat) (current_exec_set : list node) :
  forall c : Code F,
    forward_exec_set ctx self true i current_exec_set = Ok c ->
    NoDup (map (get_node_index self) current_exec_set) ->
    forall n,
      In n current_exec_set ->
      exists bin_func,
        bin_function_creator ctx self n = Ok bin_func
        /\ forall m, exists cmp_arg,
             m_z (c m) n = vec_copy cmp_arg (variable_dim self n)
             /\ m_output (c m) (get_node_index self n)
                = bin_func cmp_arg (variable_dim self n)
             /\ (i = 0 -> cmp_arg = m_input m (get_node_index self n)).
Proof.
  induction current_exec_set as [| component rest IH]; intros c Hgen Hnd n Hn;
    [destruct Hn |].
  cbn [forward_exec_set] in Hgen.
  destruct (forward_component ctx self true i component) as [c0 |] eqn:Hc0;
    [| discriminate].
  cbn [bind] in Hgen.
  destruct (forward_exec_set ctx self true i rest) as [k |] eqn:Hk;
    [| discriminate].
  cbn [bind] in Hgen. injection Hgen as <-.
  cbn [map] in Hnd. inversion Hnd as [| ? ? Hnotin Hnd']; subst.
  destruct Hn as [<- | Hin].
  - destruct (forward_component_retained _ _ _ Hc0) as (bin_func & Hb & Hval).
    exists bin_func. split; [exact Hb |]. intro m.
    destruct (Hval m) as (cmp_arg & Hz & Hout & Hin0).
    exists cmp_arg.
    destruct (forward_exec_set_frame ctx self true i rest k Hk (c0 m))
      as (_ & _ & _ & _ & _ & _ & _ & Hfo & Hfz).
    rewrite Hfo, Hfz; [now repeat split | |].
    + right. intro Hin. apply Hnotin. now apply in_map.
    + intros n' Hn' Heq. apply Hnotin. rewrite <- Heq. now apply in_map.
  - destruct (IH k eq_refl Hnd' n Hin) as (bin_func & Hb & Hval).
    exists bin_func. split; [exact Hb |]. intro m.
    destruct (Hval (c0 m)) as (cmp_arg & Hz & Hout & Hin0).
    exists cmp_arg. split; [exact Hz | split; [exact Hout |]].
    intro Hi. rewrite (Hin0 Hi).
    destruct (forward_component_frame ctx self true i component c0 Hc0 m)
      as (_ & Hfi & _).
    now rewrite Hfi.
Qed.

Lemma forward_sets_retained (sets : list (list node)) :
  forall (i : nat) (c : Code F),
    forward_sets ctx self true i sets = Ok c ->
    NoDup (map (get_node_index self) (concat sets)) ->
    forall n,
      In n (concat sets) ->
      exists bin_func,
        bin_function_creator ctx self n = Ok bin_func
        /\ forall m, exists cmp_arg,
             m_z (c m) n = vec_copy cmp_arg (variable_dim self n)
             /\ m_output (c m) (get_node_index self n)
                = bin_func cmp_arg (variable_dim self n)
             /\ (i = 0 -> In n (hd [] sets) ->
                 cmp_arg = m_input m (get_node_index self n)).
Proof.
  induction sets as [| current_exec_set rest IH]; intros i c Hgen Hnd n Hn;
    [destruct Hn |].
  cbn [forward_sets] in Hgen.
  destruct (forward_exec_set ctx self true i current_exec_set) as [c0 |]
    eqn:Hc0; [| discriminate].
  cbn [bind] in Hgen.
  destruct (forward_sets ctx self true (S i) rest) as [k |] eqn:Hk;
    [| discriminate].
  cbn [bind] in Hgen. injection Hgen as <-.
  cbn [concat] in Hnd, Hn. rewrite map_app in Hnd.
  pose proof (NoDup_app_disjoint _ _ Hnd) as Hdisjoint.
  apply in_app_or in Hn. destruct Hn as [Hin | Hin].
  - destruct (forward_exec_set_retained _ _ _ Hc0
                (NoDup_app_remove_r _ _ Hnd) n Hin)
      as (bin_func & Hb & Hval).
    exists bin_func. split; [exact Hb |]. intro m.
    destruct (Hval m) as (cmp_arg & Hz & Hout & Hin0).
    exists cmp_arg.
    destruct (forward_sets_frame ctx self true rest (S i) k Hk (c0 m))
      as (_ & _ & _ & _ & _ & _ & _ & Hfo & Hfz).
    rewrite Hfo, Hfz; [split; [exact Hz | split; [exact Hout |]] | |].
    + intros Hi _. exact (Hin0 Hi).
    + right. intro Hin'.
      apply (Hdisjoint (get_node_index self n)); now apply in_map.
    + intros n' Hn' Heq.
      apply (Hdisjoint (get_node_index self n));
        [now apply in_map | rewrite <- Heq; now apply in_map].
  - destruct (IH (S i) k Hk (NoDup_app_remove_l _ _ Hnd) n Hin)
      as (bin_func & Hb & Hval).
    exists bin_func. split; [exact Hb |]. intro m.
    destruct (Hval (c0 m)) as (cmp_arg & Hz & Hout & _).
    exists cmp_arg. split; [exact Hz | split; [exact Hout |]].
    intros _ Hhd. cbn [hd] in Hhd. exfalso.
    apply (Hdisjoint (get_node_index self n)); now apply in_map.
Qed.

(** X12.  When the nodes of the execution sets have distinct indices, the
    kernel that [_gen_llvm_forward_function_body] emits with
    [store_z_values=True] binds every scheduled node in [z_values], and
    when it has run, the z buffer of a node holds the copy of the very
    argument from which the activation kernel computed the value in the
    node's slot: no later node overwrites either of them.  For a node of the
    first execution set this argument is the node's entry of the input
    structure. *)
Theorem forward_retains_activation_arguments (c : Code F)
  (z_values : list node) (n : node) :
  NoDup (map (get_node_index self) (concat (execution_sets self))) ->
  _gen_llvm_forward_function_body ctx self true = Ok (c, z_values) ->
  In n (concat (execution_sets self)) ->
  In n z_values
  /\ exists bin_func,
       bin_function_creator ctx self n = Ok bin_func
       /\ forall m, exists cmp_arg,
            m_z (c m) n = vec_copy cmp_arg (variable_dim self n)
            /\ m_output (c m) (get_node_index self n)
               = bin_func cmp_arg (variable_dim self n)
            /\ (In n (hd [] (execution_sets self)) ->
                cmp_arg = m_input m (get_node_index self n)).
Proof.
  intros Hnd Hgen Hn. unfold _gen_llvm_forward_function_body in Hgen.
  destruct (forward_sets ctx self true 0 (execution_sets self)) as [c0 |]
    eqn:Hc0; [| discriminate].
  cbn [bind] in Hgen. injection Hgen as <- <-.
  split; [exact Hn |].
  destruct (forward_sets_retained _ _ _ Hc0 Hnd n Hn)
    as (bin_func & Hb & Hval).
  exists bin_func. split; [exact Hb |]. intro m.
  destruct (Hval m) as (cmp_arg & Hz & Hout & Hin0).
  exists cmp_arg. split; [exact Hz | split; [exact Hout |]].
  exact (Hin0 eq_refl).
Qed.

End ForwardRetained.

(** ** The work queue of the backpropagation generator *)

Section BackpropQueue.
Context {F : Type} `{FloatTy F}.
Variable lossfunc : Loss -> vec F -> vec F -> nat -> F.
Variable loss_differential : Loss -> vec F -> vec F -> nat -> vec F.
Variable ctx : LLVMBuilderContext F.
Variable self : PytorchModelCreator F.

Lemma backprop_loop_more_fuel (loss : Loss) (z_values : list node)
  (extra fuel : nat) :
  forall st : GenState F,
    measure self st <= fuel ->
    backprop_loop lossfunc loss_differential ctx self loss z_values
                  (fuel + extra) st
    = backprop_loop lossfunc loss_differential ctx self loss z_values
                    fuel st.
Proof.
  induction fuel as [| fuel IH]; intros st Hm.
  - assert (Hq : backprop_queue st = []).
    { unfold measure in Hm. destruct (backprop_queue st); [reflexivity |].
      cbn in Hm. lia. }
    destruct extra; cbn; [reflexivity |]. now rewrite Hq.
  - cbn [Nat.add backprop_loop].
    destruct (backprop_queue st) as [| n rest] eqn:Hq; [reflexivity |].
    destruct (backprop_step lossfunc loss_differential ctx self loss
                z_values st) as [st1 |] eqn:Hstep; [| reflexivity].
    cbn [bind]. apply IH.
    assert (Hne : backprop_queue st <> []) by (rewrite Hq; discriminate).
    pose proof (backprop_step_decreases lossfunc loss_differential ctx self
                  _ _ _ _ Hne Hstep).
    lia.
Qed.

(** X15.  The [while] loop of [_gen_llvm_training_backprop] comes to its end
    on every graph, with or without cycles: after
    [len(output_nodes) + sum (2 + len(afferents))] iterations more
    iterations change nothing, and when the generator has not raised the
    queue is empty. *)
Theorem backprop_while_loop_completes (loss : Loss) (z_values : list node)
  (forward_code : Code F) (extra : nat) :
  backprop_loop lossfunc loss_differential ctx self loss z_values
                (backprop_fuel self + extra)
                (backprop_init self forward_code)
  = backprop_loop lossfunc loss_differential ctx self loss z_values
                  (backprop_fuel self) (backprop_init self forward_code)
  /\ match backprop_loop lossfunc loss_differential ctx self loss z_values
                         (backprop_fuel self)
                         (backprop_init self forward_code) with
     | Ok st => backprop_queue st = []
     | Raise _ => True
     end.
Proof.
  assert (Hm : measure self (backprop_init self forward_code)
               <= backprop_fuel self).
  { unfold measure, backprop_fuel. cbn. now rewrite pending_nil. }
  split.
  - now apply backprop_loop_more_fuel.
  - destruct (backprop_loop lossfunc loss_differential ctx self loss
                z_values (backprop_fuel self)
                (backprop_init self forward_code)) as [st |] eqn:Hrun;
      [| exact I].
    exact (backprop_loop_empties lossfunc loss_differential ctx self
             _ _ _ _ _ Hm Hrun).
Qed.

Lemma backprop_node_errors (loss : Loss) (z_values : list node) (n : node)
  (st st' : GenState F) :
  backprop_node lossfunc loss_differential ctx self loss z_values n st
  = Ok st' ->
  error_dict st' = error_dict st ++ [n]
  /\ node_mem n z_values = true
  /\ is_ok (dict_get (component_to_forward_info self) n) = true.
Proof.
  intro Hnode. unfold backprop_node, _get_afferent_nodes in Hnode.
  destruct (dict_get (component_to_forward_info self) n) as [info |];
    [| discriminate].
  cbn [bind] in Hnode.
  destruct (bin_function_derivative_creator ctx self n); [| discriminate].
  cbn [bind] in Hnode.
  destruct (node_mem n z_values); [| discriminate].
  cbn [negb] in Hnode.
  destruct (node_mem n (output_nodes self)).
  - injection Hnode as <-. now repeat split.
  - destruct (backprop_efferents self (error_dict st ++ [n]) n
                (value_dim self n) (efferents self n) false)
      as [[propagate tr] |]; [| discriminate].
    cbn [bind] in Hnode. injection Hnode as <-. now repeat split.
Qed.

Lemma backprop_step_errors (loss : Loss) (z_values : list node)
  (P : list node -> Prop) (st st' : GenState F) :
  (forall n,
      backprop_skip self (error_dict st) n = false ->
      node_mem n z_values = true ->
      is_ok (dict_get (component_to_forward_info self) n) = true ->
      P (error_dict st) -> P (error_dict st ++ [n])) ->
  P (error_dict st) ->
  backprop_step lossfunc loss_differential ctx self loss z_values st
  = Ok st' ->
  P (error_dict st').
Proof.
  intros Hadd Hp Hstep. unfold backprop_step in Hstep.
  destruct (backprop_queue st) as [| n rest]; [now injection Hstep as <- |].
  destruct (backprop_skip self (error_dict st) n) eqn:Hskip.
  - now injection Hstep as <-.
  - destruct (backprop_node_errors _ _ _ _ _ Hstep) as (-> & Hz & Hget).
    cbn [error_dict]. now apply Hadd.
Qed.

Lemma backprop_loop_errors (loss : Loss) (z_values : list node)
  (P : list node -> Prop) :
  (forall errors n,
      backprop_skip self errors n = false ->
      node_mem n z_values = true ->
      is_ok (dict_get (component_to_forward_info self) n) = true ->
      P errors -> P (errors ++ [n])) ->
  forall (fuel : nat) (st st' : GenState F),
    P (error_dict st) ->
    backprop_loop lossfunc loss_differential ctx self loss z_values fuel st
    = Ok st' ->
    P (error_dict st').
Proof.
  intro Hadd. induction fuel as [| fuel IH]; intros st st' Hp Hrun.
  - cbn in Hrun. now injection Hrun as <-.
  - cbn [backprop_loop] in Hrun.
    destruct (backprop_queue st) as [| n rest] eqn:Hq;
      [now injection Hrun as <- |].
    destruct (backprop_step lossfunc loss_differential ctx self loss
                z_values st) as [st1 |] eqn:Hstep; [| discriminate].
    cbn [bind] in Hrun.
    apply (IH st1 st'); [| exact Hrun].
    apply (backprop_step_errors loss z_values P st st1);
      [| exact Hp | exact Hstep].
    intros n0. apply Hadd.
Qed.

(** X16.  The keys of [error_dict] when the [while] loop is left: every
    node has one error buffer at most, however often it entered the queue,
    and a node with an error buffer has its forward information and a
    retained z value, has afferents, and is neither the input CIM nor an
    input node. *)
Theorem backprop_error_buffers (loss : Loss) (z_values : list node)
  (forward_code : Code F) (fuel : nat) (st : GenState F) :
  backprop_loop lossfunc loss_differential ctx self loss z_values fuel
                (backprop_init self forward_code)
  = Ok st ->
  NoDup (error_dict st)
  /\ forall n,
       In n (error_dict st) ->
       is_ok (dict_get (component_to_forward_info self) n) = true
       /\ node_mem n z_values = true
       /\ has_afferents self n = true
       /\ n <> input_CIM self
       /\ node_mem n (input_nodes self) = false.
Proof.
  apply (backprop_loop_errors loss z_values
           (fun errors =>
              NoDup errors
              /\ forall n,
                   In n errors ->
                   is_ok (dict_get (component_to_forward_info self) n) = true
                   /\ node_mem n z_values = true
                   /\ has_afferents self n = true
                   /\ n <> input_CIM self
                   /\ node_mem n (input_nodes self) = false)).
  - intros errors n Hskip Hz Hget [Hnd Hall].
    unfold backprop_skip in Hskip.
    apply orb_false_elim in Hskip. destruct Hskip as [Hskip Hinput].
    apply orb_false_elim in Hskip. destruct Hskip as [Hskip Hcim].
    apply orb_false_elim in Hskip. destruct Hskip as [Hmem Haff].
    split.
    + apply NoDup_app; [exact Hnd | repeat constructor; easy |].
      intros a Ha [<- | []].
      apply (node_mem_In n errors) in Ha. congruence.
    + intros x Hx. apply in_app_or in Hx.
      destruct Hx as [Hx | [<- | []]]; [now apply Hall |].
      repeat split; try assumption.
      * now destruct (has_afferents self n).
      * intros ->. now rewrite Nat.eqb_refl in Hcim.
  - split; [constructor | intros n []].
Qed.

Lemma backprop_efferents_missing_error (errors : list node) (n : node)
  (node_dim : nat) (e : node) (efferent_nodes : list node) :
  In e efferent_nodes ->
  node_mem e errors = false ->
  forall is_set,
    is_ok (backprop_efferents self errors n node_dim efferent_nodes is_set)
    = false.
Proof.
  induction efferent_nodes as [| e0 rest IH]; intros Hin Hmem is_set;
    [destruct Hin |].
  cbn [backprop_efferents].
  destruct (node_mem e0 errors) eqn:He0; [| reflexivity].
  cbn [negb].
  destruct Hin as [-> | Hin]; [congruence |].
  apply is_ok_bind_then. intro w.
  rewrite (is_ok_bind_raise _ _ (IH Hin Hmem true)). reflexivity.
Qed.

(** X17.  The generator never puts a node off.  When the queue reaches a
    node that is not an output node while one of its efferents has no error
    buffer yet, the lookup [error_dict[efferent_node]] fails: the [while]
    loop raises and no kernel is emitted. *)
Theorem backprop_before_efferent_raises (loss : Loss) (z_values : list node)
  (fuel : nat) (st : GenState F) (n e : node) (rest : list node) :
  backprop_queue st = n :: rest ->
  backprop_skip self (error_dict st) n = false ->
  node_mem n (output_nodes self) = false ->
  In e (efferents self n) ->
  e <> n ->
  node_mem e (error_dict st) = false ->
  is_ok (backprop_loop lossfunc loss_differential ctx self loss z_values
                       (S fuel) st)
  = false.
Proof.
  intros Hq Hskip Hout Hin Hne Hmem.
  cbn [backprop_loop]. rewrite Hq. apply is_ok_bind_raise.
  unfold backprop_step. rewrite Hq, Hskip.
  unfold backprop_node. apply is_ok_bind_then. intro afferent_nodes.
  apply is_ok_bind_then. intro derivative.
  destruct (negb (node_mem n z_values)); [reflexivity |].
  rewrite Hout. cbn [backprop_queue error_dict].
  apply is_ok_bind_raise.
  apply (backprop_efferents_missing_error _ _ _ e); [exact Hin |].
  rewrite (node_mem_app e). rewrite Hmem. cbn.
  destruct (Nat.eqb_spec e n); [contradiction | reflexivity].
Qed.

End BackpropQueue.

(** ** What the backpropagation kernel leaves untouched *)

Section BackpropFrame.
Context {F : Type} `{FloatTy F}.
Variable lossfunc : Loss -> vec F -> vec F -> nat -> F.
Variable loss_differential : Loss -> vec F -> vec F -> nat -> vec F.
Variable _DELTA_W_NUM : Optimizer -> nat.
Variable ctx : LLVMBuilderContext F.
Variable self : PytorchModelCreator F.
Variable delta_w : nat.

Lemma keeps_weights_refl (m : Memory F) : keeps_weights delta_w m m.
Proof. unfold keeps_weights. now repeat split. Qed.

Lemma keeps_weights_trans (m1 m2 m3 : Memory F) :
  keeps_weights delta_w m1 m2 -> keeps_weights delta_w m2 m3 ->
  keeps_weights delta_w m1 m3.
Proof.
  intros (Hp & Hs & Ht & Ho) (Hp' & Hs' & Ht' & Ho').
  unfold keeps_weights. repeat split; try (etransitivity; eassumption).
  intros field Hf. now rewrite Ho', Ho.
Qed.

Lemma forward_frame_keeps_weights (store_z_values : bool)
  (nodes : list node) (m m' : Memory F) :
  forward_frame self store_z_values nodes m m' -> keeps_weights delta_w m m'.
Proof.
  intros (Hp & _ & _ & _ & Ho & Hs & Ht & _).
  unfold keeps_weights. repeat split; try assumption.
  intros field _. now rewrite Ho.
Qed.

Lemma copy_inputs_keeps_weights (input_idx : nat) (m : Memory F) :
  keeps_weights delta_w m (copy_inputs self input_idx m).
Proof.
  unfold copy_inputs. generalize (input_nodes self) as l. intro l.
  assert (Hgen : forall m0, keeps_weights delta_w m m0 ->
            keeps_weights delta_w m
              (fold_left
                 (fun acc n =>
                    set_input acc (get_node_index self n)
                      (vec_copy (m_stimuli acc n input_idx)
                                (variable_dim self n))) l m0)).
  { induction l as [| n rest IH]; intros m0 Hm0; [exact Hm0 |].
    cbn [fold_left]. apply IH.
    eapply keeps_weights_trans; [exact Hm0 |].
    unfold keeps_weights. cbn. now repeat split. }
  apply Hgen. apply keeps_weights_refl.
Qed.

Lemma backprop_efferents_keeps_weights (errors : list node) (n : node)
  (node_dim : nat) (efferent_nodes : list node) :
  forall (is_set : bool) (k : Code F) (tr : list Event),
    backprop_efferents self errors n node_dim efferent_nodes is_set
    = Ok (k, tr) ->
    forall m, keeps_weights delta_w m (k m).
Proof.
  induction efferent_nodes as [| e rest IH]; intros is_set k tr Hgen m.
  - cbn in Hgen. injection Hgen as <- _. apply keeps_weights_refl.
  - cbn [backprop_efferents] in Hgen.
    destruct (negb (node_mem e errors)); [discriminate |].
    destruct (_gen_get_node_weight_ptr self e n)
      as [[[[node_idx afferent_node_index] dim_x] dim_y] |];
      [| discriminate].
    cbn [bind] in Hgen.
    destruct (backprop_efferents self errors n node_dim rest true)
      as [[k' tr'] |] eqn:Hrest; [| discriminate].
    cbn [bind] in Hgen. injection Hgen as <- _.
    eapply keeps_weights_trans; [| apply (IH true k' tr' Hrest)].
    unfold backprop_efferent_code, keeps_weights.
    destruct is_set; cbn; now repeat split.
Qed.

Lemma backprop_node_keeps_weights (loss : Loss) (z_values : list node)
  (n : node) (st st' : GenState F) :
  backprop_node lossfunc loss_differential ctx self loss z_values n st
  = Ok st' ->
  (forall input_idx m, keeps_weights delta_w m (code st input_idx m)) ->
  forall input_idx m, keeps_weights delta_w m (code st' input_idx m).
Proof.
  intros Hnode Hst input_idx m.
  unfold backprop_node in Hnode.
  destruct (_get_afferent_nodes self n); [| discriminate].
  cbn [bind] in Hnode.
  destruct (bin_function_derivative_creator ctx self n) as [derivative |];
    [| discriminate].
  cbn [bind] in Hnode.
  destruct (negb (node_mem n z_values)); [discriminate |].
  destruct (node_mem n (output_nodes self)).
  - injection Hnode as <-. cbn [code].
    eapply keeps_weights_trans; [apply Hst |].
    unfold backprop_output_code, keeps_weights. cbn. now repeat split.
  - destruct (backprop_efferents self (error_dict st ++ [n]) n
                (value_dim self n) (efferents self n) false)
      as [[propagate tr] |] eqn:Hprop; [| discriminate].
    cbn [bind] in Hnode. injection Hnode as <-. cbn [code].
    eapply keeps_weights_trans; [apply Hst |].
    unfold backprop_hidden_code. cbv zeta.
    eapply keeps_weights_trans;
      [exact (backprop_efferents_keeps_weights _ _ _ _ _ _ _ Hprop _) |].
    unfold keeps_weights. cbn. now repeat split.
Qed.

Lemma backprop_loop_keeps_weights (loss : Loss) (z_values : list node)
  (fuel : nat) :
  forall st st' : GenState F,
    backprop_loop lossfunc loss_differential ctx self loss z_values fuel st
    = Ok st' ->
    (forall input_idx m, keeps_weights delta_w m (code st input_idx m)) ->
    forall input_idx m, keeps_weights delta_w m (code st' input_idx m).
Proof.
  induction fuel as [| fuel IH]; intros st st' Hrun Hst.
  - cbn in Hrun. now injection Hrun as <-.
  - cbn [backprop_loop] in Hrun.
    destruct (backprop_queue st) as [| n rest] eqn:Hq;
      [now injection Hrun as <- |].
    destruct (backprop_step lossfunc loss_differential ctx self loss
                z_values st) as [st1 |] eqn:Hstep; [| discriminate].
    cbn [bind] in Hrun. apply (IH st1 st' Hrun).
    unfold backprop_step in Hstep. rewrite Hq in Hstep.
    destruct (backprop_skip self (error_dict st) n).
    + injection Hstep as <-. exact Hst.
    + exact (backprop_node_keeps_weights _ _ _ _ _ Hstep Hst).
Qed.

Lemma gradients_afferents_keep_weights (optimizer : Optimizer) (n : node)
  (afferent_nodes : list (node * Tensor (mat F))) :
  delta_w = _DELTA_W_NUM optimizer ->
  forall c : Code F,
    gradients_afferents _DELTA_W_NUM self optimizer n afferent_nodes = Ok c ->
    forall m, keeps_weights delta_w m (c m).
Proof.
  intro Hd.
  induction afferent_nodes as [| [a w0] rest IH]; intros c Hgen m.
  - cbn in Hgen. injection Hgen as <-. apply keeps_weights_refl.
  - cbn [gradients_afferents] in Hgen.
    destruct (_get_afferent_node_index self n a) as [idx |]; [| discriminate].
    cbn [bind] in Hgen.
    destruct (_gen_get_node_weight_ptr self n a)
      as [[[[node_idx afferent_node_index] dim_x] dim_y] |];
      [| discriminate].
    cbn [bind] in Hgen.
    destruct idx as [afferent_node_idx |]; [| discriminate].
    destruct (gradients_afferents _DELTA_W_NUM self optimizer n rest)
      as [k |]; [| discriminate].
    cbn [bind] in Hgen. injection Hgen as <-.
    eapply keeps_weights_trans; [| apply (IH k eq_refl)].
    unfold gradient_code, keeps_weights. cbn. repeat split.
    intros field Hf. unfold upd. rewrite <- Hd.
    destruct (Nat.eqb_spec field delta_w); [contradiction | reflexivity].
Qed.

Lemma compute_weight_gradients_keep_weights (optimizer : Optimizer)
  (errors : list node) :
  delta_w = _DELTA_W_NUM optimizer ->
  forall c : Code F,
    compute_weight_gradients _DELTA_W_NUM self optimizer errors = Ok c ->
    forall m, keeps_weights delta_w m (c m).
Proof.
  intro Hd. induction errors as [| n rest IH]; intros c Hgen m.
  - cbn in Hgen. injection Hgen as <-. apply keeps_weights_refl.
  - cbn [compute_weight_gradients] in Hgen.
    destruct (node_mem n (input_nodes self)); [now apply IH |].
    destruct (_get_afferent_nodes self n) as [afferent_nodes |];
      [| discriminate].
    cbn [bind] in Hgen.
    destruct (gradients_afferents _DELTA_W_NUM self optimizer n
                afferent_nodes) as [c0 |] eqn:Hc0; [| discriminate].
    cbn [bind] in Hgen.
    destruct (compute_weight_gradients _DELTA_W_NUM self optimizer rest)
      as [k |]; [| discriminate].
    cbn [bind] in Hgen. injection Hgen as <-.
    eapply keeps_weights_trans; [| apply (IH k eq_refl)].
    exact (gradients_afferents_keep_weights _ _ _ Hd _ Hc0 m).
Qed.

End BackpropFrame.

(** X18.  The kernel emitted by [_gen_llvm_training_backprop] for one
    stimulus never writes a weight: when it has run, the weight matrices,
    the stimuli, the targets and every field of the optimizer structure
    other than [delta_w] are as they were.  The weights change only in the
    optimizer step. *)
Theorem backprop_kernel_keeps_weights {F : Type} `{FloatTy F}
  (lossfunc : Loss -> vec F -> vec F -> nat -> F)
  (loss_differential : Loss -> vec F -> vec F -> nat -> vec F)
  (_DELTA_W_NUM : Optimizer -> nat) (ctx : LLVMBuilderContext F)
  (self : PytorchModelCreator F) (optimizer : Optimizer) (loss : Loss)
  (kernel : nat -> Code F) :
  _gen_llvm_training_backprop lossfunc loss_differential _DELTA_W_NUM ctx
                              self optimizer loss
  = Ok kernel ->
  forall input_idx m,
    keeps_weights (_DELTA_W_NUM optimizer) m (kernel input_idx m).
Proof.
  intros Hgen input_idx m.
  unfold _gen_llvm_training_backprop, _gen_llvm_forward_function_body
    in Hgen.
  destruct (forward_sets ctx self true 0 (execution_sets self))
    as [forward_code |] eqn:Hfw; [| discriminate].
  cbn [bind] in Hgen.
  set (z_values := z_values_keys self true) in Hgen.
  destruct (backprop_loop lossfunc loss_differential ctx self loss z_values
              (backprop_fuel self) (backprop_init self forward_code))
    as [st |] eqn:Hloop; [| discriminate].
  cbn [bind] in Hgen.
  destruct (compute_weight_gradients _DELTA_W_NUM self optimizer
              (error_dict st)) as [gradients |] eqn:Hgrad; [| discriminate].
  cbn [bind] in Hgen. injection Hgen as <-. cbv zeta.
  eapply keeps_weights_trans;
    [| unfold keeps_weights; cbn; repeat split; reflexivity].
  eapply keeps_weights_trans;
    [| exact (compute_weight_gradients_keep_weights _DELTA_W_NUM self _ _ _
                eq_refl _ Hgrad _)].
  apply (backprop_loop_keeps_weights lossfunc loss_differential ctx self _
           _ _ _ _ _ Hloop).
  intros idx m0. cbn [backprop_init code].
  eapply keeps_weights_trans;
    [| unfold keeps_weights; cbn; repeat split; reflexivity].
  eapply keeps_weights_trans; [apply copy_inputs_keeps_weights |].
  eapply forward_frame_keeps_weights.
  exact (forward_sets_frame ctx self true _ _ _ Hfw _).
Qed.

(** ** The training kernel as a sequence of calls *)

(** X21.  The kernel that [_gen_llvm_training_function_body] emits
    initializes the optimizer structure once and then makes, on the memory
    it is given, exactly these calls in this order: for every epoch from
    [0] below [epochs], and for every stimulus [i] from [0] below
    [num_inputs], first [zero_grad], then the backpropagation kernel of the
    one optimizer and loss that the composition names on stimulus [i], then
    the optimizer step. *)
Theorem training_kernel_runs_calls {F : Type} `{FloatTy F}
  (lossfunc : Loss -> vec F -> vec F -> nat -> F)
  (loss_differential : Loss -> vec F -> vec F -> nat -> vec F)
  (_DELTA_W_NUM : Optimizer -> nat)
  (initialize_optimizer_struct zero_grad optimizer_step : Optimizer -> Code F)
  (ctx : LLVMBuilderContext F) (self : PytorchModelCreator F)
  (kernel : nat -> nat -> Code F) :
  _gen_llvm_training_function_body lossfunc loss_differential _DELTA_W_NUM
    initialize_optimizer_struct zero_grad optimizer_step ctx self
  = Ok kernel ->
  exists optimizer backprop,
    optimizer = (if String.eqb (optimizer_type self) "adam"
                 then AdamOptimizer else SGDOptimizer)
    /\ loss_spec self = "mse"%string
    /\ _gen_llvm_training_backprop lossfunc loss_differential _DELTA_W_NUM
         ctx self optimizer MSELoss = Ok backprop
    /\ forall epochs num_inputs m,
         kernel epochs num_inputs m
         = fold_left
             (fun acc c =>
                run_call (zero_grad optimizer) backprop
                         (optimizer_step optimizer) c acc)
             (concat
                (map (fun epoch_idx =>
                        flat_map
                          (fun i => [ZeroGrad; Backprop i; OptimizerStep])
                          (seq 0 num_inputs))
                     (seq 0 epochs)))
             (initialize_optimizer_struct optimizer m).
Proof.
  intro Hgen. unfold _gen_llvm_training_function_body in Hgen.
  set (optimizer := if String.eqb (optimizer_type self) "adam"
                    then AdamOptimizer else SGDOptimizer).
  assert (Hopt : forall k : Optimizer -> result (nat -> nat -> Code F),
             bind (if String.eqb (optimizer_type self) "adam"
                   then Ok AdamOptimizer
                   else if String.eqb (optimizer_type self) "sgd"
                        then Ok SGDOptimizer
                        else Raise "OPTIMIZER TYPE NOT SUPPORTED") k
             = Ok kernel ->
             k optimizer = Ok kernel).
  { intros k. unfold optimizer.
    destruct (String.eqb (optimizer_type self) "adam"); [easy |].
    destruct (String.eqb (optimizer_type self) "sgd"); [easy |].
    discriminate. }
  apply Hopt in Hgen. clear Hopt.
  destruct (String.eqb_spec (loss_spec self) "mse") as [Hloss |];
    [| discriminate].
  cbn [bind] in Hgen.
  destruct (_gen_llvm_training_backprop lossfunc loss_differential
              _DELTA_W_NUM ctx self optimizer MSELoss) as [backprop |]
    eqn:Hbackprop; [| discriminate].
  cbn [bind] in Hgen. injection Hgen as <-.
  exists optimizer, backprop.
  split; [reflexivity | split; [exact Hloss | split; [exact Hbackprop |]]].
  intros epochs num_inputs m.
  change (fun i : nat => [ZeroGrad; Backprop i; OptimizerStep])
    with input_calls.
  rewrite <- training_trace_calls. apply training_loops_follow_trace.
Qed.

(** ** The layout of the parameter initializer *)

Section InitializerLayout.
Context {F : Type} `{FloatTy F}.
Variable self : PytorchModelCreator F.
Variable debug_env : list string.

Lemma list_set_length {A : Type} (l : list A) :
  forall (i : nat) (a : A) (l' : list A),
    list_set l i a = Ok l' -> length l' = length l.
Proof.
  induction l as [| x rest IH]; intros i a l' Hset; [discriminate |].
  destruct i as [| i'].
  - cbn in Hset. now injection Hset as <-.
  - cbn [list_set] in Hset.
    destruct (list_set rest i' a) as [rest' |] eqn:Hrest; [| discriminate].
    cbn in Hset. injection Hset as <-. cbn. f_equal. exact (IH _ _ _ Hrest).
Qed.

Lemma list_set_out_of_range {A : Type} (l : list A) :
  forall (i : nat) (a : A),
    length l <= i -> list_set l i a = Raise "IndexError".
Proof.
  induction l as [| x rest IH]; intros i a Hlen; [reflexivity |].
  destruct i as [| i']; cbn in Hlen; [lia |].
  cbn [list_set]. rewrite IH by lia. reflexivity.
Qed.

Lemma initialize_weights_length (n : node)
  (afferents : list (node * Tensor (mat F))) :
  forall weights weights',
    initialize_weights self debug_env n afferents weights = Ok weights' ->
    length weights' = length weights.
Proof.
  induction afferents as [| [a w] rest IH]; intros weights weights' Hinit.
  - cbn in Hinit. now injection Hinit as <-.
  - cbn [initialize_weights] in Hinit.
    destruct (_get_afferent_node_index self n a) as [[idx |] |];
      try discriminate.
    cbn [bind] in Hinit.
    destruct (list_set weights idx (Some (param_value debug_env w)))
      as [weights1 |] eqn:Hset; [| discriminate].
    cbn [bind] in Hinit.
    rewrite (IH _ _ Hinit). exact (list_set_length _ _ _ _ Hset).
Qed.

Lemma initialize_params_length (items : list (node * ForwardInfo F)) :
  forall param_list param_list',
    initialize_params self debug_env items param_list = Ok param_list' ->
    length param_list' = length param_list.
Proof.
  induction items as [| [n info] rest IH]; intros param_list param_list' Hinit.
  - cbn in Hinit. now injection Hinit as <-.
  - cbn [initialize_params] in Hinit.
    destruct (initialize_node self debug_env n info) as [np |];
      [| discriminate].
    cbn [bind] in Hinit.
    destruct (list_set param_list (get_node_index self n) (Some np))
      as [param_list1 |] eqn:Hset; [| discriminate].
    cbn [bind] in Hinit.
    rewrite (IH _ _ Hinit). exact (list_set_length _ _ _ _ Hset).
Qed.

(** X8.  The layout of the list that [_get_param_initializer] builds, for
    nodes with distinct indices: it has one entry for every node of the
    composition; the entry at the index of a node of the model holds a
    weight array with one place for each afferent, followed by a bias entry
    exactly when the node has a bias, which is the address of the bias
    tensor by default and its values under ["no_ref_pass"]; every other
    entry is [None]. *)
Theorem param_initializer_layout
  (param_list cached : list (option (NodeParams F))) :
  NoDup (map (fun p => get_node_index self (fst p))
             (component_to_forward_info self)) ->
  _get_param_initializer self debug_env None = Ok (param_list, cached) ->
  length param_list = composition_nodes self
  /\ (forall n info,
        In (n, info) (component_to_forward_info self) ->
        exists np,
          nth_error param_list (get_node_index self n) = Some (Some np)
          /\ length (weight_array np) = length (fi_afferents info)
          /\ bias_param np
             = option_map
                 (fun biases =>
                    if in_debug_env "no_ref_pass" debug_env
                    then Tuple (numpy biases)
                    else Address (data_ptr biases))
                 (fi_biases info))
  /\ (forall j,
        j < composition_nodes self ->
        ~ In j (map (fun p => get_node_index self (fst p))
                    (component_to_forward_info self)) ->
        nth_error param_list j = Some None).
Proof.
  intros Hidx Hinit. unfold _get_param_initializer in Hinit.
  destruct (initialize_params self debug_env (component_to_forward_info self)
              (repeat None (composition_nodes self)))
    as [raw |] eqn:Hraw; [| discriminate].
  cbn [bind] in Hinit.
  assert (Hret : param_list = _tupleize raw).
  { destruct (negb (in_debug_env "no_ref_pass" debug_env));
      injection Hinit as <- _; reflexivity. }
  subst param_list.
  destruct (initialize_params_entries self debug_env _ _ _ Hidx Hraw)
    as [Hall Hrest].
  split; [| split].
  - unfold _tupleize. rewrite length_map.
    rewrite (initialize_params_length _ _ _ Hraw). apply repeat_length.
  - intros n info Hin. destruct (Hall n info Hin) as [np [Hnode Hat]].
    eexists. split.
    + unfold _tupleize. rewrite nth_error_map, Hat. reflexivity.
    + unfold initialize_node in Hnode.
      destruct (initialize_weights self debug_env n (fi_afferents info)
                  (repeat None (length (fi_afferents info))))
        as [weights |] eqn:Hw; [| discriminate].
      cbn [bind] in Hnode. injection Hnode as <-.
      cbn [weight_array bias_param]. split.
      * rewrite length_map, (initialize_weights_length _ _ _ _ Hw).
        apply repeat_length.
      * destruct (fi_biases info) as [biases |]; [| reflexivity].
        cbn [option_map]. unfold param_value.
        now destruct (in_debug_env "no_ref_pass" debug_env).
  - intros j Hj Hnot. unfold _tupleize.
    rewrite nth_error_map, (Hrest j Hnot).
    rewrite (nth_error_repeat None Hj). reflexivity.
Qed.

Lemma initialize_params_out_of_range (items : list (node * ForwardInfo F)) :
  forall (param_list : list (option (NodeParams F))) n info,
    In (n, info) items ->
    length param_list <= get_node_index self n ->
    is_ok (initialize_params self debug_env items param_list) = false.
Proof.
  induction items as [| [n0 info0] rest IH];
    intros param_list n info Hin Hlen; [destruct Hin |].
  cbn [initialize_params].
  apply is_ok_bind_then. intro np.
  destruct Hin as [Heq | Hin].
  - injection Heq as -> ->.
    rewrite (list_set_out_of_range _ _ _ Hlen). reflexivity.
  - destruct (list_set param_list (get_node_index self n0) (Some np))
      as [param_list1 |] eqn:Hset; [| reflexivity].
    cbn [bind]. apply (IH _ n info Hin).
    now rewrite (list_set_length _ _ _ _ Hset).
Qed.

(** X9.  [_get_param_initializer] sizes its list by the nodes of the
    composition and writes at the index of every node of the model: when
    the index of some node of the model is not below
    [len(self._composition.nodes)], the assignment is out of range and the
    call raises instead of returning an initializer. *)
Theorem param_initializer_index_out_of_range (n : node)
  (info : ForwardInfo F) :
  In (n, info) (component_to_forward_info self) ->
  composition_nodes self <= get_node_index self n ->
  is_ok (_get_param_initializer self debug_env None) = false.
Proof.
  intros Hin Hlen. unfold _get_param_initializer.
  apply is_ok_bind_raise. apply is_ok_bind_raise.
  apply (initialize_params_out_of_range _ _ n info Hin).
  now rewrite repeat_length.
Qed.

End InitializerLayout.

(** ** The parameter structure type fits the initializer *)

Section StructTypeFits.
Context {F : Type} `{FloatTy F}.
Variable convert_matrix : mat F -> IrType.
Variable convert_vector : vec F -> IrType.
Variable self : PytorchModelCreator F.
Variable debug_env : list string.

Lemma list_set_map {A B : Type} (f : A -> B) (l : list A) :
  forall (i : nat) (a : A),
    list_set (map f l) i (f a)
    = (l' <- list_set l i a ;; Ok (map f l')).
Proof.
  induction l as [| x rest IH]; intros i a; [reflexivity |].
  destruct i as [| i']; [reflexivity |].
  cbn [map list_set]. rewrite IH.
  destruct (list_set rest i' a); reflexivity.
Qed.

Lemma param_type_of_value {A : Type} (convert : A -> IrType) (t : Tensor A) :
  param_type convert debug_env t
  = type_of_value convert (param_value debug_env t).
Proof.
  unfold param_type, param_value.
  now destruct (negb (in_debug_env "no_ref_pass" debug_env)).
Qed.

Lemma type_of_tupleized {A : Type} (convert : A -> IrType)
  (v : ParamValue A) :
  type_of_value convert (tupleize_value v) = type_of_value convert v.
Proof. now destruct v. Qed.

Lemma struct_weights_fit (n : node)
  (afferents : list (node * Tensor (mat F))) :
  forall weights : list (option (ParamValue (mat F))),
    struct_weights convert_matrix self debug_env n afferents
      (map (option_map (type_of_value convert_matrix)) weights)
    = (weights' <- initialize_weights self debug_env n afferents weights ;;
       Ok (map (option_map (type_of_value convert_matrix)) weights')).
Proof.
  induction afferents as [| [a w] rest IH]; intro weights; [reflexivity |].
  cbn [struct_weights initialize_weights].
  destruct (_get_afferent_node_index self n a) as [[idx |] |];
    try reflexivity.
  cbn [bind]. rewrite param_type_of_value.
  change (Some (type_of_value convert_matrix (param_value debug_env w)))
    with (option_map (type_of_value convert_matrix)
                     (Some (param_value debug_env w))).
  rewrite list_set_map.
  destruct (list_set weights idx (Some (param_value debug_env w)));
    [| reflexivity].
  cbn [bind]. apply IH.
Qed.

Lemma struct_node_fits (n : node) (info : ForwardInfo F) :
  struct_node convert_matrix convert_vector self debug_env n info
  = (np <- initialize_node self debug_env n info ;;
     Ok (type_of_node convert_matrix convert_vector np)).
Proof.
  unfold struct_node, initialize_node.
  change (repeat None (length (fi_afferents info)))
    with (repeat (@None IrType) (length (fi_afferents info))) at 1.
  replace (repeat (@None IrType) (length (fi_afferents info)))
    with (map (option_map (type_of_value convert_matrix))
              (repeat None (length (fi_afferents info))))
    by (rewrite map_repeat; reflexivity).
  rewrite struct_weights_fit.
  destruct (initialize_weights self debug_env n (fi_afferents info)
              (repeat None (length (fi_afferents info)))); [| reflexivity].
  cbn [bind]. unfold type_of_node. cbn [weight_array bias_param].
  destruct (fi_biases info) as [bias |]; [| reflexivity].
  cbn [option_map]. now rewrite param_type_of_value.
Qed.

Lemma struct_params_fit (items : list (node * ForwardInfo F)) :
  forall param_list : list (option (NodeParams F)),
    struct_params convert_matrix convert_vector self debug_env items
      (map (option_map (type_of_node convert_matrix convert_vector))
           param_list)
    = (param_list' <- initialize_params self debug_env items param_list ;;
       Ok (map (option_map (type_of_node convert_matrix convert_vector))
               param_list')).
Proof.
  induction items as [| [n info] rest IH]; intro param_list; [reflexivity |].
  cbn [struct_params initialize_params]. rewrite struct_node_fits.
  destruct (initialize_node self debug_env n info) as [np |];
    [| reflexivity].
  cbn [bind].
  change (Some (type_of_node convert_matrix convert_vector np))
    with (option_map (type_of_node convert_matrix convert_vector) (Some np)).
  rewrite list_set_map.
  destruct (list_set param_list (get_node_index self n) (Some np));
    [| reflexivity].
  cbn [bind]. apply IH.
Qed.

Lemma type_of_tupleized_params
  (param_list : list (option (NodeParams F))) :
  type_of_params convert_matrix convert_vector (_tupleize param_list)
  = type_of_params convert_matrix convert_vector param_list.
Proof.
  unfold type_of_params, _tupleize. f_equal. rewrite map_map.
  apply map_ext. intros [np |]; [| reflexivity].
  cbn [option_map]. f_equal. unfold type_of_node.
  cbn [weight_array bias_param].
  assert (Hweights :
            map (option_map (type_of_value convert_matrix))
                (map (option_map tupleize_value) (weight_array np))
            = map (option_map (type_of_value convert_matrix))
                  (weight_array np)).
  { rewrite map_map. apply map_ext.
    intros [v |]; [| reflexivity]. cbn [option_map].
    now rewrite type_of_tupleized. }
  rewrite Hweights.
  destruct (bias_param np) as [bias |]; [| reflexivity].
  cbn [option_map]. now rewrite type_of_tupleized.
Qed.

(** X7.  [_get_param_struct_type] and [_get_param_initializer] agree,
    under either setting of ["no_ref_pass"]: the structure type is built
    exactly when the initializer is (they raise the same error otherwise),
    and it is then the type of the initializer, place by place: a 64-bit
    integer where the initializer holds an address, the type of the array
    where it holds the values, [None] where it holds [None]. *)
Theorem param_struct_type_fits_initializer :
  _get_param_struct_type convert_matrix convert_vector self debug_env
  = (r <- _get_param_initializer self debug_env None ;;
     Ok (type_of_params convert_matrix convert_vector (fst r))).
Proof.
  unfold _get_param_struct_type, _get_param_initializer.
  replace (repeat None (composition_nodes self))
    with (map (option_map (type_of_node convert_matrix convert_vector))
              (repeat None (composition_nodes self))) at 1
    by (rewrite map_repeat; reflexivity).
  rewrite struct_params_fit.
  destruct (initialize_params self debug_env (component_to_forward_info self)
              (repeat None (composition_nodes self))) as [raw |];
    [| reflexivity].
  cbn [bind fst].
  fold (type_of_params convert_matrix convert_vector raw).
  destruct (negb (in_debug_env "no_ref_pass" debug_env)); cbn [fst];
    now rewrite ?type_of_tupleized_params.
Qed.

End StructTypeFits.

(** ** The interpreted activation functions *)

Section InterpretedActivation.
Local Open Scope R_scope.

Lemma map_load_seq {F : Type} `{FloatTy F} (f : F -> F) (v : vec F) :
  map (fun i => f (load v i)) (seq 0 (length v)) = map f v.
Proof.
  induction v as [| x rest IH]; [reflexivity |].
  cbn [length seq map]. f_equal.
  rewrite <- seq_shift, map_map. exact IH.
Qed.

(** X26.  The interpreted and the compiled model compute the same
    activation: over the reals, for a function the compiled model
    supports ([Linear] or [Logistic]), the closure made by
    [function_creator] maps a tensor to what the kernel of
    [bin_function_creator] computes from it, element by element. *)
Theorem function_creator_agrees_with_kernel (function : TransferFunction R)
  (modify : R -> R) (v : vec R) :
  modify_value function = Ok modify ->
  function_creator function v = function_loop modify v (length v).
Proof.
  intro Hm. unfold function_loop. rewrite map_load_seq.
  destruct function as [slope intercept | gain bias offset | gain bias leak];
    cbn in Hm; [| | discriminate]; injection Hm as <-.
  - reflexivity.
  - cbn. apply map_ext. intro x.
    now replace (- gain * (x - bias)) with (-1 * gain * (x - bias)) by ring.
Qed.

(** X27.  The function that [function_creator] makes for a [ReLU] (and for
    whatever else is neither [Linear] nor [Logistic]) is the leaky
    rectifier: over the reals an element [x] at or above the bias is mapped
    to [(x - bias) * gain], and one below it to [(x - bias) * leak]. *)
Theorem function_creator_relu (gain bias leak : R) (v : vec R) :
  function_creator (ReLU gain bias leak) v
  = map (fun x => if Rle_dec bias x
                  then (x - bias) * gain
                  else (x - bias) * leak) v.
Proof.
  cbn. apply map_ext. intro x.
  destruct (Rle_dec bias x) as [Hle | Hgt].
  - rewrite Rmax_left, Rmin_right by lra. ring.
  - rewrite Rmax_right, Rmin_left by lra. ring.
Qed.

(** X29.  The kernel of [bin_function_derivative_creator] for a [Logistic]
    node returns the derivative of the kernel of [bin_function_creator] for
    that node exactly when the gain is 1: the derivative of the activation
    is [gain] times what the derivative kernel computes, which is never
    zero. *)
Theorem logistic_derivative_kernel_right_iff_unit_gain
  (gain bias offset x : R) :
  exists f f' : R -> R,
    modify_value (Logistic gain bias offset) = Ok f
    /\ modify_value_derivative (Logistic gain bias offset) = Ok f'
    /\ derivable_pt_lim f x (gain * f' x)
    /\ (derivable_pt_lim f x (f' x) <-> gain = 1).
Proof.
  exists (logistic gain bias offset),
         (fun y => logistic gain bias offset y
                   * (1 - logistic gain bias offset y)).
  split; [reflexivity | split; [reflexivity |]].
  pose proof (logistic_derivative gain bias offset x) as Hd.
  split; [exact Hd |].
  assert (Hpos : 0 < logistic gain bias offset x
                     * (1 - logistic gain bias offset x)).
  { unfold logistic.
    pose proof (exp_pos (-1 * gain * (x - bias) + offset)) as He.
    set (e := exp (-1 * gain * (x - bias) + offset)) in *.
    replace (1 / (1 + e) * (1 - 1 / (1 + e)))
      with (e / ((1 + e) * (1 + e))) by (field; lra).
    apply Rdiv_lt_0_compat; [exact He | nra]. }
  split.
  - intro Hk.
    pose proof (uniqueness_limite _ _ _ _ Hd Hk) as Heq.
    cbv beta in Heq. nra.
  - intros ->. now rewrite Rmult_1_l in Hd.
Qed.

End InterpretedActivation.

(** ** What the accessors return *)

Section AccessorContents.
Variable ndarray : Type.

Lemma copy_all_contents (items : list (nat * nat)) :
  forall (h : heap ndarray) (out : list (nat * nat)),
    NoDup (map fst items) ->
    (forall key tensor, In (key, tensor) items -> tensor < length h) ->
    exists h' out',
      copy_all items h out = Ok (h', out')
      /\ (forall key tensor,
            In (key, tensor) items ->
            exists copy,
              dict_get out' key = Ok copy
              /\ nth_error h' copy = nth_error h tensor)
      /\ (forall key,
            ~ In key (map fst items) -> dict_get out' key = dict_get out key).
Proof.
  induction items as [| [key0 tensor0] rest IH]; intros h out Hnd Hin.
  - exists h, out. split; [reflexivity |]. split; [intros ? ? [] | reflexivity].
  - cbn [map fst] in Hnd. inversion Hnd as [| ? ? Hnotin Hnd']; subst.
    assert (Hlt : tensor0 < length h) by (apply (Hin key0); now left).
    destruct (nth_error h tensor0) as [x |] eqn:Hx;
      [| apply nth_error_None in Hx; lia].
    destruct (IH (h ++ [x]) (dict_set out key0 (length h)) Hnd')
      as (h' & out' & Hcopy & Hitems & Hother).
    { intros key tensor Hrest. rewrite length_app.
      pose proof (Hin key tensor (or_intror Hrest)). lia. }
    exists h', out'. split; [| split].
    + cbn [copy_all]. unfold np_copy. rewrite Hx. exact Hcopy.
    + intros key tensor [Heq | Hrest].
      * injection Heq as <- <-. exists (length h). split.
        -- rewrite (Hother key0 Hnotin). apply dict_get_set_same.
        -- destruct (copy_all_fresh ndarray _ _ _ _ _ Hcopy) as (_ & Hsame & _).
           rewrite Hsame by (rewrite length_app; cbn; lia).
           rewrite nth_error_app2 by lia. rewrite Nat.sub_diag. cbn.
           now symmetry.
      * destruct (Hitems key tensor Hrest) as (copy & Hget & Hval).
        exists copy. split; [exact Hget |]. rewrite Hval.
        apply nth_error_app1. apply (Hin key tensor). now right.
    + intros key Hkey. cbn [map fst In] in Hkey.
      rewrite Hother by tauto. apply dict_get_set_other. tauto.
Qed.

(** X30.  When the buffer of every tensor is in the heap, neither accessor
    fails, and the dict it returns binds every key of the model's dict (a
    projection for [get_weights_for_projections], a mechanism for
    [get_biases_for_mechanisms]) to an array with the contents the tensor
    of that key has at the time of the call, and binds nothing else. *)
Theorem accessors_return_current_values
  (projections_to_pytorch_weights mechanisms_to_pytorch_biases
     : list (nat * nat))
  (h : heap ndarray) :
  NoDup (map fst projections_to_pytorch_weights) ->
  NoDup (map fst mechanisms_to_pytorch_biases) ->
  (forall key tensor,
      In (key, tensor)
         (projections_to_pytorch_weights ++ mechanisms_to_pytorch_biases) ->
      tensor < length h) ->
  (exists h' out,
      get_weights_for_projections projections_to_pytorch_weights h
      = Ok (h', out)
      /\ (forall key tensor,
            In (key, tensor) projections_to_pytorch_weights ->
            exists copy,
              dict_get out key = Ok copy
              /\ nth_error h' copy = nth_error h tensor)
      /\ (forall key,
            ~ In key (map fst projections_to_pytorch_weights) ->
            dict_get out key = Raise "KeyError"))
  /\ (exists h' out,
        get_biases_for_mechanisms mechanisms_to_pytorch_biases h
        = Ok (h', out)
        /\ (forall key tensor,
              In (key, tensor) mechanisms_to_pytorch_biases ->
              exists copy,
                dict_get out key = Ok copy
                /\ nth_error h' copy = nth_error h tensor)
        /\ (forall key,
              ~ In key (map fst mechanisms_to_pytorch_biases) ->
              dict_get out key = Raise "KeyError")).
Proof.
  intros Hw Hb Hin.
  unfold get_weights_for_projections, get_biases_for_mechanisms.
  split.
  - destruct (copy_all_contents projections_to_pytorch_weights h [] Hw)
      as (h' & out & Hcopy & Hitems & Hother).
    { intros key tensor Hk. apply (Hin key). apply in_or_app. now left. }
    exists h', out. split; [exact Hcopy | split; [exact Hitems |]].
    intros key Hkey. now rewrite (Hother key Hkey).
  - destruct (copy_all_contents mechanisms_to_pytorch_biases h [] Hb)
      as (h' & out & Hcopy & Hitems & Hother).
    { intros key tensor Hk. apply (Hin key). apply in_or_app. now right. }
    exists h', out. split; [exact Hcopy | split; [exact Hitems |]].
    intros key Hkey. now rewrite (Hother key Hkey).
Qed.

End AccessorContents.

(** ** Python dicts *)

Lemma dict_set_keys {A : Type} (d : list (node * A)) (k : node) (a : A) :
  forall k', In k' (map fst (dict_set d k a)) <-> k' = k \/ In k' (map fst d).
Proof.
  induction d as [| [k0 a0] rest IH]; intro k'; cbn [dict_set].
  - cbn. intuition.
  - destruct (Nat.eqb_spec k0 k) as [-> | Hne]; cbn [map fst In].
    + intuition.
    + rewrite IH. intuition.
Qed.

Lemma dict_set_NoDup {A : Type} (d : list (node * A)) (k : node) (a : A) :
  NoDup (map fst d) -> NoDup (map fst (dict_set d k a)).
Proof.
  induction d as [| [k0 a0] rest IH]; intro Hnd; cbn [dict_set].
  - cbn. repeat constructor. easy.
  - cbn [map fst] in Hnd. inversion Hnd as [| ? ? Hnotin Hnd']; subst.
    destruct (Nat.eqb_spec k0 k) as [-> | Hne]; cbn [map fst].
    + now constructor.
    + constructor; [| now apply IH].
      rewrite dict_set_keys. intros [-> | Hin]; [now apply Hne | easy].
Qed.

Lemma dict_get_not_key {A : Type} (d : list (node * A)) (k : node) :
  ~ In k (map fst d) -> dict_get d k = Raise "KeyError".
Proof.
  induction d as [| [k0 a0] rest IH]; [reflexivity |].
  cbn [map fst In dict_get]. intro Hnot.
  destruct (Nat.eqb_spec k0 k); [tauto | apply IH; tauto].
Qed.

Lemma dict_get_key {A : Type} (d : list (node * A)) (k : node) (a : A) :
  dict_get d k = Ok a -> In k (map fst d).
Proof.
  induction d as [| [k0 a0] rest IH]; [discriminate |].
  cbn [map fst In dict_get].
  destruct (Nat.eqb_spec k0 k); [now left | right; now apply IH].
Qed.

(** ** What a call of [forward] returns and writes *)

Section ForwardCalls.
Context {F : Type} `{FloatTy F}.
Variable input_state_len : node -> nat.
Variable inputs : list (node * vec F).

(** The loop over the components of one set leaves the graph and the
    other nodes as they are and logs the components in order. *)
Lemma forward_components_store (do_logging : bool) (i : nat) (last : bool)
  (current_exec_set : list node) (frozen_values : list (node * vec F))
  (components : list node) :
  forall st st' : ForwardState F,
    forward_components input_state_len inputs do_logging i last
      current_exec_set frozen_values components st = Ok st' ->
    sim (infos st) (infos st')
    /\ (forall c, ~ In c components ->
                  dict_get (infos st') c = dict_get (infos st) c)
    /\ map fst (logged st')
       = map fst (logged st) ++ (if do_logging then components else [])
    /\ (last = false -> outputs st' = outputs st).
Proof.
  induction components as [| component rest IH]; intros st st' Hrun.
  - cbn in Hrun. injection Hrun as <-.
    split; [apply sim_refl |]. split; [reflexivity |].
    split; [| reflexivity].
    destruct do_logging; now rewrite app_nil_r.
  - cbn [forward_components] in Hrun.
    destruct (dict_get (infos st) component) as [info |] eqn:Hget;
      [| discriminate].
    cbn [bind] in Hrun.
    destruct (component_value input_state_len inputs (infos st) i
                current_exec_set frozen_values component info)
      as [value |]; [| discriminate].
    cbn [bind] in Hrun.
    apply IH in Hrun. cbn [outputs infos logged] in Hrun.
    destruct Hrun as (Hsim & Hother & Hlog & Hout).
    split; [| split; [| split]].
    + intro k. pose proof (Hsim k) as Hk.
      destruct (Nat.eq_dec component k) as [<- | Hne].
      * rewrite dict_get_set_same in Hk. rewrite Hget.
        destruct (dict_get (infos st') component); [| exact Hk].
        destruct Hk as (Hb & Hf & Ha). repeat split; cbn in *; assumption.
      * now rewrite dict_get_set_other in Hk.
    + intros c Hc. cbn [In] in Hc. rewrite Hother by tauto.
      apply dict_get_set_other. tauto.
    + rewrite Hlog. destruct do_logging; [| reflexivity].
      rewrite map_app, <- app_assoc. reflexivity.
    + intros ->. now rewrite Hout.
Qed.

(** In the last set every component is entered in [outputs] with the value
    stored for it. *)
Lemma forward_components_outputs (do_logging : bool) (i : nat)
  (current_exec_set : list node) (frozen_values : list (node * vec F))
  (components : list node) :
  forall st st' : ForwardState F,
    forward_components input_state_len inputs do_logging i true
      current_exec_set frozen_values components st = Ok st' ->
    NoDup (map fst (outputs st)) ->
    (forall c v,
        dict_get (outputs st) c = Ok v ->
        exists info, dict_get (infos st) c = Ok info /\ fi_value info = v) ->
    NoDup (map fst (outputs st'))
    /\ (forall c v,
          dict_get (outputs st') c = Ok v ->
          exists info,
            dict_get (infos st') c = Ok info /\ fi_value info = v)
    /\ (forall c,
          In c (map fst (outputs st'))
          <-> In c (map fst (outputs st)) \/ In c components).
Proof.
  induction components as [| component rest IH]; intros st st' Hrun Hnd Hq.
  - cbn in Hrun. injection Hrun as <-.
    split; [exact Hnd |]. split; [exact Hq |]. intro c. cbn. tauto.
  - cbn [forward_components] in Hrun.
    destruct (dict_get (infos st) component) as [info |] eqn:Hget;
      [| discriminate].
    cbn [bind] in Hrun.
    destruct (component_value input_state_len inputs (infos st) i
                current_exec_set frozen_values component info)
      as [value |]; [| discriminate].
    cbn [bind] in Hrun.
    apply IH in Hrun; cbn [outputs infos logged] in Hrun |- *.
    + destruct Hrun as (Hnd' & Hq' & Hkeys).
      split; [exact Hnd' |]. split; [exact Hq' |].
      intro c. rewrite Hkeys, dict_set_keys. cbn [In]. intuition.
    + now apply dict_set_NoDup.
    + intros c v Hc.
      destruct (Nat.eq_dec component c) as [<- | Hne].
      * rewrite dict_get_set_same in Hc. rewrite dict_get_set_same.
        injection Hc as <-. eexists. split; reflexivity.
      * rewrite dict_get_set_other in Hc by exact Hne.
        rewrite dict_get_set_other by exact Hne. now apply Hq.
Qed.

Lemma forward_loop_store (do_logging : bool) (total : nat)
  (sets : list (list node)) :
  forall (i : nat) (st st' : ForwardState F),
    forward_loop input_state_len inputs do_logging total i sets st = Ok st' ->
    sim (infos st) (infos st')
    /\ (forall c, ~ In c (concat sets) ->
                  dict_get (infos st') c = dict_get (infos st) c)
    /\ map fst (logged st')
       = map fst (logged st) ++ (if do_logging then concat sets else []).
Proof.
  induction sets as [| current_exec_set rest IH]; intros i st st' Hrun.
  - cbn in Hrun. injection Hrun as <-.
    split; [apply sim_refl |]. split; [reflexivity |].
    destruct do_logging; cbn; now rewrite app_nil_r.
  - cbn [forward_loop] in Hrun.
    destruct (freeze (infos st) current_exec_set []) as [frozen_values |];
      [| discriminate].
    cbn [bind] in Hrun.
    destruct (forward_components input_state_len inputs do_logging i
                (Nat.eqb i (total - 1)) current_exec_set frozen_values
                current_exec_set st) as [st1 |] eqn:Hset; [| discriminate].
    cbn [bind] in Hrun.
    destruct (forward_components_store _ _ _ _ _ _ _ _ Hset)
      as (Hsim1 & Hother1 & Hlog1 & _).
    destruct (IH _ _ _ Hrun) as (Hsim & Hother & Hlog).
    split; [| split].
    + intro k. pose proof (Hsim1 k) as H1. pose proof (Hsim k) as H2.
      destruct (dict_get (infos st) k), (dict_get (infos st1) k),
               (dict_get (infos st') k); try tauto.
      destruct H1 as (Hb1 & Hf1 & Ha1), H2 as (Hb2 & Hf2 & Ha2).
      repeat split; congruence.
    + intros c Hc. cbn [concat] in Hc.
      rewrite Hother, Hother1; [reflexivity | |];
        intro Hin; apply Hc; apply in_or_app; tauto.
    + rewrite Hlog, Hlog1. destruct do_logging; [| now rewrite !app_nil_r].
      cbn [concat]. now rewrite <- app_assoc.
Qed.

Lemma forward_loop_outputs (do_logging : bool) (total : nat)
  (sets : list (list node)) :
  forall (i : nat) (st st' : ForwardState F),
    i + length sets = total ->
    outputs st = [] ->
    forward_loop input_state_len inputs do_logging total i sets st = Ok st' ->
    NoDup (map fst (outputs st'))
    /\ (forall c v,
          dict_get (outputs st') c = Ok v ->
          exists info,
            dict_get (infos st') c = Ok info /\ fi_value info = v)
    /\ (forall c, In c (map fst (outputs st')) <-> In c (last sets [])).
Proof.
  induction sets as [| current_exec_set rest IH]; intros i st st' Hi Hout Hrun.
  - cbn in Hrun. injection Hrun as <-. rewrite Hout.
    split; [constructor |]. split; [discriminate |]. cbn. tauto.
  - cbn [forward_loop] in Hrun.
    destruct (freeze (infos st) current_exec_set []) as [frozen_values |];
      [| discriminate].
    cbn [bind] in Hrun.
    destruct (forward_components input_state_len inputs do_logging i
                (Nat.eqb i (total - 1)) current_exec_set frozen_values
                current_exec_set st) as [st1 |] eqn:Hset; [| discriminate].
    cbn [bind] in Hrun. cbn [length] in Hi.
    destruct rest as [| next rest'].
    + cbn in Hrun. injection Hrun as <-.
      replace (Nat.eqb i (total - 1)) with true in Hset
        by (symmetry; apply Nat.eqb_eq; cbn in Hi; lia).
      apply forward_components_outputs in Hset.
      * destruct Hset as (Hnd & Hq & Hkeys).
        split; [exact Hnd |]. split; [exact Hq |].
        intro c. rewrite Hkeys, Hout. cbn. tauto.
      * rewrite Hout. constructor.
      * rewrite Hout. discriminate.
    + replace (Nat.eqb i (total - 1)) with false in Hset
        by (symmetry; apply Nat.eqb_neq; cbn in Hi; lia).
      destruct (forward_components_store _ _ _ _ _ _ _ _ Hset)
        as (_ & _ & _ & Hsame).
      apply (IH (S i) st1 st'); [cbn in Hi |- *; lia | | exact Hrun].
      now rewrite (Hsame eq_refl).
Qed.

Lemma copy_outputs_written (outs : list (node * vec F)) :
  forall host : Host F,
    NoDup (map fst outs) ->
    let host' := copy_outputs_to_psyneulink outs host in
    (forall c v,
        dict_get outs c = Ok v ->
        dict_get (parameters_value host') c = Ok v
        /\ dict_get (output_state_value host') c = Ok v)
    /\ (forall c,
          ~ In c (map fst outs) ->
          dict_get (parameters_value host') c
          = dict_get (parameters_value host) c
          /\ dict_get (output_state_value host') c
             = dict_get (output_state_value host) c)
    /\ value_log host' = value_log host
    /\ matrix_log host' = matrix_log host
    /\ time_steps host' = time_steps host.
Proof.
  unfold copy_outputs_to_psyneulink.
  induction outs as [| [c0 v0] rest IH]; intros host Hnd.
  - cbn. repeat split; try reflexivity; discriminate.
  - cbn [map fst] in Hnd. inversion Hnd as [| ? ? Hnotin Hnd']; subst.
    cbn [fold_left fst snd].
    set (host1 := {| parameters_value :=
                       dict_set (parameters_value host) c0 v0;
                     output_state_value :=
                       dict_set (output_state_value host) c0 v0;
                     value_log := value_log host;
                     matrix_log := matrix_log host;
                     time_steps := time_steps host |}).
    destruct (IH host1 Hnd') as (Hin & Hout & Hvl & Hml & Hts).
    cbv zeta in Hin, Hout, Hvl, Hml, Hts |- *.
    split; [| split; [| repeat split; assumption]].
    + intros c v Hc. cbn [dict_get] in Hc.
      destruct (Nat.eqb_spec c0 c) as [<- | Hne].
      * injection Hc as <-.
        destruct (Hout c0 Hnotin) as [-> ->]. cbn.
        now rewrite !dict_get_set_same.
      * now apply Hin.
    + intros c Hc. cbn [map fst In] in Hc.
      destruct (Hout c) as [-> ->]; [tauto |]. cbn.
      rewrite !dict_get_set_other by tauto. now split.
Qed.

(** X22.  What [forward] returns and copies to the mechanisms: [outputs]
    has exactly the nodes of the last execution set as keys; the value
    returned for a node is the value stored for it in the forward
    information, and [copy_outputs_to_psyneulink] has written this value
    into the value parameter of the mechanism and of its output state.
    The value parameters of all other mechanisms are as before the call. *)
Theorem forward_returns_last_set (execution_sets : list (list node))
  (projections_to_pytorch_weights : list (nat * Tensor (mat F)))
  (do_logging scheduler : bool)
  (component_to_forward_info infos' : list (node * ForwardInfo F))
  (host host' : Host F) (outs : list (node * vec F)) :
  forward input_state_len execution_sets projections_to_pytorch_weights
          inputs do_logging scheduler component_to_forward_info host
  = Ok (outs, infos', host') ->
  (forall c, In c (map fst outs) <-> In c (last execution_sets []))
  /\ (forall c v,
        dict_get outs c = Ok v ->
        (exists info, dict_get infos' c = Ok info /\ fi_value info = v)
        /\ dict_get (parameters_value host') c = Ok v
        /\ dict_get (output_state_value host') c = Ok v)
  /\ (forall c,
        ~ In c (last execution_sets []) ->
        dict_get (parameters_value host') c
        = dict_get (parameters_value host) c
        /\ dict_get (output_state_value host') c
           = dict_get (output_state_value host) c).
Proof.
  intro Hfwd. unfold forward in Hfwd.
  destruct (forward_loop input_state_len inputs do_logging
              (length execution_sets) 0 execution_sets
              {| infos := component_to_forward_info; outputs := [];
                 logged := [] |}) as [st |] eqn:Hloop; [| discriminate].
  cbn [bind] in Hfwd. injection Hfwd as <- <- <-.
  pose proof (fun Hi Ho => forward_loop_outputs _ _ _ _ _ _ Hi Ho Hloop)
    as Houtputs.
  destruct (Houtputs eq_refl eq_refl) as (Hnd & Hq & Hkeys).
  cbn [parameters_value output_state_value].
  match goal with
  | |- context [copy_outputs_to_psyneulink (outputs st) ?h] =>
      destruct (copy_outputs_written (outputs st) h Hnd)
        as (Hin & Hout & _)
  end.
  cbv zeta in Hin, Hout. cbn [parameters_value output_state_value] in Hout.
  split; [exact Hkeys |]. split.
  - intros c v Hc. split; [now apply Hq | now apply Hin].
  - intros c Hc. apply Hout. now rewrite Hkeys.
Qed.

(** X23.  A call of [forward] changes nothing but stored values: the
    biases, the function and the afferents with their weights are the same
    for every node afterwards, and the forward information of a node that
    is in no execution set is as before, its value included. *)
Theorem forward_changes_values_only (execution_sets : list (list node))
  (projections_to_pytorch_weights : list (nat * Tensor (mat F)))
  (do_logging scheduler : bool)
  (component_to_forward_info infos' : list (node * ForwardInfo F))
  (host host' : Host F) (outs : list (node * vec F)) :
  forward input_state_len execution_sets projections_to_pytorch_weights
          inputs do_logging scheduler component_to_forward_info host
  = Ok (outs, infos', host') ->
  (forall c info,
      dict_get component_to_forward_info c = Ok info ->
      exists info',
        dict_get infos' c = Ok info'
        /\ fi_biases info' = fi_biases info
        /\ fi_function info' = fi_function info
        /\ fi_afferents info' = fi_afferents info)
  /\ (forall c,
        ~ In c (concat execution_sets) ->
        dict_get infos' c = dict_get component_to_forward_info c).
Proof.
  intro Hfwd. unfold forward in Hfwd.
  destruct (forward_loop input_state_len inputs do_logging
              (length execution_sets) 0 execution_sets
              {| infos := component_to_forward_info; outputs := [];
                 logged := [] |}) as [st |] eqn:Hloop; [| discriminate].
  cbn [bind] in Hfwd. injection Hfwd as _ <- _.
  destruct (forward_loop_store _ _ _ _ _ _ Hloop) as (Hsim & Hother & _).
  cbn [infos] in Hsim, Hother. split; [| exact Hother].
  intros c info Hget. specialize (Hsim c). rewrite Hget in Hsim.
  destruct (dict_get (infos st) c) as [info' |]; [| contradiction].
  destruct Hsim as (Hb & Hf & Ha). exists info'. now repeat split.
Qed.

(** X24.  The bookkeeping of [forward]: with [do_logging] it logs one value
    for every component of every execution set, in the order of the sets,
    and every projection matrix of the model; without it the logs are as
    before.  The clock advances by one time step for every execution set
    exactly when a scheduler is passed. *)
Theorem forward_logs_and_clock (execution_sets : list (list node))
  (projections_to_pytorch_weights : list (nat * Tensor (mat F)))
  (do_logging scheduler : bool)
  (component_to_forward_info infos' : list (node * ForwardInfo F))
  (host host' : Host F) (outs : list (node * vec F)) :
  forward input_state_len execution_sets projections_to_pytorch_weights
          inputs do_logging scheduler component_to_forward_info host
  = Ok (outs, infos', host') ->
  (exists logged,
      value_log host' = value_log host ++ logged
      /\ map fst logged
         = (if do_logging then concat execution_sets else []))
  /\ matrix_log host'
     = matrix_log host
       ++ (if do_logging
           then map (fun p => (fst p, numpy (snd p)))
                    projections_to_pytorch_weights
           else [])
  /\ time_steps host'
     = (if scheduler then time_steps host + length execution_sets
        else time_steps host).
Proof.
  intro Hfwd. unfold forward in Hfwd.
  destruct (forward_loop input_state_len inputs do_logging
              (length execution_sets) 0 execution_sets
              {| infos := component_to_forward_info; outputs := [];
                 logged := [] |}) as [st |] eqn:Hloop; [| discriminate].
  cbn [bind] in Hfwd. injection Hfwd as _ _ <-.
  destruct (forward_loop_store _ _ _ _ _ _ Hloop) as (_ & _ & Hlog).
  cbn [logged map app] in Hlog.
  cbn [value_log matrix_log time_steps].
  match goal with
  | |- context [copy_outputs_to_psyneulink (outputs st) ?h] =>
      assert (Hcopy : value_log (copy_outputs_to_psyneulink (outputs st) h)
                      = value_log h
                      /\ matrix_log (copy_outputs_to_psyneulink (outputs st) h)
                         = matrix_log h
                      /\ time_steps (copy_outputs_to_psyneulink (outputs st) h)
                         = time_steps h)
  end.
  { unfold copy_outputs_to_psyneulink.
    generalize (outputs st) as l. intro l.
    match goal with |- context [fold_left _ l ?h] => generalize h end.
    induction l as [| p rest IH]; intro h0; [now repeat split |].
    cbn [fold_left]. destruct (IH
      {| parameters_value := dict_set (parameters_value h0) (fst p) (snd p);
         output_state_value :=
           dict_set (output_state_value h0) (fst p) (snd p);
         value_log := value_log h0;
         matrix_log := matrix_log h0;
         time_steps := time_steps h0 |}) as (H1 & H2 & H3).
    now rewrite H1, H2, H3. }
  destruct Hcopy as (Hv & Hm & Ht). rewrite Hv, Hm, Ht.
  cbn [value_log matrix_log time_steps].
  split; [exists (logged st); split; [reflexivity | exact Hlog] |].
  split; [| reflexivity].
  destruct do_logging; [reflexivity | now rewrite app_nil_r].
Qed.

Lemma forward_components_missing_input (do_logging last : bool)
  (current_exec_set : list node) (frozen_values : list (node * vec F))
  (c : node) (components : list node) :
  In c components ->
  is_ok (dict_get inputs c) = false ->
  forall st : ForwardState F,
    is_ok (forward_components input_state_len inputs do_logging 0 last
             current_exec_set frozen_values components st) = false.
Proof.
  intros Hin Hmiss.
  induction components as [| component rest IH]; intro st; [destruct Hin |].
  cbn [forward_components]. apply is_ok_bind_then. intro info.
  destruct Hin as [-> | Hin].
  - apply is_ok_bind_raise. unfold component_value. cbn [Nat.eqb].
    now apply is_ok_bind_raise.
  - apply is_ok_bind_then. intro value. now apply IH.
Qed.

(** X25.  [forward] reads [inputs[component]] for every node of the first
    execution set: when the inputs have no entry for one of them, the call
    raises and returns nothing. *)
Theorem forward_missing_input_raises (first : list node)
  (later : list (list node))
  (projections_to_pytorch_weights : list (nat * Tensor (mat F)))
  (do_logging scheduler : bool)
  (component_to_forward_info : list (node * ForwardInfo F))
  (host : Host F) (c : node) :
  In c first ->
  is_ok (dict_get inputs c) = false ->
  is_ok (forward input_state_len (first :: later)
                 projections_to_pytorch_weights inputs do_logging scheduler
                 component_to_forward_info host)
  = false.
Proof.
  intros Hin Hmiss. unfold forward. apply is_ok_bind_raise.
  cbn [forward_loop]. apply is_ok_bind_then. intro frozen_values.
  apply is_ok_bind_raise.
  now apply forward_components_missing_input with (c := c).
Qed.

(** C9, as the code has it.  When the execution sets are a valid schedule
    of the graph, then after [forward] returns
    - the forward information of the model holds, for every node of every
      execution set, the value of one propagation of the inputs: the
      node's function applied to its input in the first set, and applied
      to the weighted sum of the stored values of its senders plus its
      bias in the other sets;
    - the returned [outputs] have exactly the nodes of the last execution
      set as keys, each with the value stored for it, and
      [copy_outputs_to_psyneulink] has written that value into the value
      parameter of the mechanism and of its output state;
    - the value parameters of every node outside the last execution set
      are as they were before the call: the values of these nodes are
      kept in the model only. *)
Theorem forward_stores_all_values_copies_last_set
  (execution_sets : list (list node))
  (projections_to_pytorch_weights : list (nat * Tensor (mat F)))
  (do_logging scheduler : bool)
  (component_to_forward_info infos' : list (node * ForwardInfo F))
  (host host' : Host F) (outs : list (node * vec F)) :
  valid_schedule execution_sets component_to_forward_info = true ->
  forward input_state_len execution_sets projections_to_pytorch_weights
          inputs do_logging scheduler component_to_forward_info host
  = Ok (outs, infos', host') ->
  (forall i current_exec_set c,
      nth_error execution_sets i = Some current_exec_set ->
      In c current_exec_set ->
      exists info,
        dict_get infos' c = Ok info
        /\ spec_node_value input_state_len inputs infos' i c info
           = Ok (fi_value info))
  /\ (forall c, In c (map fst outs) <-> In c (last execution_sets []))
  /\ (forall c v,
        dict_get outs c = Ok v ->
        (exists info, dict_get infos' c = Ok info /\ fi_value info = v)
        /\ dict_get (parameters_value host') c = Ok v
        /\ dict_get (output_state_value host') c = Ok v)
  /\ (forall c,
        ~ In c (last execution_sets []) ->
        dict_get (parameters_value host') c
        = dict_get (parameters_value host) c
        /\ dict_get (output_state_value host') c
           = dict_get (output_state_value host) c).
Proof.
  intros Hvalid Hfwd.
  split.
  { exact (forward_values_reflect_one_propagation input_state_len inputs
             execution_sets projections_to_pytorch_weights do_logging
             scheduler component_to_forward_info infos' host host' outs
             Hvalid Hfwd). }
  unfold forward in Hfwd.
  destruct (forward_loop input_state_len inputs do_logging
              (length execution_sets) 0 execution_sets
              {| infos := component_to_forward_info; outputs := [];
                 logged := [] |}) as [st |] eqn:Hloop; [| discriminate].
  cbn [bind] in Hfwd. injection Hfwd as <- <- <-.
  pose proof (fun Hi Ho => forward_loop_outputs _ _ _ _ _ _ Hi Ho Hloop)
    as Houtputs.
  destruct (Houtputs eq_refl eq_refl) as (Hnd & Hq & Hkeys).
  cbn [parameters_value output_state_value].
  match goal with
  | |- context [copy_outputs_to_psyneulink (outputs st) ?h] =>
      destruct (copy_outputs_written (outputs st) h Hnd)
        as (Hin & Hout & _)
  end.
  cbv zeta in Hin, Hout. cbn [parameters_value output_state_value] in Hout.
  split; [exact Hkeys |]. split.
  - intros c v Hc. split; [now apply Hq | now apply Hin].
  - intros c Hc. apply Hout. now rewrite Hkeys.
Qed.

End ForwardCalls.

(** ** The model that [__init__] builds *)

Section Constructed.
Context {F : Type} `{FloatTy F} `{TorchTy F}.
Variable torch_rand : nat -> nat * nat -> mat F.
Variable composition : Composition F.
Variable param_init_from_pnl : bool.

Lemma init_afferents_facts (path : list nat) :
  forall (afferents afferents' : list (node * Tensor (mat F)))
         (st st' : Model F),
    init_afferents torch_rand composition param_init_from_pnl path afferents
                   st
    = Ok (afferents', st') ->
    forward_infos st' = forward_infos st
    /\ mechanisms_to_pytorch_biases st' = mechanisms_to_pytorch_biases st
    /\ parameter_list st'
       = parameter_list st ++ seq (next_buffer st) (length path)
    /\ next_buffer st' = next_buffer st + length path
    /\ (NoDup (map fst afferents) -> NoDup (map fst afferents'))
    /\ (forall a,
          In a (map fst afferents') ->
          In a (map fst afferents)
          \/ exists mapping_proj,
               In mapping_proj path
               /\ sender_owner composition mapping_proj = a)
    /\ (NoDup (map fst (projections_to_pytorch_weights st)) ->
        NoDup (map fst (projections_to_pytorch_weights st')))
    /\ (forall mapping_proj t,
          In (mapping_proj, t) (projections_to_pytorch_weights st') ->
          In (mapping_proj, t) (projections_to_pytorch_weights st)
          \/ (In mapping_proj path
              /\ weights_of torch_rand composition param_init_from_pnl
                            mapping_proj t
              /\ next_buffer st <= data_ptr t < next_buffer st')).
Proof.
  induction path as [| mapping_proj rest IH];
    intros afferents afferents' st st' Hinit.
  - cbn in Hinit. injection Hinit as <- <-. cbn [length seq].
    rewrite app_nil_r, Nat.add_0_r.
    repeat split; try reflexivity; try tauto; intros; now left.
  - cbn [init_afferents] in Hinit.
    destruct (negb (node_mem (sender_owner composition mapping_proj)
                             (comp_to_vertex composition)));
      [discriminate |].
    apply IH in Hinit.
    cbn [forward_infos mechanisms_to_pytorch_biases parameter_list
         next_buffer projections_to_pytorch_weights data_ptr] in Hinit.
    destruct Hinit as (Hfi & Hb & Hpl & Hnb & Hnd & Hkeys & Hwnd & Hw).
    split; [exact Hfi |]. split; [exact Hb |].
    split; [rewrite Hpl, <- app_assoc; reflexivity |].
    split; [rewrite Hnb; cbn [length]; lia |].
    split; [intro Hnd0; apply Hnd; now apply dict_set_NoDup |].
    split; [| split].
    + intros a Ha. destruct (Hkeys a Ha) as [Hset | (p & Hp & Hs)].
      * apply dict_set_keys in Hset. destruct Hset as [-> | Hold];
          [right; exists mapping_proj; split; [now left | reflexivity]
          | now left].
      * right. exists p. split; [now right | exact Hs].
    + intro Hnd0. apply Hwnd. now apply dict_set_NoDup.
    + intros p t Hin. destruct (Hw p t Hin) as [Hset | (Hp & Hof & Hrange)].
      * apply dict_set_In in Hset. destruct Hset as [Heq | Hold];
          [| now left].
        injection Heq as -> ->. right. split; [now left |]. split.
        -- unfold weights_of. cbn [numpy].
           destruct param_init_from_pnl; [reflexivity |].
           now exists (rand_calls st).
        -- cbn [data_ptr]. lia.
      * right. split; [now right |]. split; [exact Hof | lia].
Qed.

Lemma init_component_facts (i : nat) (component : node) (st st' : Model F) :
  init_component torch_rand composition param_init_from_pnl i component st
  = Ok st' ->
  (exists info,
      forward_infos st' = dict_set (forward_infos st) component info
      /\ fi_function info
         = function_creator (component_function composition component)
      /\ (i = 0 -> fi_biases info = None /\ fi_afferents info = [])
      /\ (param_init_from_pnl = true -> fi_biases info = None)
      /\ NoDup (map fst (fi_afferents info))
      /\ (forall a,
            In a (map fst (fi_afferents info)) ->
            exists mapping_proj,
              In mapping_proj (path_afferents composition component)
              /\ sender_owner composition mapping_proj = a))
  /\ (param_init_from_pnl = true ->
      mechanisms_to_pytorch_biases st' = mechanisms_to_pytorch_biases st)
  /\ parameter_list st'
     = parameter_list st
       ++ seq (next_buffer st)
              (created_parameters composition param_init_from_pnl i
                                  component)
  /\ next_buffer st'
     = next_buffer st
       + created_parameters composition param_init_from_pnl i component
  /\ (NoDup (map fst (projections_to_pytorch_weights st)) ->
      NoDup (map fst (projections_to_pytorch_weights st')))
  /\ (forall mapping_proj t,
        In (mapping_proj, t) (projections_to_pytorch_weights st') ->
        In (mapping_proj, t) (projections_to_pytorch_weights st)
        \/ (i <> 0
            /\ In mapping_proj (path_afferents composition component)
            /\ weights_of torch_rand composition param_init_from_pnl
                          mapping_proj t
            /\ next_buffer st <= data_ptr t < next_buffer st')).
Proof.
  intro Hinit. unfold init_component in Hinit.
  match type of Hinit with
  | bind ?v _ = _ => destruct v as [value |]; [| discriminate]
  end.
  cbn [bind] in Hinit. unfold created_parameters.
  destruct (Nat.eqb_spec i 0) as [-> | Hi]; cbn [negb bind] in Hinit.
  - injection Hinit as <-.
    cbn [forward_infos mechanisms_to_pytorch_biases parameter_list
         next_buffer projections_to_pytorch_weights].
    cbn [seq]. rewrite app_nil_r, Nat.add_0_r.
    split; [| repeat split; try reflexivity; try tauto; intros; now left].
    eexists. split; [reflexivity |].
    cbn [fi_function fi_biases fi_afferents map].
    repeat split; try reflexivity; try constructor. intros a [].
  - destruct (init_biases composition param_init_from_pnl component st)
      as [biases st1] eqn:Hbias.
    destruct (init_afferents torch_rand composition param_init_from_pnl
                (path_afferents composition component) [] st1)
      as [[afferents st2] |] eqn:Haff; [| discriminate].
    cbn [bind fst snd] in Hinit. injection Hinit as <-.
    cbn [forward_infos mechanisms_to_pytorch_biases parameter_list
         next_buffer projections_to_pytorch_weights].
    destruct (init_afferents_facts _ _ _ _ _ Haff)
      as (Hfi & Hb & Hpl & Hnb & Hnd & Hkeys & Hwnd & Hw).
    assert (Hst1 : forward_infos st1 = forward_infos st
                   /\ projections_to_pytorch_weights st1
                      = projections_to_pytorch_weights st
                   /\ (param_init_from_pnl = true ->
                       biases = None
                       /\ mechanisms_to_pytorch_biases st1
                          = mechanisms_to_pytorch_biases st)
                   /\ parameter_list st1
                      = parameter_list st
                        ++ seq (next_buffer st)
                               (if param_init_from_pnl then 0 else 1)
                   /\ next_buffer st1
                      = next_buffer st
                        + (if param_init_from_pnl then 0 else 1)).
    { unfold init_biases in Hbias.
      destruct param_init_from_pnl; cbn [negb] in Hbias;
        injection Hbias as <- <-; cbn.
      - rewrite app_nil_r, Nat.add_0_r. now repeat split.
      - repeat split; try reflexivity; try discriminate. lia. }
    destruct Hst1 as (Hfi1 & Hw1 & Hb1 & Hpl1 & Hnb1).
    split; [| split; [| split; [| split; [| split]]]].
    + eexists. split; [rewrite Hfi, Hfi1; reflexivity |].
      cbn [fi_function fi_biases fi_afferents].
      split; [reflexivity |]. split; [intro; contradiction |].
      split; [intro Hpnl; now apply Hb1 |].
      split; [apply Hnd; constructor |].
      intros a Ha. destruct (Hkeys a Ha) as [[] | Hp]. exact Hp.
    + intro Hpnl. rewrite Hb. now apply Hb1.
    + rewrite Hpl, Hpl1, <- app_assoc. f_equal.
      rewrite Hnb1. symmetry. apply seq_app.
    + rewrite Hnb, Hnb1. lia.
    + rewrite <- Hw1. exact Hwnd.
    + intros p t Hin. destruct (Hw p t Hin) as [Hold | (Hp & Hof & Hrange)].
      * left. now rewrite <- Hw1.
      * right. split; [exact Hi |]. split; [exact Hp |].
        split; [exact Hof | lia].
Qed.

(** A property of the model and of the components handled so far that
    every pass of the loop body keeps holds when the loops are left. *)
Lemma init_sets_invariant (P : list (nat * node) -> Model F -> Prop) :
  (forall done i component st st',
      init_component torch_rand composition param_init_from_pnl i component
                     st = Ok st' ->
      P done st -> P (done ++ [(i, component)]) st') ->
  forall (sets : list (list node)) (i : nat) (done : list (nat * node))
         (st st' : Model F),
    init_sets torch_rand composition param_init_from_pnl i sets st
    = Ok st' ->
    P done st -> P (done ++ scheduled i sets) st'.
Proof.
  intro Hstep.
  assert (Hset : forall components i done st st',
             init_exec_set torch_rand composition param_init_from_pnl i
                           components st = Ok st' ->
             P done st -> P (done ++ map (pair i) components) st').
  { induction components as [| component rest IH];
      intros i done st st' Hinit Hp.
    - cbn in Hinit. injection Hinit as <-. cbn. now rewrite app_nil_r.
    - cbn [init_exec_set] in Hinit.
      destruct (init_component torch_rand composition param_init_from_pnl i
                  component st) as [st1 |] eqn:Hc; [| discriminate].
      cbn [bind] in Hinit. cbn [map].
      replace (done ++ (i, component) :: map (pair i) rest)
        with ((done ++ [(i, component)]) ++ map (pair i) rest)
        by (rewrite <- app_assoc; reflexivity).
      apply (IH i _ st1 st' Hinit). exact (Hstep _ _ _ _ _ Hc Hp). }
  induction sets as [| current_exec_set rest IH];
    intros i done st st' Hinit Hp.
  - cbn in Hinit. injection Hinit as <-. cbn. now rewrite app_nil_r.
  - cbn [init_sets] in Hinit.
    destruct (init_exec_set torch_rand composition param_init_from_pnl i
                current_exec_set st) as [st1 |] eqn:Hs; [| discriminate].
    cbn [bind] in Hinit. cbn [scheduled]. rewrite app_assoc.
    apply (IH (S i) _ st1 st' Hinit). exact (Hset _ _ _ _ _ Hs Hp).
Qed.


Lemma scheduled_later (sets : list (list node)) :
  forall i j c, In (j, c) (scheduled i sets) -> i <= j /\ In c (concat sets).
Proof.
  induction sets as [| s rest IH]; intros i j c Hin; [destruct Hin |].
  cbn [scheduled concat] in Hin |- *. apply in_app_or in Hin.
  destruct Hin as [Hin | Hin].
  - apply in_map_iff in Hin. destruct Hin as (c' & Heq & Hc').
    injection Heq as <- <-. split; [lia | apply in_or_app; now left].
  - destruct (IH _ _ _ Hin) as [Hle Hc].
    split; [lia | apply in_or_app; now right].
Qed.

Lemma created_parameters_later (sets : list (list node)) :
  forall i,
    list_sum (map (fun p => created_parameters composition
                              param_init_from_pnl (fst p) (snd p))
                  (scheduled (S i) sets))
    = list_sum (map (fun c => (if param_init_from_pnl then 0 else 1)
                              + length (path_afferents composition c))
                    (concat sets)).
Proof.
  induction sets as [| s rest IH]; intro i; [reflexivity |].
  cbn [scheduled concat]. rewrite !map_app, !list_sum_app, IH. f_equal.
  rewrite map_map. reflexivity.
Qed.

Lemma created_parameters_first (s : list node) :
  list_sum (map (fun p => created_parameters composition param_init_from_pnl
                            (fst p) (snd p))
                (map (pair 0) s)) = 0.
Proof. induction s as [| c rest IH]; [reflexivity | exact IH]. Qed.

End Constructed.

Section ConstructedModel.
Context {F : Type} `{FloatTy F} `{TorchTy F}.
Variable torch_rand : nat -> nat * nat -> mat F.
Variable composition : Composition F.

(** X1.  A model made with [param_init_from_pnl] has no biases, as the
    comment on [get_biases_for_mechanisms] says: no node holds a bias in
    its forward information, [mechanisms_to_pytorch_biases] is empty, and
    [get_biases_for_mechanisms] returns the empty dict without touching
    the heap. *)
Theorem init_from_pnl_makes_no_biases (execution_sets : list (list node))
  (first_buffer : nat)
  (matrix_parameter matrix_parameter' : list (nat * Tensor (mat F)))
  (self : Model F) :
  __init__ torch_rand composition true execution_sets first_buffer
           matrix_parameter
  = Ok (self, matrix_parameter') ->
  mechanisms_to_pytorch_biases self = []
  /\ (forall c info, In (c, info) (forward_infos self) ->
                     fi_biases info = None)
  /\ forall (ndarray : Type) (h : heap ndarray),
       get_biases_for_mechanisms
         (map (fun p => (fst p, data_ptr (snd p)))
              (mechanisms_to_pytorch_biases self)) h
       = Ok (h, []).
Proof.
  intro Hinit. unfold __init__ in Hinit.
  match type of Hinit with
  | bind (init_sets _ _ _ _ _ ?st0) _ = _ =>
      destruct (init_sets torch_rand composition true 0 execution_sets st0)
        as [st |] eqn:Hsets; [| discriminate];
      pose proof (init_sets_invariant torch_rand composition true
                    (fun _ st =>
                       mechanisms_to_pytorch_biases st = []
                       /\ forall c info,
                            In (c, info) (forward_infos st) ->
                            fi_biases info = None)) as Hinv;
      specialize (fun Hstep => Hinv Hstep execution_sets 0 [] st0 st Hsets)
  end.
  cbn [bind] in Hinit. injection Hinit as <- _.
  assert (Hgoal : mechanisms_to_pytorch_biases st = []
                  /\ forall c info,
                       In (c, info) (forward_infos st) ->
                       fi_biases info = None).
  { apply Hinv.
    - intros done i component st1 st2 Hc [Hb Hall].
      destruct (init_component_facts _ _ _ _ _ _ _ Hc)
        as ((info & Hfi & _ & _ & Hnone & _) & Hbias & _).
      split; [rewrite (Hbias eq_refl); exact Hb |].
      intros c info0 Hin. rewrite Hfi in Hin.
      apply dict_set_In in Hin. destruct Hin as [Heq | Hold].
      + injection Heq as _ ->. now apply Hnone.
      + now apply (Hall c).
    - split; [reflexivity | intros c info []]. }
  destruct Hgoal as [Hb Hall].
  split; [exact Hb |]. split; [exact Hall |].
  intros ndarray h. now rewrite Hb.
Qed.

Variable param_init_from_pnl : bool.


(** X3.  The parameters that [__init__] registers in [self.params]: one
    for every incoming projection of every node outside the first
    execution set and, unless the parameters are copied from the
    composition, one bias for each of these nodes; nothing for the nodes of
    the first set.  Every parameter has a buffer of its own, and the weight
    tensor of every projection is among the registered parameters. *)
Theorem init_registers_parameters (execution_sets : list (list node))
  (first_buffer : nat)
  (matrix_parameter matrix_parameter' : list (nat * Tensor (mat F)))
  (self : Model F) :
  __init__ torch_rand composition param_init_from_pnl execution_sets
           first_buffer matrix_parameter
  = Ok (self, matrix_parameter') ->
  parameter_list self
  = seq first_buffer
        (list_sum
           (map (fun c => (if param_init_from_pnl then 0 else 1)
                          + length (path_afferents composition c))
                (concat (tl execution_sets))))
  /\ NoDup (parameter_list self)
  /\ forall mapping_proj t,
       In (mapping_proj, t) (projections_to_pytorch_weights self) ->
       In (data_ptr t) (parameter_list self).
Proof.
  intro Hinit. unfold __init__ in Hinit.
  set (count := fun done : list (nat * node) =>
                  list_sum
                    (map (fun p => created_parameters composition
                                     param_init_from_pnl (fst p) (snd p))
                         done)).
  match type of Hinit with
  | bind (init_sets _ _ _ _ _ ?st0) _ = _ =>
      destruct (init_sets torch_rand composition param_init_from_pnl 0
                          execution_sets st0)
        as [st |] eqn:Hsets; [| discriminate];
      pose proof (init_sets_invariant torch_rand composition
                    param_init_from_pnl
                    (fun done st =>
                       parameter_list st = seq first_buffer (count done)
                       /\ next_buffer st = first_buffer + count done
                       /\ forall mapping_proj t,
                            In (mapping_proj, t)
                               (projections_to_pytorch_weights st) ->
                            first_buffer <= data_ptr t < next_buffer st))
        as Hinv;
      specialize (fun Hstep => Hinv Hstep execution_sets 0 [] st0 st Hsets)
  end.
  cbn [bind] in Hinit. injection Hinit as <- _.
  cbn [app] in Hinv.
  assert (Hcount : count (scheduled 0 execution_sets)
                   = list_sum
                       (map (fun c => (if param_init_from_pnl then 0 else 1)
                                      + length (path_afferents composition c))
                            (concat (tl execution_sets)))).
  { unfold count. destruct execution_sets as [| s rest]; [reflexivity |].
    cbn [scheduled tl]. rewrite map_app, list_sum_app.
    rewrite created_parameters_first, created_parameters_later.
    reflexivity. }
  destruct Hinv as (Hpl & Hnb & Hw).
  - intros done i component st1 st2 Hc (Hpl & Hnb & Hw).
    destruct (init_component_facts _ _ _ _ _ _ _ Hc)
      as (_ & _ & Hpl2 & Hnb2 & _ & Hw2).
    assert (Hadd : count (done ++ [(i, component)])
                   = count done
                     + created_parameters composition param_init_from_pnl
                                          i component).
    { unfold count. rewrite map_app, list_sum_app. cbn. lia. }
    rewrite Hadd. split; [| split].
    + rewrite Hpl2, Hpl, Hnb. symmetry. apply seq_app.
    + rewrite Hnb2, Hnb. lia.
    + intros p t Hin. destruct (Hw2 p t Hin) as [Hold | (_ & _ & _ & Hr)].
      * specialize (Hw p t Hold). lia.
      * lia.
  - cbn. repeat split; try lia; contradiction.
  - rewrite <- Hcount. split; [exact Hpl |].
    split; [rewrite Hpl; apply seq_NoDup |].
    intros p t Hin. rewrite Hpl. apply in_seq.
    specialize (Hw p t Hin). lia.
Qed.

Lemma copy_weights_written (weights : list (nat * Tensor (mat F))) :
  forall matrix_parameter : list (nat * Tensor (mat F)),
    NoDup (map fst weights) ->
    (forall mapping_proj t,
        In (mapping_proj, t) weights ->
        dict_get (copy_weights_to_psyneulink weights matrix_parameter)
                 mapping_proj = Ok t)
    /\ (forall mapping_proj,
          ~ In mapping_proj (map fst weights) ->
          dict_get (copy_weights_to_psyneulink weights matrix_parameter)
                   mapping_proj
          = dict_get matrix_parameter mapping_proj).
Proof.
  unfold copy_weights_to_psyneulink.
  induction weights as [| [p0 t0] rest IH]; intros matrix_parameter Hnd.
  - split; [intros p t [] | reflexivity].
  - cbn [map fst] in Hnd. inversion Hnd as [| ? ? Hnotin Hnd']; subst.
    cbn [fold_left fst snd].
    destruct (IH (dict_set matrix_parameter p0 t0) Hnd') as [Hin Hout].
    split.
    + intros p t [Heq | Hrest]; [| now apply Hin].
      injection Heq as <- <-. rewrite (Hout p0 Hnotin).
      apply dict_get_set_same.
    + intros p Hp. cbn [map fst In] in Hp.
      rewrite Hout by tauto. apply dict_get_set_other. tauto.
Qed.

(** X4.  [copy_weights_to_psyneulink], as [__init__] calls it, copies by
    reference: afterwards the matrix parameter of every projection of the
    model is the array on the buffer of the model's own weight tensor, so
    that later updates of the weights are seen through the projection.  The
    tensor holds the matrix of the projection when the parameters are
    copied from the composition and a random matrix of its shape otherwise;
    the projections are those coming into nodes outside the first
    execution set, and no other matrix parameter is touched. *)
Theorem init_shares_weights_with_projections
  (execution_sets : list (list node)) (first_buffer : nat)
  (matrix_parameter matrix_parameter' : list (nat * Tensor (mat F)))
  (self : Model F) :
  __init__ torch_rand composition param_init_from_pnl execution_sets
           first_buffer matrix_parameter
  = Ok (self, matrix_parameter') ->
  (forall mapping_proj t,
      In (mapping_proj, t) (projections_to_pytorch_weights self) ->
      dict_get matrix_parameter' mapping_proj = Ok t
      /\ weights_of torch_rand composition param_init_from_pnl
                    mapping_proj t
      /\ exists c,
           In c (concat (tl execution_sets))
           /\ In mapping_proj (path_afferents composition c))
  /\ (forall mapping_proj,
        ~ In mapping_proj (map fst (projections_to_pytorch_weights self)) ->
        dict_get matrix_parameter' mapping_proj
        = dict_get matrix_parameter mapping_proj).
Proof.
  intro Hinit. unfold __init__ in Hinit.
  match type of Hinit with
  | bind (init_sets _ _ _ _ _ ?st0) _ = _ =>
      destruct (init_sets torch_rand composition param_init_from_pnl 0
                          execution_sets st0)
        as [st |] eqn:Hsets; [| discriminate];
      pose proof (init_sets_invariant torch_rand composition
                    param_init_from_pnl
                    (fun done st =>
                       NoDup (map fst (projections_to_pytorch_weights st))
                       /\ forall mapping_proj t,
                            In (mapping_proj, t)
                               (projections_to_pytorch_weights st) ->
                            weights_of torch_rand composition
                                       param_init_from_pnl mapping_proj t
                            /\ exists i c,
                                 i <> 0 /\ In (i, c) done
                                 /\ In mapping_proj
                                       (path_afferents composition c)))
        as Hinv;
      specialize (fun Hstep => Hinv Hstep execution_sets 0 [] st0 st Hsets)
  end.
  cbn [bind] in Hinit. injection Hinit as <- <-.
  cbn [app] in Hinv.
  destruct Hinv as (Hnd & Hw).
  - intros done i component st1 st2 Hc (Hnd & Hw).
    destruct (init_component_facts _ _ _ _ _ _ _ Hc)
      as (_ & _ & _ & _ & Hnd2 & Hw2).
    split; [now apply Hnd2 |].
    intros p t Hin. destruct (Hw2 p t Hin) as [Hold | (Hi & Hp & Hof & _)].
    + destruct (Hw p t Hold) as (Hof & i0 & c & Hi0 & Hdone & Hp).
      split; [exact Hof |]. exists i0, c.
      split; [exact Hi0 |]. split; [apply in_or_app; now left | exact Hp].
    + split; [exact Hof |]. exists i, component.
      split; [exact Hi |]. split; [apply in_or_app; right; now left |].
      exact Hp.
  - split; [constructor | intros p t []].
  - destruct (copy_weights_written (projections_to_pytorch_weights st)
                matrix_parameter Hnd) as [Hin Hout].
    split; [| exact Hout].
    intros p t Hpt. split; [now apply Hin |].
    destruct (Hw p t Hpt) as (Hof & i & c & Hi & Hdone & Hp).
    split; [exact Hof |]. exists c. split; [| exact Hp].
    destruct execution_sets as [| s rest]; [destruct Hdone |].
    cbn [scheduled tl] in Hdone |- *. apply in_app_or in Hdone.
    destruct Hdone as [Hfirst | Hlater].
    + apply in_map_iff in Hfirst. destruct Hfirst as (c' & Heq & _).
      injection Heq as <- _. contradiction.
    + now destruct (scheduled_later _ _ _ _ Hlater).
Qed.

(** X5.  Origin nodes have neither biases nor afferent connections: a
    node that is in the first execution set and in no later one gets a
    forward information without bias and with no afferents, whatever
    projections come into it in the composition. *)
Theorem init_origin_nodes (first : list node) (later : list (list node))
  (first_buffer : nat)
  (matrix_parameter matrix_parameter' : list (nat * Tensor (mat F)))
  (self : Model F) (c : node) :
  __init__ torch_rand composition param_init_from_pnl (first :: later)
           first_buffer matrix_parameter
  = Ok (self, matrix_parameter') ->
  In c first ->
  ~ In c (concat later) ->
  exists info,
    dict_get (forward_infos self) c = Ok info
    /\ fi_biases info = None
    /\ fi_afferents info = [].
Proof.
  intros Hinit Hfirst Hlater. unfold __init__ in Hinit.
  match type of Hinit with
  | bind (init_sets _ _ _ _ _ ?st0) _ = _ =>
      destruct (init_sets torch_rand composition param_init_from_pnl 0
                          (first :: later) st0)
        as [st |] eqn:Hsets; [| discriminate];
      pose proof (init_sets_invariant torch_rand composition
                    param_init_from_pnl
                    (fun done st =>
                       In (0, c) done ->
                       (forall i, i <> 0 -> ~ In (i, c) done) ->
                       exists info,
                         dict_get (forward_infos st) c = Ok info
                         /\ fi_biases info = None
                         /\ fi_afferents info = []))
        as Hinv;
      specialize (fun Hstep => Hinv Hstep (first :: later) 0 [] st0 st Hsets)
  end.
  cbn [bind] in Hinit. injection Hinit as <- _.
  cbn [app] in Hinv. apply Hinv.
  - intros done i component st1 st2 Hc Hp Hzero Hnone.
    destruct (init_component_facts _ _ _ _ _ _ _ Hc)
      as ((info & Hfi & _ & Horigin & _) & _).
    rewrite Hfi.
    destruct (Nat.eq_dec component c) as [-> | Hne].
    + rewrite dict_get_set_same. exists info. split; [reflexivity |].
      apply Horigin. destruct (Nat.eq_dec i 0) as [Hi | Hi]; [exact Hi |].
      exfalso. apply (Hnone i Hi). apply in_or_app. right. now left.
    + rewrite dict_get_set_other by exact Hne. apply Hp.
      * apply in_app_or in Hzero. destruct Hzero as [Hd | [Heq | []]];
          [exact Hd | congruence].
      * intros j Hj Hin. apply (Hnone j Hj). apply in_or_app. now left.
  - intros [].
  - cbn [scheduled]. apply in_or_app. left. now apply in_map.
  - intros i Hi Hin. cbn [scheduled] in Hin. apply in_app_or in Hin.
    destruct Hin as [Hin | Hin].
    + apply in_map_iff in Hin. destruct Hin as (c' & Heq & _).
      injection Heq as <- _. contradiction.
    + apply Hlater. now destruct (scheduled_later _ _ _ _ Hin).
Qed.

End ConstructedModel.

(** ** The weight gradients *)

Section WeightGradients.
Context {F : Type} `{FloatTy F}.
Variable _DELTA_W_NUM : Optimizer -> nat.
Variable self : PytorchModelCreator F.
Variable optimizer : Optimizer.

Lemma gradient_frame_refl (m : Memory F) :
  gradient_frame (_DELTA_W_NUM optimizer) m m.
Proof. unfold gradient_frame. now repeat split. Qed.

Lemma gradient_frame_trans (m1 m2 m3 : Memory F) :
  gradient_frame (_DELTA_W_NUM optimizer) m1 m2 ->
  gradient_frame (_DELTA_W_NUM optimizer) m2 m3 ->
  gradient_frame (_DELTA_W_NUM optimizer) m1 m3.
Proof.
  intros (Hp & Hi & Ho & Hz & He & Hl & Hs & Ht & Hf)
         (Hp' & Hi' & Ho' & Hz' & He' & Hl' & Hs' & Ht' & Hf').
  unfold gradient_frame. repeat split; try (etransitivity; eassumption).
  intros field Hfield. now rewrite Hf', Hf.
Qed.

Lemma gradient_code_frame (n afferent_node : node) (afferent_node_idx : nat)
  (w : nat * nat * nat * nat) (m : Memory F) :
  gradient_frame (_DELTA_W_NUM optimizer) m
    (gradient_code _DELTA_W_NUM self optimizer n afferent_node
                   afferent_node_idx w m)
  /\ forall i j,
       i <> get_node_index self n \/ j <> afferent_node_idx ->
       m_optim (gradient_code _DELTA_W_NUM self optimizer n afferent_node
                              afferent_node_idx w m)
               (_DELTA_W_NUM optimizer) i j
       = m_optim m (_DELTA_W_NUM optimizer) i j.
Proof.
  destruct w as [[[node_idx0 idx0] dim_x] dim_y].
  unfold gradient_code, gradient_frame. cbn. split.
  - repeat split. intros field Hfield. unfold upd.
    destruct (Nat.eqb_spec field (_DELTA_W_NUM optimizer));
      [contradiction | reflexivity].
  - intros i j Hij. unfold upd, upd2. rewrite Nat.eqb_refl.
    destruct (Nat.eqb_spec i (get_node_index self n)) as [-> | Hi];
      [| reflexivity].
    destruct (Nat.eqb_spec j afferent_node_idx) as [-> | Hj];
      [| reflexivity].
    destruct Hij; contradiction.
Qed.

(** The gradients of one node only touch the entries of that node. *)
Lemma gradients_afferents_frame (n : node)
  (afferent_nodes : list (node * Tensor (mat F))) :
  forall c : Code F,
    gradients_afferents _DELTA_W_NUM self optimizer n afferent_nodes
    = Ok c ->
    forall m,
      gradient_frame (_DELTA_W_NUM optimizer) m (c m)
      /\ forall i j,
           i <> get_node_index self n ->
           m_optim (c m) (_DELTA_W_NUM optimizer) i j
           = m_optim m (_DELTA_W_NUM optimizer) i j.
Proof.
  induction afferent_nodes as [| [a w0] rest IH]; intros c Hgen m.
  - cbn in Hgen. injection Hgen as <-.
    split; [apply gradient_frame_refl | reflexivity].
  - cbn [gradients_afferents] in Hgen.
    destruct (_get_afferent_node_index self n a) as [idx |]; [| discriminate].
    cbn [bind] in Hgen.
    destruct (_gen_get_node_weight_ptr self n a) as [w |]; [| discriminate].
    cbn [bind] in Hgen.
    destruct idx as [afferent_node_idx |]; [| discriminate].
    destruct (gradients_afferents _DELTA_W_NUM self optimizer n rest)
      as [k |]; [| discriminate].
    cbn [bind] in Hgen. injection Hgen as <-.
    destruct (gradient_code_frame n a afferent_node_idx w m) as [Hf Hd].
    destruct (IH k eq_refl
                (gradient_code _DELTA_W_NUM self optimizer n a
                               afferent_node_idx w m)) as [Hf' Hd'].
    split; [exact (gradient_frame_trans _ _ _ Hf Hf') |].
    intros i j Hi. rewrite Hd' by exact Hi. apply Hd. now left.
Qed.

Lemma nth_map_seq {A : Type} (f : nat -> A) (d : A) (dim i : nat) :
  i < dim -> nth i (map f (seq 0 dim)) d = f i.
Proof.
  intro Hi. rewrite nth_indep with (d' := f 0)
    by (rewrite length_map, length_seq; exact Hi).
  rewrite map_nth, seq_nth by exact Hi. reflexivity.
Qed.

Lemma load2_weight_update_loop (node_delta_w : mat F)
  (afferent_node_activation err_val : vec F)
  (weights_dim_x weights_dim_y weight_row weight_column : nat) :
  weight_row < weights_dim_x ->
  weight_column < weights_dim_y ->
  load2 (weight_update_loop node_delta_w afferent_node_activation err_val
                            weights_dim_x weights_dim_y)
        weight_row weight_column
  = fadd (load2 node_delta_w weight_row weight_column)
         (fmul (load afferent_node_activation weight_row)
               (load err_val weight_column)).
Proof.
  intros Hrow Hcolumn. unfold weight_update_loop.
  unfold load2 at 1.
  rewrite (nth_map_seq _ _ _ _ Hrow).
  exact (nth_map_seq _ _ _ _ Hcolumn).
Qed.

Section OneNodeGradients.
Variable n : node.
Variable info : ForwardInfo F.
Hypothesis info_found :
  dict_get (component_to_forward_info self) n = Ok info.
Hypothesis afferents_once : NoDup (map fst (fi_afferents info)).

Lemma gradients_afferents_value (todo : list (node * Tensor (mat F))) :
  forall (done : list (node * Tensor (mat F))) (c : Code F),
    fi_afferents info = done ++ todo ->
    gradients_afferents _DELTA_W_NUM self optimizer n todo = Ok c ->
    forall m k a w,
      nth_error todo k = Some (a, w) ->
      m_optim (c m) (_DELTA_W_NUM optimizer) (get_node_index self n)
              (length done + k)
      = weight_update_loop
          (m_optim m (_DELTA_W_NUM optimizer) (get_node_index self n)
                   (length done + k))
          (m_output m (get_node_index self a)) (m_err m n)
          (fst (shape (numpy w))) (snd (shape (numpy w))).
Proof.
  induction todo as [| [a0 w0] rest IH]; intros done c Hsplit Hgen m k a w Hk;
    [now destruct k |].
  assert (Hat : nth_error (fi_afferents info) (length done) = Some (a0, w0)).
  { rewrite Hsplit, nth_error_app2 by lia. now rewrite Nat.sub_diag. }
  cbn [gradients_afferents] in Hgen.
  unfold _get_afferent_node_index in Hgen.
  rewrite info_found in Hgen. cbn [bind] in Hgen.
  rewrite (find_afferent_at _ _ 0 _ _ afferents_once Hat) in Hgen.
  cbn [option_map fst Nat.add] in Hgen.
  rewrite (weight_ptr_at self n info info_found afferents_once _ _ _ Hat)
    in Hgen.
  cbn [bind] in Hgen.
  destruct (gradients_afferents _DELTA_W_NUM self optimizer n rest)
    as [k0 |] eqn:Hrest; [| discriminate].
  cbn [bind] in Hgen. injection Hgen as <-.
  set (w1 := (get_node_index self n, length done, fst (shape (numpy w0)),
              snd (shape (numpy w0)))).
  set (m1 := gradient_code _DELTA_W_NUM self optimizer n a0 (length done)
                           w1 m).
  destruct (gradient_code_frame n a0 (length done) w1 m) as [Hf Hd].
  fold m1 in Hf, Hd.
  destruct Hf as (_ & _ & Hout & _ & Herr & _).
  assert (Hsplit' : fi_afferents info = (done ++ [(a0, w0)]) ++ rest)
    by (rewrite <- app_assoc; exact Hsplit).
  destruct k as [| k'].
  - cbn in Hk. injection Hk as <- <-. rewrite Nat.add_0_r.
    destruct (gradients_afferents_frame n rest k0 Hrest m1) as [_ Hother].
    assert (Hkeep : forall todo' done' c',
               fi_afferents info = done' ++ todo' ->
               gradients_afferents _DELTA_W_NUM self optimizer n todo'
               = Ok c' ->
               forall m' j,
                 j < length done' ->
                 m_optim (c' m') (_DELTA_W_NUM optimizer)
                         (get_node_index self n) j
                 = m_optim m' (_DELTA_W_NUM optimizer)
                           (get_node_index self n) j).
    { induction todo' as [| [a1 w2] rest' IH'];
        intros done' c' Hs Hg m' j Hj.
      - cbn in Hg. now injection Hg as <-.
      - assert (Hat' : nth_error (fi_afferents info) (length done')
                       = Some (a1, w2)).
        { rewrite Hs, nth_error_app2 by lia. now rewrite Nat.sub_diag. }
        cbn [gradients_afferents] in Hg.
        unfold _get_afferent_node_index in Hg.
        rewrite info_found in Hg. cbn [bind] in Hg.
        rewrite (find_afferent_at _ _ 0 _ _ afferents_once Hat') in Hg.
        cbn [option_map fst Nat.add] in Hg.
        destruct (_gen_get_node_weight_ptr self n a1) as [w3 |];
          [| discriminate].
        cbn [bind] in Hg.
        destruct (gradients_afferents _DELTA_W_NUM self optimizer n rest')
          as [k1 |] eqn:Hr; [| discriminate].
        cbn [bind] in Hg. injection Hg as <-.
        rewrite (IH' (done' ++ [(a1, w2)]) k1) ;
          [| rewrite <- app_assoc; exact Hs | reflexivity
           | rewrite length_app; cbn; lia].
        destruct (gradient_code_frame n a1 (length done') w3 m') as [_ Hd'].
        apply Hd'. right. lia. }
    rewrite (Hkeep rest (done ++ [(a0, w0)]) k0 Hsplit' Hrest m1)
      by (rewrite length_app; cbn; lia).
    unfold m1, gradient_code, w1. cbn. unfold upd, upd2.
    now rewrite !Nat.eqb_refl.
  - cbn [nth_error] in Hk.
    pose proof (IH (done ++ [(a0, w0)]) k0 Hsplit' eq_refl m1 k' a w Hk)
      as Hval.
    rewrite length_app in Hval. cbn [length] in Hval.
    replace (length done + 1 + k') with (length done + S k') in Hval by lia.
    etransitivity; [exact Hval |].
    rewrite Hout, Herr. f_equal. apply Hd. right. lia.
Qed.

End OneNodeGradients.

Lemma compute_weight_gradients_frame (errors : list node) :
  forall c : Code F,
    compute_weight_gradients _DELTA_W_NUM self optimizer errors = Ok c ->
    forall m,
      gradient_frame (_DELTA_W_NUM optimizer) m (c m)
      /\ forall i j,
           ~ In i (map (get_node_index self) errors) ->
           m_optim (c m) (_DELTA_W_NUM optimizer) i j
           = m_optim m (_DELTA_W_NUM optimizer) i j.
Proof.
  induction errors as [| n rest IH]; intros c Hgen m.
  - cbn in Hgen. injection Hgen as <-.
    split; [apply gradient_frame_refl | reflexivity].
  - cbn [compute_weight_gradients] in Hgen. cbn [map In].
    destruct (node_mem n (input_nodes self)).
    + destruct (IH c Hgen m) as [Hf Hd]. split; [exact Hf |].
      intros i j Hi. apply Hd. tauto.
    + destruct (_get_afferent_nodes self n) as [afferent_nodes |];
        [| discriminate].
      cbn [bind] in Hgen.
      destruct (gradients_afferents _DELTA_W_NUM self optimizer n
                  afferent_nodes) as [c0 |] eqn:Hc0; [| discriminate].
      cbn [bind] in Hgen.
      destruct (compute_weight_gradients _DELTA_W_NUM self optimizer rest)
        as [k |]; [| discriminate].
      cbn [bind] in Hgen. injection Hgen as <-.
      destruct (gradients_afferents_frame n afferent_nodes c0 Hc0 m)
        as [Hf Hd].
      destruct (IH k eq_refl (c0 m)) as [Hf' Hd'].
      split; [exact (gradient_frame_trans _ _ _ Hf Hf') |].
      intros i j Hi. rewrite Hd' by tauto. apply Hd.
      intros ->. apply Hi. now left.
Qed.

(** X19.  Step 4 of [_gen_llvm_training_backprop], for nodes with distinct
    indices: for every node with an error buffer that is not an input node
    and every one of its incoming edges, the code adds to the entry of the
    edge in [delta_w] the outer product of the value of the sender and the
    error of the node, [delta_w[r][c] += a[r] * err[c]], once; it changes
    nothing else than [delta_w]. *)
Theorem weight_gradients_accumulate (errors : list node) (c : Code F)
  (n : node) (info : ForwardInfo F) (k : nat) (a : node)
  (w : Tensor (mat F)) :
  compute_weight_gradients _DELTA_W_NUM self optimizer errors = Ok c ->
  NoDup (map (get_node_index self) errors) ->
  In n errors ->
  node_mem n (input_nodes self) = false ->
  dict_get (component_to_forward_info self) n = Ok info ->
  NoDup (map fst (fi_afferents info)) ->
  nth_error (fi_afferents info) k = Some (a, w) ->
  forall m,
    gradient_frame (_DELTA_W_NUM optimizer) m (c m)
    /\ forall weight_row weight_column,
         weight_row < fst (shape (numpy w)) ->
         weight_column < snd (shape (numpy w)) ->
         load2 (m_optim (c m) (_DELTA_W_NUM optimizer)
                        (get_node_index self n) k)
               weight_row weight_column
         = fadd (load2 (m_optim m (_DELTA_W_NUM optimizer)
                                (get_node_index self n) k)
                       weight_row weight_column)
                (fmul (load (m_output m (get_node_index self a)) weight_row)
                      (load (m_err m n) weight_column)).
Proof.
  intros Hgen Hnd Hin Hinput Hfound Honce Hnth m.
  split; [exact (proj1 (compute_weight_gradients_frame _ _ Hgen m)) |].
  intros weight_row weight_column Hrow Hcolumn.
  rewrite <- (load2_weight_update_loop _ _ _ (fst (shape (numpy w)))
                (snd (shape (numpy w))) _ _ Hrow Hcolumn).
  f_equal.
  clear weight_row weight_column Hrow Hcolumn. revert c Hgen m.
  induction errors as [| n0 rest IH]; intros c Hgen m; [destruct Hin |].
  cbn [map] in Hnd. inversion Hnd as [| ? ? Hnotin Hnd']; subst.
  cbn [compute_weight_gradients] in Hgen.
  destruct Hin as [-> | Hin].
  - rewrite Hinput in Hgen. unfold _get_afferent_nodes in Hgen.
    rewrite Hfound in Hgen. cbn [bind] in Hgen.
    destruct (gradients_afferents _DELTA_W_NUM self optimizer n
                (fi_afferents info)) as [c0 |] eqn:Hc0; [| discriminate].
    cbn [bind] in Hgen.
    destruct (compute_weight_gradients _DELTA_W_NUM self optimizer rest)
      as [k0 |] eqn:Hk0; [| discriminate].
    cbn [bind] in Hgen. injection Hgen as <-.
    destruct (compute_weight_gradients_frame rest k0 Hk0 (c0 m)) as [_ Hd].
    rewrite Hd by exact Hnotin.
    exact (gradients_afferents_value n info Hfound Honce (fi_afferents info)
             [] c0 eq_refl Hc0 m k a w Hnth).
  - assert (Hne : get_node_index self n0 <> get_node_index self n).
    { intro Heq. apply Hnotin. rewrite Heq. now apply in_map. }
    destruct (node_mem n0 (input_nodes self)); [now apply IH |].
    destruct (_get_afferent_nodes self n0) as [afferent_nodes |];
      [| discriminate].
    cbn [bind] in Hgen.
    destruct (gradients_afferents _DELTA_W_NUM self optimizer n0
                afferent_nodes) as [c0 |] eqn:Hc0; [| discriminate].
    cbn [bind] in Hgen.
    destruct (compute_weight_gradients _DELTA_W_NUM self optimizer rest)
      as [k0 |] eqn:Hk0; [| discriminate].
    cbn [bind] in Hgen. injection Hgen as <-.
    rewrite (IH Hnd' Hin k0 eq_refl (c0 m)).
    destruct (gradients_afferents_frame n0 afferent_nodes c0 Hc0 m)
      as [(_ & _ & Hout & _ & Herr & _) Hd].
    rewrite Hout, Herr. f_equal. apply Hd. congruence.
Qed.

End WeightGradients.

(** ** The total loss *)

Section TotalLoss.
Context {F : Type} `{FloatTy F}.
Variable lossfunc : Loss -> vec F -> vec F -> nat -> F.
Variable loss_differential : Loss -> vec F -> vec F -> nat -> vec F.
Variable _DELTA_W_NUM : Optimizer -> nat.
Variable ctx : LLVMBuilderContext F.
Variable self : PytorchModelCreator F.
Variable loss : Loss.
Variable z_values : list node.

Lemma backprop_loop_state_invariant (P : GenState F -> Prop) :
  (forall st st',
      backprop_queue st <> [] ->
      backprop_step lossfunc loss_differential ctx self loss z_values st
      = Ok st' ->
      P st -> P st') ->
  forall (fuel : nat) (st st' : GenState F),
    backprop_loop lossfunc loss_differential ctx self loss z_values fuel st
    = Ok st' ->
    P st -> P st'.
Proof.
  intro Hstep. induction fuel as [| fuel IH]; intros st st' Hrun Hp.
  - cbn in Hrun. now injection Hrun as <-.
  - cbn [backprop_loop] in Hrun.
    destruct (backprop_queue st) as [| n rest] eqn:Hq;
      [now injection Hrun as <- |].
    destruct (backprop_step lossfunc loss_differential ctx self loss
                z_values st) as [st1 |] eqn:Hs; [| discriminate].
    cbn [bind] in Hrun. apply (IH st1 st' Hrun).
    apply (Hstep st st1); [rewrite Hq; discriminate | exact Hs | exact Hp].
Qed.

Lemma backprop_efferents_keeps_loss (errors : list node) (n : node)
  (node_dim : nat) (efferent_nodes : list node) :
  forall (is_set : bool) (k : Code F) (tr : list Event),
    backprop_efferents self errors n node_dim efferent_nodes is_set
    = Ok (k, tr) ->
    forall m,
      m_output (k m) = m_output m
      /\ m_targets (k m) = m_targets m
      /\ m_total_loss (k m) = m_total_loss m.
Proof.
  induction efferent_nodes as [| e rest IH]; intros is_set k tr Hgen m.
  - cbn in Hgen. injection Hgen as <- _. now repeat split.
  - cbn [backprop_efferents] in Hgen.
    destruct (negb (node_mem e errors)); [discriminate |].
    destruct (_gen_get_node_weight_ptr self e n)
      as [[[[node_idx afferent_node_index] dim_x] dim_y] |];
      [| discriminate].
    cbn [bind] in Hgen.
    destruct (backprop_efferents self errors n node_dim rest true)
      as [[k' tr'] |] eqn:Hrest; [| discriminate].
    cbn [bind] in Hgen. injection Hgen as <- _. cbv beta.
    match goal with
    | |- context [k' ?x] =>
        destruct (IH true k' tr' Hrest x) as (-> & -> & ->)
    end.
    destruct is_set; now repeat split.
Qed.

(** The output nodes among the keys of [error_dict], in the order of their
    handling, are those whose losses the emitted code has added up. *)
Lemma backprop_step_loss (values : nat -> Memory F -> Memory F)
  (st st' : GenState F) :
  backprop_step lossfunc loss_differential ctx self loss z_values st
  = Ok st' ->
  (forall input_idx m,
      m_output (code st input_idx m) = m_output (values input_idx m)
      /\ m_targets (code st input_idx m) = m_targets m
      /\ m_total_loss (code st input_idx m)
         = loss_sum lossfunc self loss (values input_idx m) m input_idx
             (filter (fun n => node_mem n (output_nodes self))
                     (error_dict st))) ->
  forall input_idx m,
    m_output (code st' input_idx m) = m_output (values input_idx m)
    /\ m_targets (code st' input_idx m) = m_targets m
    /\ m_total_loss (code st' input_idx m)
       = loss_sum lossfunc self loss (values input_idx m) m input_idx
           (filter (fun n => node_mem n (output_nodes self))
                   (error_dict st')).
Proof.
  intros Hstep Hst input_idx m. unfold backprop_step in Hstep.
  destruct (backprop_queue st) as [| n rest];
    [injection Hstep as <-; apply Hst |].
  destruct (backprop_skip self (error_dict st) n);
    [injection Hstep as <-; apply Hst |].
  unfold backprop_node in Hstep.
  destruct (_get_afferent_nodes self n); [| discriminate].
  cbn [bind] in Hstep.
  destruct (bin_function_derivative_creator ctx self n) as [derivative |];
    [| discriminate].
  cbn [bind] in Hstep.
  destruct (negb (node_mem n z_values)); [discriminate |].
  cbn [backprop_queue error_dict code] in Hstep.
  destruct (Hst input_idx m) as (Hout & Htargets & Hloss).
  destruct (node_mem n (output_nodes self)) eqn:Hn.
  - injection Hstep as <-. cbn [code error_dict].
    rewrite filter_app. cbn [filter]. rewrite Hn.
    unfold loss_sum. rewrite fold_left_app. cbn [fold_left].
    unfold backprop_output_code. cbn.
    rewrite Hout, Htargets, Hloss. now repeat split.
  - destruct (backprop_efferents self (error_dict st ++ [n]) n
                (value_dim self n) (efferents self n) false)
      as [[propagate tr] |] eqn:Hprop; [| discriminate].
    cbn [bind] in Hstep. injection Hstep as <-. cbn [code error_dict].
    rewrite filter_app. cbn [filter]. rewrite Hn, app_nil_r.
    unfold backprop_hidden_code. cbn.
    destruct (backprop_efferents_keeps_loss _ _ _ _ _ _ _ Hprop
                (code st input_idx m)) as (-> & -> & ->).
    now repeat split.
Qed.

(** Every output node is in the queue, has an error buffer or is one of
    the nodes the loop passes over. *)
Lemma backprop_step_outputs (st st' : GenState F) :
  backprop_step lossfunc loss_differential ctx self loss z_values st
  = Ok st' ->
  (forall n,
      In n (output_nodes self) ->
      In n (error_dict st) \/ In n (backprop_queue st)
      \/ never_handled self n = true) ->
  forall n,
    In n (output_nodes self) ->
    In n (error_dict st') \/ In n (backprop_queue st')
    \/ never_handled self n = true.
Proof.
  intros Hstep Hst n Hn. unfold backprop_step in Hstep.
  destruct (backprop_queue st) as [| n0 rest] eqn:Hq;
    [injection Hstep as <-; rewrite Hq; now apply Hst |].
  destruct (backprop_skip self (error_dict st) n0) eqn:Hskip.
  - injection Hstep as <-. cbn [error_dict backprop_queue].
    destruct (Hst n Hn) as [He | [[<- | Hr] | Hs]]; try tauto.
    unfold backprop_skip in Hskip. unfold never_handled.
    destruct (node_mem n0 (error_dict st)) eqn:Hmem.
    + left. now apply node_mem_In.
    + right. right. cbn [orb] in Hskip. exact Hskip.
  - destruct (backprop_node_errors lossfunc loss_differential ctx self
                _ _ _ _ _ Hstep) as (Herr & _).
    rewrite Herr.
    assert (Hqueue : forall x, In x rest -> In x (backprop_queue st')).
    { intros x Hx. unfold backprop_node in Hstep.
      destruct (_get_afferent_nodes self n0); [| discriminate].
      cbn [bind] in Hstep.
      destruct (bin_function_derivative_creator ctx self n0);
        [| discriminate].
      cbn [bind] in Hstep.
      destruct (negb (node_mem n0 z_values)); [discriminate |].
      cbn [backprop_queue error_dict] in Hstep.
      destruct (node_mem n0 (output_nodes self)).
      - injection Hstep as <-. cbn. apply in_or_app. now left.
      - destruct (backprop_efferents self (error_dict st ++ [n0]) n0
                    (value_dim self n0) (efferents self n0) false)
          as [[propagate tr] |]; [| discriminate].
        cbn [bind] in Hstep. injection Hstep as <-. cbn.
        apply in_or_app. now left. }
    destruct (Hst n Hn) as [He | [[<- | Hr] | Hs]].
    + left. apply in_or_app. now left.
    + left. apply in_or_app. right. now left.
    + right. left. now apply Hqueue.
    + now right; right.
Qed.

End TotalLoss.

(** X20.  The loss that the kernel of [_gen_llvm_training_backprop] leaves
    in [total_loss] for a stimulus: half the sum of the losses of the
    output nodes that got an error buffer, each computed from the value the
    forward computation stored for the node and from the target of the
    node, and added in the order in which the queue reached the nodes.
    Each output node counts once, and every output node counts unless it
    has no afferents, or is the input CIM or an input node. *)
Theorem backprop_total_loss {F : Type} `{FloatTy F}
  (lossfunc : Loss -> vec F -> vec F -> nat -> F)
  (loss_differential : Loss -> vec F -> vec F -> nat -> vec F)
  (_DELTA_W_NUM : Optimizer -> nat) (ctx : LLVMBuilderContext F)
  (self : PytorchModelCreator F) (optimizer : Optimizer) (loss : Loss)
  (kernel : nat -> Code F) :
  _gen_llvm_training_backprop lossfunc loss_differential _DELTA_W_NUM ctx
                              self optimizer loss
  = Ok kernel ->
  exists (forward_code : Code F) (z_values handled : list node),
    _gen_llvm_forward_function_body ctx self true
    = Ok (forward_code, z_values)
    /\ NoDup handled
    /\ (forall n, In n handled -> In n (output_nodes self))
    /\ (forall n, In n (output_nodes self) ->
                  In n handled \/ never_handled self n = true)
    /\ forall input_idx m,
         m_total_loss (kernel input_idx m)
         = fmul fhalf
                (loss_sum lossfunc self loss
                          (forward_code (copy_inputs self input_idx m)) m
                          input_idx handled).
Proof.
  intro Hgen.
  unfold _gen_llvm_training_backprop, _gen_llvm_forward_function_body
    in Hgen |- *.
  destruct (forward_sets ctx self true 0 (execution_sets self))
    as [forward_code |] eqn:Hfw; [| discriminate].
  cbn [bind] in Hgen |- *.
  set (z_values := z_values_keys self true) in Hgen |- *.
  destruct (backprop_loop lossfunc loss_differential ctx self loss z_values
              (backprop_fuel self) (backprop_init self forward_code))
    as [st |] eqn:Hloop; [| discriminate].
  cbn [bind] in Hgen.
  destruct (compute_weight_gradients _DELTA_W_NUM self optimizer
              (error_dict st)) as [gradients |] eqn:Hgrad; [| discriminate].
  cbn [bind] in Hgen. injection Hgen as <-.
  exists forward_code, z_values,
         (filter (fun n => node_mem n (output_nodes self)) (error_dict st)).
  split; [reflexivity |].
  assert (Hnd : NoDup (error_dict st)).
  { refine (backprop_loop_errors lossfunc loss_differential ctx self loss
              z_values (fun errors => NoDup errors) _ (backprop_fuel self)
              (backprop_init self forward_code) st _ Hloop).
    - intros errors n Hskip _ _ Hnd0.
      apply NoDup_app; [exact Hnd0 | repeat constructor; easy |].
      intros a Ha [<- | []]. apply (node_mem_In n errors) in Ha.
      unfold backprop_skip in Hskip. rewrite Ha in Hskip. discriminate.
    - constructor. }
  assert (Hempty : backprop_queue st = []).
  { refine (backprop_loop_empties lossfunc loss_differential ctx self loss
              z_values (backprop_fuel self)
              (backprop_init self forward_code) st _ Hloop).
    unfold measure, backprop_fuel. cbn. now rewrite pending_nil. }
  pose proof (backprop_loop_state_invariant lossfunc loss_differential ctx
                self loss z_values
                (fun st0 =>
                   forall n,
                     In n (output_nodes self) ->
                     In n (error_dict st0) \/ In n (backprop_queue st0)
                     \/ never_handled self n = true)
                (fun st0 st1 _ => backprop_step_outputs lossfunc
                   loss_differential ctx self loss z_values st0 st1)
                _ _ _ Hloop) as Houtputs.
  pose proof (backprop_loop_state_invariant lossfunc loss_differential ctx
                self loss z_values _
                (fun st0 st1 _ => backprop_step_loss lossfunc
                   loss_differential ctx self loss z_values
                   (fun input_idx m =>
                      forward_code (copy_inputs self input_idx m))
                   st0 st1)
                _ _ _ Hloop) as Hloss.
  split; [now apply NoDup_filter |].
  split; [intros n Hn; apply filter_In in Hn; now apply node_mem_In |].
  split.
  - intros n Hn.
    destruct (Houtputs ltac:(intros x Hx; right; left; exact Hx) n Hn)
      as [He | [Hq | Hs]].
    + left. apply filter_In. split; [exact He | now apply node_mem_In].
    + rewrite Hempty in Hq. destruct Hq.
    + now right.
  - intros input_idx m. cbn [m_total_loss set_total_loss]. f_equal.
    destruct (compute_weight_gradients_frame _DELTA_W_NUM self optimizer
                _ _ Hgrad (code st input_idx m))
      as ((_ & _ & _ & _ & _ & -> & _) & _).
    apply Hloss. clear input_idx m. intros input_idx m.
    cbn [backprop_init code error_dict filter set_total_loss m_output
         m_targets m_total_loss].
    split; [reflexivity |]. split; [| reflexivity].
    destruct (forward_sets_frame ctx self true _ _ _ Hfw
                (copy_inputs self input_idx m))
      as (_ & _ & _ & _ & _ & _ & -> & _).
    now destruct (copy_inputs_keeps_weights self 0 input_idx m)
      as (_ & _ & -> & _).
Qed.

(** ** Looking up the weights of an edge *)

Section WeightLookup.
Context {F : Type} `{FloatTy F}.
Variable self : PytorchModelCreator F.

Lemma find_afferent_none (l : list (node * Tensor (mat F))) (a : node) :
  forall i, ~ In a (map fst l) -> find_afferent l a i = None.
Proof.
  induction l as [| [a' w'] rest IH]; intros i Hnot; [reflexivity |].
  cbn [map fst In] in Hnot. cbn [find_afferent].
  destruct (Nat.eqb_spec a' a); [tauto | apply IH; tauto].
Qed.

Lemma find_afferent_first (l : list (node * Tensor (mat F))) (a : node) :
  forall i,
    In a (map fst l) ->
    exists k w,
      nth_error l k = Some (a, w)
      /\ (forall j a' w', j < k -> nth_error l j = Some (a', w') -> a' <> a)
      /\ find_afferent l a i = Some (i + k, w).
Proof.
  induction l as [| [a0 w0] rest IH]; intros i Hin; [destruct Hin |].
  cbn [map fst In] in Hin. cbn [find_afferent].
  destruct (Nat.eqb_spec a0 a) as [-> | Hne].
  - exists 0, w0. split; [reflexivity |]. split; [intros; lia |].
    now rewrite Nat.add_0_r.
  - destruct Hin as [Heq | Hin]; [contradiction |].
    destruct (IH (S i) Hin) as (k & w & Hnth & Hfirst & Hfind).
    exists (S k), w. split; [exact Hnth |]. split.
    + intros [| j] a' w' Hj Hj'.
      * cbn in Hj'. injection Hj' as <- _. exact Hne.
      * cbn in Hj'. apply (Hfirst j a' w'); [lia | exact Hj'].
    + rewrite Hfind. f_equal. f_equal. lia.
Qed.

(** X6.  [_get_afferent_node_index] and [_gen_get_node_weight_ptr] on a
    node with forward information.  For a sender among the afferents both
    find the first entry of the sender: the index is its position, and the
    pointer is for that position in the parameters of the node, with the
    dimensions of the weight tensor found there.  For any other sender the
    index is [None], and [_gen_get_node_weight_ptr] fails on its unbound
    local [weight_matrix]. *)
Theorem weight_lookup (n a : node) (info : ForwardInfo F) :
  dict_get (component_to_forward_info self) n = Ok info ->
  (In a (map fst (fi_afferents info)) ->
   exists k w,
     nth_error (fi_afferents info) k = Some (a, w)
     /\ (forall j a' w',
           j < k -> nth_error (fi_afferents info) j = Some (a', w') ->
           a' <> a)
     /\ _get_afferent_node_index self n a = Ok (Some k)
     /\ _gen_get_node_weight_ptr self n a
        = Ok (get_node_index self n, k,
              fst (shape (numpy w)), snd (shape (numpy w))))
  /\ (~ In a (map fst (fi_afferents info)) ->
      _get_afferent_node_index self n a = Ok None
      /\ _gen_get_node_weight_ptr self n a = Raise "UnboundLocalError").
Proof.
  intro Hfound.
  unfold _get_afferent_node_index, _gen_get_node_weight_ptr.
  rewrite Hfound. cbn [bind]. split.
  - intro Hin.
    destruct (find_afferent_first _ _ 0 Hin) as (k & w & Hnth & Hfirst & ->).
    exists k, w. cbn [Nat.add option_map fst].
    split; [exact Hnth |]. split; [exact Hfirst |].
    split; [reflexivity |]. now destruct (shape (numpy w)).
  - intro Hnot. rewrite (find_afferent_none _ _ 0 Hnot). now split.
Qed.

End WeightLookup.

(** ** The cache of the parameter initializer *)

Lemma map_params_fixed {F : Type} `{FloatTy F}
  (f1 g1 : ParamValue (mat F) -> ParamValue (mat F))
  (f2 g2 : ParamValue (vec F) -> ParamValue (vec F))
  (l : list (option (NodeParams F))) :
  (forall v, f1 (g1 v) = g1 v) ->
  (forall v, f2 (g2 v) = g2 v) ->
  map_params f1 f2 (map_params g1 g2 l) = map_params g1 g2 l.
Proof.
  intros H1 H2. unfold map_params. rewrite map_map. apply map_ext.
  intros [p |]; [| reflexivity]. cbn [option_map weight_array bias_param].
  f_equal. f_equal.
  - rewrite map_map. apply map_ext. intros [v |]; [| reflexivity].
    cbn [option_map]. now rewrite H1.
  - destruct (bias_param p) as [v |]; [| reflexivity].
    cbn [option_map]. now rewrite H2.
Qed.

Lemma read_view_written {A : Type} (now : nat -> A) (l : list (Tensor A))
  (t : Tensor A) :
  In t l -> read_view (map (write_tensor now) l) t = write_tensor now t.
Proof.
  unfold read_view. induction l as [| b rest IH]; intros Hin;
    [destruct Hin |].
  cbn [map find write_tensor data_ptr].
  destruct (Nat.eqb_spec (data_ptr b) (data_ptr t)) as [Heq | Hne].
  - unfold write_tensor. now rewrite Heq.
  - destruct Hin as [-> | Hin]; [congruence |]. exact (IH Hin).
Qed.

Lemma read_value_written {A : Type} (debug_env : list string)
  (now : nat -> A) (l : list (Tensor A)) (t : Tensor A) :
  In t l ->
  read_value (map (write_tensor now) l) (param_value debug_env t)
  = param_value debug_env (write_tensor now t).
Proof.
  intro Hin. unfold param_value.
  destruct (negb (in_debug_env "no_ref_pass" debug_env)); [reflexivity |].
  cbn [read_value]. now rewrite read_view_written.
Qed.

Lemma tupleize_value_address {A : Type} (debug_env : list string)
  (now : nat -> A) (t : Tensor A) :
  negb (in_debug_env "no_ref_pass" debug_env) = true ->
  tupleize_value (param_value debug_env t)
  = param_value debug_env (write_tensor now t).
Proof.
  intro Href. unfold param_value. now rewrite Href.
Qed.

Lemma dict_get_map {A B : Type} (g : A -> B) (d : list (node * A))
  (k : node) :
  dict_get (map (fun p => (fst p, g (snd p))) d) k
  = (a <- dict_get d k ;; Ok (g a)).
Proof.
  induction d as [| [k' a] rest IH]; [reflexivity |].
  cbn [map dict_get fst snd]. now destruct (Nat.eqb k' k).
Qed.

Section InitializerCache.
Context {F : Type} `{FloatTy F}.
Variable self : PytorchModelCreator F.
Variable debug_env : list string.
Variable weights_now : nat -> mat F.
Variable biases_now : nat -> vec F.

Local Abbreviation later :=
  (written_in_place weights_now biases_now self).

Lemma weight_buffers_written :
  weight_buffers later = map (write_tensor weights_now) (weight_buffers self).
Proof.
  unfold weight_buffers, written_in_place.
  cbn [component_to_forward_info].
  induction (component_to_forward_info self) as [| [n info] rest IH];
    [reflexivity |].
  cbn [map flat_map fst snd]. rewrite IH, map_app. f_equal.
  unfold write_info. cbn [fi_afferents]. now rewrite !map_map.
Qed.

Lemma bias_buffers_written :
  bias_buffers later = map (write_tensor biases_now) (bias_buffers self).
Proof.
  unfold bias_buffers, written_in_place.
  cbn [component_to_forward_info].
  induction (component_to_forward_info self) as [| [n info] rest IH];
    [reflexivity |].
  cbn [map flat_map fst snd]. rewrite IH, map_app. f_equal.
  unfold write_info. cbn [fi_biases].
  now destruct (fi_biases info).
Qed.

Lemma find_afferent_written (afferents : list (node * Tensor (mat F)))
  (afferent_node : node) :
  forall idx,
    option_map fst
      (find_afferent
         (map (fun p => (fst p, write_tensor weights_now (snd p))) afferents)
         afferent_node idx)
    = option_map fst (find_afferent afferents afferent_node idx).
Proof.
  induction afferents as [| [vertex w] rest IH]; intro idx; [reflexivity |].
  cbn [map find_afferent fst snd].
  destruct (Nat.eqb vertex afferent_node); [reflexivity | apply IH].
Qed.

Lemma afferent_node_index_written (n afferent_node : node) :
  _get_afferent_node_index later n afferent_node
  = _get_afferent_node_index self n afferent_node.
Proof.
  unfold _get_afferent_node_index, written_in_place.
  cbn [component_to_forward_info]. rewrite dict_get_map.
  destruct (dict_get (component_to_forward_info self) n) as [info |];
    [| reflexivity].
  cbn [bind]. unfold write_info at 1. cbn [fi_afferents].
  now rewrite find_afferent_written.
Qed.

Section Read.
(** How the entries made from the tensors of [self] read once the tensors
    are written. *)
Variable on_weights : ParamValue (mat F) -> ParamValue (mat F).
Variable on_biases : ParamValue (vec F) -> ParamValue (vec F).
Hypothesis on_weights_written :
  forall w, In w (weight_buffers self) ->
            on_weights (param_value debug_env w)
            = param_value debug_env (write_tensor weights_now w).
Hypothesis on_biases_written :
  forall b, In b (bias_buffers self) ->
            on_biases (param_value debug_env b)
            = param_value debug_env (write_tensor biases_now b).

Lemma initialize_weights_written (n : node)
  (afferents : list (node * Tensor (mat F))) :
  forall weights,
    (forall a w, In (a, w) afferents -> In w (weight_buffers self)) ->
    initialize_weights later debug_env n
      (map (fun p => (fst p, write_tensor weights_now (snd p))) afferents)
      (map (option_map on_weights) weights)
    = (weights' <- initialize_weights self debug_env n afferents weights ;;
       Ok (map (option_map on_weights) weights')).
Proof.
  induction afferents as [| [a w] rest IH]; intros weights Hin;
    [reflexivity |].
  cbn [map initialize_weights fst snd].
  rewrite afferent_node_index_written.
  destruct (_get_afferent_node_index self n a) as [[idx |] |];
    [| reflexivity | reflexivity].
  cbn [bind]. rewrite <- (on_weights_written w (Hin a w (or_introl eq_refl))).
  change (Some (on_weights (param_value debug_env w)))
    with (option_map on_weights (Some (param_value debug_env w))).
  rewrite list_set_map.
  destruct (list_set weights idx (Some (param_value debug_env w)))
    as [weights1 |]; [| reflexivity].
  cbn [bind]. apply IH. intros a0 w0 Hin0. apply (Hin a0 w0). now right.
Qed.

Lemma initialize_node_written (n : node) (info : ForwardInfo F) :
  In (n, info) (component_to_forward_info self) ->
  initialize_node later debug_env n (write_info weights_now biases_now info)
  = (np <- initialize_node self debug_env n info ;;
     Ok {| weight_array := map (option_map on_weights) (weight_array np);
           bias_param := option_map on_biases (bias_param np) |}).
Proof.
  intro Hin. unfold initialize_node, write_info.
  cbn [fi_afferents fi_biases]. rewrite length_map.
  replace (repeat None (length (fi_afferents info)))
    with (map (option_map on_weights)
              (repeat None (length (fi_afferents info))))
    at 1 by apply map_repeat.
  rewrite initialize_weights_written.
  - destruct (initialize_weights self debug_env n (fi_afferents info)
                (repeat None (length (fi_afferents info)))) as [weights |];
      [| reflexivity].
    cbn [bind weight_array bias_param]. do 2 f_equal.
    assert (Hb : forall b, fi_biases info = Some b ->
                           In b (bias_buffers self)).
    { intros b Hb. unfold bias_buffers. apply in_flat_map.
      exists (n, info). split; [exact Hin |]. cbn [snd]. rewrite Hb.
      now left. }
    destruct (fi_biases info) as [b |]; [| reflexivity].
    cbn [option_map]. now rewrite (on_biases_written b (Hb b eq_refl)).
  - intros a w Haw. unfold weight_buffers. apply in_flat_map.
    exists (n, info). split; [exact Hin |]. cbn [snd].
    apply in_map_iff. now exists (a, w).
Qed.

Lemma initialize_params_written (items : list (node * ForwardInfo F)) :
  forall param_list,
    (forall n info, In (n, info) items ->
                    In (n, info) (component_to_forward_info self)) ->
    initialize_params later debug_env
      (map (fun p => (fst p, write_info weights_now biases_now (snd p)))
           items)
      (map_params on_weights on_biases param_list)
    = (param_list' <- initialize_params self debug_env items param_list ;;
       Ok (map_params on_weights on_biases param_list')).
Proof.
  induction items as [| [n info] rest IH]; intros param_list Hin;
    [reflexivity |].
  cbn [map initialize_params fst snd].
  rewrite (initialize_node_written n info (Hin n info (or_introl eq_refl))).
  destruct (initialize_node self debug_env n info) as [np |];
    [| reflexivity].
  cbn [bind get_node_index written_in_place]. unfold map_params at 1.
  match goal with
  | |- context [list_set (map ?f param_list) ?i (Some ?x)] =>
      change (Some x) with (f (Some np))
  end.
  rewrite list_set_map.
  destruct (list_set param_list (get_node_index self n) (Some np))
    as [param_list1 |]; [| reflexivity].
  cbn [bind]. apply IH. intros n0 info0 Hin0. apply Hin. now right.
Qed.

Lemma initialize_model_written :
  initialize_params later debug_env (component_to_forward_info later)
    (repeat None (composition_nodes later))
  = (param_list <- initialize_params self debug_env
                     (component_to_forward_info self)
                     (repeat None (composition_nodes self)) ;;
     Ok (map_params on_weights on_biases param_list)).
Proof.
  rewrite <- initialize_params_written by (intros n info Hin; exact Hin).
  unfold map_params. now rewrite map_repeat.
Qed.

End Read.

(** X10.  The cache of [_get_param_initializer] holds addresses and
    arrays that share the buffers of the tensors, so it follows the
    tensors: after a call has filled [self._cached_param_list] and the
    weight and bias tensors have then been written in place, a call that
    finds the cache returns what a call that builds the list anew from the
    tensors as they are now returns.  By default that is the unchanged
    addresses; under ["no_ref_pass"] it is the values the tensors hold
    now, not those they held when the cache was filled. *)
Theorem param_initializer_cache_follows_tensors
  (param_list cached : list (option (NodeParams F))) :
  _get_param_initializer self debug_env None = Ok (param_list, cached) ->
  exists param_list' cached',
    _get_param_initializer later debug_env None
    = Ok (param_list', cached')
    /\ _get_param_initializer later debug_env (Some cached)
       = Ok (param_list', cached').
Proof.
  unfold _get_param_initializer.
  destruct (initialize_params self debug_env (component_to_forward_info self)
              (repeat None (composition_nodes self)))
    as [raw |] eqn:Hraw; [| discriminate].
  cbn [bind].
  destruct (negb (in_debug_env "no_ref_pass" debug_env)) eqn:Href;
    intro Hinit; injection Hinit as _ <-.
  - rewrite (initialize_model_written tupleize_value tupleize_value)
      by (intros; now apply tupleize_value_address).
    rewrite Hraw. cbn [bind]. do 2 eexists. split; [reflexivity |].
    change (_tupleize (map_params tupleize_value tupleize_value raw))
      with (map_params tupleize_value tupleize_value
              (map_params tupleize_value tupleize_value raw)).
    change (read_views later (_tupleize raw))
      with (map_params (read_value (weight_buffers later))
                       (read_value (bias_buffers later))
                       (map_params tupleize_value tupleize_value raw)).
    rewrite !map_params_fixed; try reflexivity;
      intros [a | t | x]; reflexivity.
  - rewrite (initialize_model_written
               (read_value (weight_buffers later))
               (read_value (bias_buffers later))).
    + rewrite Hraw. cbn [bind]. do 2 eexists. split; reflexivity.
    + intros w Hin. rewrite weight_buffers_written.
      now apply read_value_written.
    + intros b Hin. rewrite bias_buffers_written.
      now apply read_value_written.
Qed.

End InitializerCache.


(** ** The further statements on the concrete graphs *)

(** X11 on the chain [0 -> 1 -> 2]. *)
Lemma forward_kernel_frame_witness :
  exists c keys,
    _gen_llvm_forward_function_body Examples.empty_ctx Examples.chain false
    = Ok (c, keys)
    /\ forall m,
         forward_frame Examples.chain false [0; 1; 2] m (c m).
Proof.
  eexists; eexists.
  assert (Hgen : _gen_llvm_forward_function_body Examples.empty_ctx
                   Examples.chain false = Ok (_, _)) by reflexivity.
  split; [exact Hgen |].
  exact (forward_kernel_frame Examples.empty_ctx Examples.chain false _ _
           Hgen).
Defined.

(** X12 on the chain [0 -> 1 -> 2], at the hidden node 1. *)
Lemma forward_retains_activation_arguments_witness :
  exists c z_values bin_func,
    _gen_llvm_forward_function_body Examples.empty_ctx Examples.chain true
    = Ok (c, z_values)
    /\ In 1 z_values
    /\ bin_function_creator Examples.empty_ctx Examples.chain 1
       = Ok bin_func
    /\ forall m, exists cmp_arg,
         m_z (c m) 1 = vec_copy cmp_arg 1
         /\ m_output (c m) 1 = bin_func cmp_arg 1.
Proof.
  eexists; eexists.
  assert (Hgen : _gen_llvm_forward_function_body Examples.empty_ctx
                   Examples.chain true = Ok (_, _)) by reflexivity.
  assert (Hnd : NoDup (map (get_node_index Examples.chain)
                           (concat (execution_sets Examples.chain))))
    by (repeat constructor; cbn; intuition discriminate).
  destruct (forward_retains_activation_arguments Examples.empty_ctx
              Examples.chain _ _ 1 Hnd Hgen (or_intror (or_introl eq_refl)))
    as (Hz & bin_func & Hb & Hval).
  exists bin_func. split; [exact Hgen |]. split; [exact Hz |].
  split; [exact Hb |]. intro m.
  destruct (Hval m) as (cmp_arg & Hzv & Hout & _).
  exists cmp_arg. split; [exact Hzv | exact Hout].
Defined.

(** X16 on the chain [0 -> 1 -> 2]: the nodes 2 and 1 get an error buffer,
    the input node 0 gets none. *)
Lemma backprop_error_buffers_witness :
  exists st,
    backprop_loop Examples.squared_loss Examples.squared_loss_differential
                  Examples.empty_ctx Examples.chain MSELoss [0; 1; 2]
                  (backprop_fuel Examples.chain)
                  (backprop_init Examples.chain (fun m => m)) = Ok st
    /\ error_dict st = [2; 1]
    /\ NoDup (error_dict st)
    /\ forall n,
         In n (error_dict st) ->
         is_ok (dict_get (component_to_forward_info Examples.chain) n)
         = true
         /\ node_mem n [0; 1; 2] = true
         /\ has_afferents Examples.chain n = true
         /\ n <> input_CIM Examples.chain
         /\ node_mem n (input_nodes Examples.chain) = false.
Proof.
  eexists.
  assert (Hrun : backprop_loop Examples.squared_loss
                   Examples.squared_loss_differential Examples.empty_ctx
                   Examples.chain MSELoss [0; 1; 2]
                   (backprop_fuel Examples.chain)
                   (backprop_init Examples.chain (fun m => m)) = Ok _)
    by reflexivity.
  split; [exact Hrun |]. split; [reflexivity |].
  exact (backprop_error_buffers Examples.squared_loss
           Examples.squared_loss_differential Examples.empty_ctx
           Examples.chain MSELoss [0; 1; 2] (fun m => m)
           (backprop_fuel Examples.chain) _ Hrun).
Defined.

(** X17 on the graph [0 -> 1 -> 2 -> 3] with the edge [1 -> 3]: once the
    output node 3 is handled the queue holds 1 and 2, and the generator
    fails at node 1, whose efferent 2 has no error buffer yet. *)
Lemma backprop_before_efferent_raises_witness :
  is_ok (backprop_loop Examples.squared_loss
           Examples.squared_loss_differential Examples.empty_ctx
           Examples.skip_graph MSELoss [0; 1; 2; 3] 1
           Examples.skip_after_output)
  = false.
Proof.
  apply (backprop_before_efferent_raises Examples.squared_loss
           Examples.squared_loss_differential Examples.empty_ctx
           Examples.skip_graph MSELoss [0; 1; 2; 3] 0
           Examples.skip_after_output 1 2 [2]).
  - reflexivity.
  - reflexivity.
  - reflexivity.
  - cbn. now left.
  - discriminate.
  - reflexivity.
Defined.

(** X18 on the chain [0 -> 1 -> 2] with the optimizer ['sgd']. *)
Lemma backprop_kernel_keeps_weights_witness :
  exists kernel,
    _gen_llvm_training_backprop Examples.squared_loss
      Examples.squared_loss_differential (fun _ => 0) Examples.empty_ctx
      Examples.chain SGDOptimizer MSELoss
    = Ok kernel
    /\ forall input_idx m, keeps_weights 0 m (kernel input_idx m).
Proof.
  eexists.
  assert (Hgen : _gen_llvm_training_backprop Examples.squared_loss
                   Examples.squared_loss_differential (fun _ => 0)
                   Examples.empty_ctx Examples.chain SGDOptimizer MSELoss
                 = Ok _) by reflexivity.
  split; [exact Hgen |].
  exact (backprop_kernel_keeps_weights Examples.squared_loss
           Examples.squared_loss_differential (fun _ => 0)
           Examples.empty_ctx Examples.chain SGDOptimizer MSELoss _ Hgen).
Defined.

(** X21 on the chain [0 -> 1 -> 2] with an optimizer whose calls leave the
    memory as it is. *)
Lemma training_kernel_runs_calls_witness :
  exists kernel backprop,
    _gen_llvm_training_function_body Examples.squared_loss
      Examples.squared_loss_differential (fun _ => 0) Examples.idle
      Examples.idle Examples.idle Examples.empty_ctx Examples.chain
    = Ok kernel
    /\ forall epochs num_inputs m,
         kernel epochs num_inputs m
         = fold_left
             (fun acc c =>
                run_call (Examples.idle SGDOptimizer) backprop
                         (Examples.idle SGDOptimizer) c acc)
             (concat
                (map (fun epoch_idx =>
                        flat_map
                          (fun i => [ZeroGrad; Backprop i; OptimizerStep])
                          (seq 0 num_inputs))
                     (seq 0 epochs)))
             (Examples.idle SGDOptimizer m).
Proof.
  eexists.
  assert (Hgen : _gen_llvm_training_function_body Examples.squared_loss
                   Examples.squared_loss_differential (fun _ => 0)
                   Examples.idle Examples.idle Examples.idle
                   Examples.empty_ctx Examples.chain = Ok _)
    by reflexivity.
  destruct (training_kernel_runs_calls Examples.squared_loss
              Examples.squared_loss_differential (fun _ => 0) Examples.idle
              Examples.idle Examples.idle Examples.empty_ctx Examples.chain
              _ Hgen) as (optimizer & backprop & Hopt & _ & _ & Hrun).
  exists backprop. split; [exact Hgen |].
  assert (Hsgd : optimizer = SGDOptimizer) by (rewrite Hopt; reflexivity).
  rewrite Hsgd in Hrun. exact Hrun.
Defined.

(** X8 on the pair [0 -> 1] in the default configuration: the entry of
    node 1 holds one weight and the address 20 of its bias tensor. *)
Lemma param_initializer_layout_witness :
  exists param_list cached np,
    _get_param_initializer Examples.biased_pair [] None
    = Ok (param_list, cached)
    /\ length param_list = 2
    /\ nth_error param_list 1 = Some (Some np)
    /\ length (weight_array np) = 1
    /\ bias_param np = Some (Address 20).
Proof.
  eexists; eexists.
  assert (Hinit : _get_param_initializer Examples.biased_pair [] None
                  = Ok (_, _)) by (vm_compute; reflexivity).
  assert (Hidx : NoDup (map (fun p => get_node_index Examples.biased_pair
                                        (fst p))
                            (component_to_forward_info Examples.biased_pair)))
    by (repeat constructor; cbn; intuition discriminate).
  match type of Hinit with
  | _ = Ok (?p, ?c) =>
      destruct (param_initializer_layout Examples.biased_pair [] p c Hidx
                  Hinit) as (Hlen & Hnodes & _)
  end.
  destruct (Hnodes 1
              {| fi_value := [0%Z];
                 fi_biases := Some (Examples.tensor 20 [1%Z]);
                 fi_function := fun x : vec Z => x;
                 fi_afferents := [(0, Examples.tensor 10 [[1%Z]])] |}
              (or_intror (or_introl eq_refl))) as (np & Hat & Hw & Hb).
  exists np. split; [exact Hinit |]. split; [exact Hlen |].
  split; [exact Hat |]. split; [exact Hw | exact Hb].
Defined.

(** X9 on the pair [0 -> 1] in a composition that counts one node: the
    index 1 of node 1 is out of range. *)
Lemma param_initializer_index_out_of_range_witness :
  is_ok (_get_param_initializer Examples.crowded_pair [] None) = false.
Proof.
  apply (param_initializer_index_out_of_range Examples.crowded_pair [] 1
           {| fi_value := [0%Z];
              fi_biases := Some (Examples.tensor 20 [1%Z]);
              fi_function := fun x : vec Z => x;
              fi_afferents := [(0, Examples.tensor 10 [[1%Z]])] |}).
  - right. left. reflexivity.
  - cbn. lia.
Defined.

(** X26 for [Linear(slope=2, intercept=1)] on the tensor [[3]]. *)
Lemma function_creator_agrees_with_kernel_witness :
  function_creator (Linear 2%R 1%R) [3%R]
  = function_loop (fun x => (x * 2 + 1)%R) [3%R] 1.
Proof.
  exact (function_creator_agrees_with_kernel (Linear 2%R 1%R)
           (fun x => (x * 2 + 1)%R) [3%R] eq_refl).
Defined.

(** X30 on a heap of two buffers, the weight tensor of projection 0 at
    address 0 and the bias tensor of mechanism 1 at address 1. *)
Lemma accessors_return_current_values_witness :
  exists h' out copy,
    get_weights_for_projections [(0, 0)] [5; 6] = Ok (h', out)
    /\ dict_get out 0 = Ok copy
    /\ nth_error h' copy = Some 5.
Proof.
  assert (Hw : NoDup (map fst [(0, 0)]))
    by (repeat constructor; cbn; intuition).
  assert (Hb : NoDup (map fst [(1, 1)]))
    by (repeat constructor; cbn; intuition).
  assert (Hin : forall key tensor,
             In (key, tensor) ([(0, 0)] ++ [(1, 1)]) -> tensor < length [5; 6]).
  { intros key tensor [Heq | [Heq | []]]; injection Heq as <- <-; cbn; lia. }
  destruct (accessors_return_current_values nat [(0, 0)] [(1, 1)] [5; 6]
              Hw Hb Hin) as [(h' & out & Hcall & Hitems & _) _].
  destruct (Hitems 0 0 (or_introl eq_refl)) as (copy & Hget & Hval).
  exists h', out, copy. split; [exact Hcall |]. split; [exact Hget |].
  exact Hval.
Defined.

(** X22 on the chain [0 -> 1 -> 2] with the input [[1]] at node 0: the
    output node 2 is the only key of [outputs]. *)
Lemma forward_returns_last_set_witness :
  exists outs infos' host',
    forward (fun _ => 1) [[0]; [1]; [2]] [] [(0, [1%Z])] false false
            Examples.chain_infos Examples.empty_host
    = Ok (outs, infos', host')
    /\ (forall c, In c (map fst outs) <-> In c [2])
    /\ dict_get (parameters_value host') 1
       = dict_get (parameters_value Examples.empty_host) 1.
Proof.
  eexists; eexists; eexists.
  assert (Hfwd : forward (fun _ => 1) [[0]; [1]; [2]] [] [(0, [1%Z])]
                         false false Examples.chain_infos Examples.empty_host
                 = Ok (_, _, _)) by (vm_compute; reflexivity).
  match type of Hfwd with
  | _ = Ok (?o, ?s, ?h) =>
      destruct (forward_returns_last_set (fun _ => 1) [(0, [1%Z])]
                  [[0]; [1]; [2]] [] false false Examples.chain_infos s
                  Examples.empty_host h o Hfwd) as (Hkeys & _ & Hother)
  end.
  split; [exact Hfwd |]. split; [exact Hkeys |].
  apply Hother. cbn. intuition discriminate.
Defined.

(** X23 on the chain [0 -> 1 -> 2]: node 1 keeps its afferent. *)
Lemma forward_changes_values_only_witness :
  exists outs infos' host' info',
    forward (fun _ => 1) [[0]; [1]; [2]] [] [(0, [1%Z])] false false
            Examples.chain_infos Examples.empty_host
    = Ok (outs, infos', host')
    /\ dict_get infos' 1 = Ok info'
    /\ fi_afferents info' = [(0, Examples.tensor 10 [[2%Z]])].
Proof.
  eexists; eexists; eexists.
  assert (Hfwd : forward (fun _ => 1) [[0]; [1]; [2]] [] [(0, [1%Z])]
                         false false Examples.chain_infos Examples.empty_host
                 = Ok (_, _, _)) by (vm_compute; reflexivity).
  match type of Hfwd with
  | _ = Ok (?o, ?s, ?h) =>
      destruct (forward_changes_values_only (fun _ => 1) [(0, [1%Z])]
                  [[0]; [1]; [2]] [] false false Examples.chain_infos s
                  Examples.empty_host h o Hfwd) as (Hsame & _)
  end.
  destruct (Hsame 1 _ eq_refl) as (info' & Hget & _ & _ & Haff).
  exists info'. split; [exact Hfwd |]. split; [exact Hget | exact Haff].
Defined.

(** X24 on the chain [0 -> 1 -> 2] with logging and a scheduler: three
    values are logged and the clock advances by three time steps. *)
Lemma forward_logs_and_clock_witness :
  exists outs infos' host' logged,
    forward (fun _ => 1) [[0]; [1]; [2]] [] [(0, [1%Z])] true true
            Examples.chain_infos Examples.empty_host
    = Ok (outs, infos', host')
    /\ value_log host' = logged
    /\ map fst logged = [0; 1; 2]
    /\ time_steps host' = 3.
Proof.
  eexists; eexists; eexists.
  assert (Hfwd : forward (fun _ => 1) [[0]; [1]; [2]] [] [(0, [1%Z])]
                         true true Examples.chain_infos Examples.empty_host
                 = Ok (_, _, _)) by (vm_compute; reflexivity).
  match type of Hfwd with
  | _ = Ok (?o, ?s, ?h) =>
      destruct (forward_logs_and_clock (fun _ => 1) [(0, [1%Z])]
                  [[0]; [1]; [2]] [] true true Examples.chain_infos s
                  Examples.empty_host h o Hfwd)
        as ((logged & Hlog & Hkeys) & _ & Hclock)
  end.
  exists logged. split; [exact Hfwd |]. split; [exact Hlog |].
  split; [exact Hkeys | exact Hclock].
Defined.

(** X25 on the chain [0 -> 1 -> 2] without an input for node 0. *)
Lemma forward_missing_input_raises_witness :
  is_ok (forward (fun _ => 1) [[0]; [1]; [2]] [] [] false false
                 Examples.chain_infos Examples.empty_host)
  = false.
Proof.
  exact (forward_missing_input_raises (fun _ => 1) [] [0] [[1]; [2]] []
           false false Examples.chain_infos Examples.empty_host 0
           (or_introl eq_refl) eq_refl).
Defined.

(** X1 on the composition of the chain, with the parameters copied from
    the composition. *)
Lemma init_from_pnl_makes_no_biases_witness :
  exists self matrix_parameter',
    __init__ Examples.constant_rand Examples.chain_composition true
             [[0]; [1]; [2]] 100 []
    = Ok (self, matrix_parameter')
    /\ mechanisms_to_pytorch_biases self = []
    /\ get_biases_for_mechanisms
         (map (fun p => (fst p, data_ptr (snd p)))
              (mechanisms_to_pytorch_biases self)) [5; 6]
       = Ok ([5; 6], []).
Proof.
  eexists; eexists.
  assert (Hinit : __init__ Examples.constant_rand Examples.chain_composition
                           true [[0]; [1]; [2]] 100 [] = Ok (_, _))
    by (vm_compute; reflexivity).
  destruct (init_from_pnl_makes_no_biases Examples.constant_rand
              Examples.chain_composition [[0]; [1]; [2]] 100 [] _ _ Hinit)
    as (Hb & _ & Hget).
  split; [exact Hinit |]. split; [exact Hb | exact (Hget nat [5; 6])].
Defined.


(** X3 on the composition of the chain, with random weights: a bias and
    a weight matrix for each of the nodes 1 and 2, in the buffers 100 to
    103. *)
Lemma init_registers_parameters_witness :
  exists self matrix_parameter',
    __init__ Examples.constant_rand Examples.chain_composition false
             [[0]; [1]; [2]] 100 []
    = Ok (self, matrix_parameter')
    /\ parameter_list self = [100; 101; 102; 103]
    /\ NoDup (parameter_list self).
Proof.
  eexists; eexists.
  assert (Hinit : __init__ Examples.constant_rand Examples.chain_composition
                           false [[0]; [1]; [2]] 100 [] = Ok (_, _))
    by (vm_compute; reflexivity).
  destruct (init_registers_parameters Examples.constant_rand
              Examples.chain_composition false [[0]; [1]; [2]] 100 [] _ _
              Hinit) as (Hlist & Hnd & _).
  split; [exact Hinit |]. split; [exact Hlist | exact Hnd].
Defined.

(** X4 on the composition of the chain, with the parameters copied from
    the composition: the matrix parameter of projection 10 is the array on
    the buffer 100 of the model's weight tensor, which holds the matrix
    [[2]] of the projection. *)
Lemma init_shares_weights_with_projections_witness :
  exists self matrix_parameter',
    __init__ Examples.constant_rand Examples.chain_composition true
             [[0]; [1]; [2]] 100 []
    = Ok (self, matrix_parameter')
    /\ In (10, Examples.tensor 100 [[2%Z]])
          (projections_to_pytorch_weights self)
    /\ dict_get matrix_parameter' 10 = Ok (Examples.tensor 100 [[2%Z]]).
Proof.
  eexists; eexists.
  assert (Hinit : __init__ Examples.constant_rand Examples.chain_composition
                           true [[0]; [1]; [2]] 100 [] = Ok (_, _))
    by (vm_compute; reflexivity).
  destruct (init_shares_weights_with_projections Examples.constant_rand
              Examples.chain_composition true [[0]; [1]; [2]] 100 [] _ _
              Hinit) as (Hshared & _).
  assert (Hin : In (10, Examples.tensor 100 [[2%Z]])
                   [(10, Examples.tensor 100 [[2%Z]]);
                    (11, Examples.tensor 101 [[3%Z]])]) by now left.
  split; [exact Hinit |]. split; [exact Hin |].
  exact (proj1 (Hshared 10 _ Hin)).
Defined.

(** X5 on the composition of the chain: the origin node 0. *)
Lemma init_origin_nodes_witness :
  exists self matrix_parameter' info,
    __init__ Examples.constant_rand Examples.chain_composition false
             [[0]; [1]; [2]] 100 []
    = Ok (self, matrix_parameter')
    /\ dict_get (forward_infos self) 0 = Ok info
    /\ fi_biases info = None
    /\ fi_afferents info = [].
Proof.
  eexists; eexists.
  assert (Hinit : __init__ Examples.constant_rand Examples.chain_composition
                           false [[0]; [1]; [2]] 100 [] = Ok (_, _))
    by (vm_compute; reflexivity).
  destruct (init_origin_nodes Examples.constant_rand
              Examples.chain_composition false [0] [[1]; [2]] 100 [] _ _ 0
              Hinit (or_introl eq_refl)
              ltac:(cbn; intuition discriminate))
    as (info & Hget & Hb & Ha).
  exists info. split; [exact Hinit |]. split; [exact Hget |].
  split; [exact Hb | exact Ha].
Defined.

(** X19 on the chain [0 -> 1 -> 2], for the edge [0 -> 1]. *)
Lemma weight_gradients_accumulate_witness :
  exists c,
    compute_weight_gradients (fun _ => 0) Examples.chain SGDOptimizer [2; 1]
    = Ok c
    /\ forall m,
         load2 (m_optim (c m) 0 1 0) 0 0
         = Z.add (load2 (m_optim m 0 1 0) 0 0)
                 (Z.mul (load (m_output m 0) 0) (load (m_err m 1) 0)).
Proof.
  eexists.
  assert (Hgen : compute_weight_gradients (fun _ => 0) Examples.chain
                   SGDOptimizer [2; 1] = Ok _) by reflexivity.
  split; [exact Hgen |]. intro m.
  assert (Hnd : NoDup (map (get_node_index Examples.chain) [2; 1]))
    by (repeat constructor; cbn; intuition discriminate).
  assert (Honce : NoDup (map fst [(0, Examples.tensor 10 [[2%Z]])]))
    by (repeat constructor; cbn; intuition).
  destruct (weight_gradients_accumulate (fun _ => 0) Examples.chain
              SGDOptimizer [2; 1] _ 1
              {| fi_value := [0%Z]; fi_biases := None;
                 fi_function := fun x : vec Z => x;
                 fi_afferents := [(0, Examples.tensor 10 [[2%Z]])] |}
              0 0 (Examples.tensor 10 [[2%Z]]) Hgen Hnd
              (or_intror (or_introl eq_refl)) eq_refl eq_refl Honce eq_refl
              m) as [_ Hval].
  apply (Hval 0 0); cbn; lia.
Defined.

(** X20 on the chain [0 -> 1 -> 2]: the loss of the output node 2. *)
Lemma backprop_total_loss_witness :
  exists kernel forward_code z_values handled,
    _gen_llvm_training_backprop Examples.squared_loss
      Examples.squared_loss_differential (fun _ => 0) Examples.empty_ctx
      Examples.chain SGDOptimizer MSELoss
    = Ok kernel
    /\ _gen_llvm_forward_function_body Examples.empty_ctx Examples.chain true
       = Ok (forward_code, z_values)
    /\ (In 2 handled \/ never_handled Examples.chain 2 = true)
    /\ forall input_idx m,
         m_total_loss (kernel input_idx m)
         = fmul fhalf
                (loss_sum Examples.squared_loss Examples.chain MSELoss
                   (forward_code (copy_inputs Examples.chain input_idx m))
                   m input_idx handled).
Proof.
  eexists.
  assert (Hgen : _gen_llvm_training_backprop Examples.squared_loss
                   Examples.squared_loss_differential (fun _ => 0)
                   Examples.empty_ctx Examples.chain SGDOptimizer MSELoss
                 = Ok _) by reflexivity.
  destruct (backprop_total_loss Examples.squared_loss
              Examples.squared_loss_differential (fun _ => 0)
              Examples.empty_ctx Examples.chain SGDOptimizer MSELoss _ Hgen)
    as (forward_code & z_values & handled & Hfw & _ & _ & Hall & Hloss).
  exists forward_code, z_values, handled.
  split; [exact Hgen |]. split; [exact Hfw |].
  split; [apply Hall; now left | exact Hloss].
Defined.

(** X6 on the chain [0 -> 1 -> 2]: node 0 is an afferent of node 1,
    node 2 is not. *)
Lemma weight_lookup_witness :
  _gen_get_node_weight_ptr Examples.chain 1 0 = Ok (1, 0, 1, 1)
  /\ _get_afferent_node_index Examples.chain 1 2 = Ok None
  /\ _gen_get_node_weight_ptr Examples.chain 1 2 = Raise "UnboundLocalError".
Proof.
  destruct (weight_lookup Examples.chain 1 2
              {| fi_value := [0%Z]; fi_biases := None;
                 fi_function := fun x : vec Z => x;
                 fi_afferents := [(0, Examples.tensor 10 [[2%Z]])] |}
              eq_refl) as [_ Hnone].
  split; [reflexivity |].
  apply Hnone. cbn. intuition discriminate.
Defined.

(** X13: the value of the hidden node 1 of the chain [0 -> 1 -> 2] in the
    emitted forward kernel. *)
Lemma forward_component_value_witness :
  exists c bin_func,
    forward_component Examples.empty_ctx Examples.chain false 1 1 = Ok c
    /\ bin_function_creator Examples.empty_ctx Examples.chain 1
       = Ok bin_func
    /\ forall m,
         m_output (c m) 1
         = bin_func (kernel_pre_activation Examples.chain m 1
                       [(0, Examples.tensor 10 [[2%Z]])]) 1.
Proof.
  eexists.
  assert (Hgen : forward_component Examples.empty_ctx Examples.chain false
                                   1 1 = Ok _) by reflexivity.
  assert (Honce : NoDup (map fst [(0, Examples.tensor 10 [[2%Z]])]))
    by (repeat constructor; cbn; intuition).
  destruct (forward_component_value Examples.empty_ctx Examples.chain 1
              {| fi_value := [0%Z]; fi_biases := None;
                 fi_function := fun x : vec Z => x;
                 fi_afferents := [(0, Examples.tensor 10 [[2%Z]])] |}
              eq_refl Honce
              ltac:(intros a w [Heq | []]; injection Heq as <- _;
                    discriminate)
              false 1 _ ltac:(discriminate) Hgen) as (bin_func & Hb & Hval).
  exists bin_func. split; [exact Hgen |]. split; [exact Hb | exact Hval].
Defined.

(** X10 on the pair [0 -> 1] under ["no_ref_pass"]: the cache is filled
    while the weight is [[1]] and the bias [1]; after the tensors have been
    written to [[5]] and [7], the call that finds the cache returns the
    new values. *)
Lemma param_initializer_cache_follows_tensors_witness :
  exists param_list cached param_list' cached',
    _get_param_initializer Examples.biased_pair ["no_ref_pass"%string] None
    = Ok (param_list, cached)
    /\ _get_param_initializer
         (written_in_place (fun _ => [[5%Z]]) (fun _ => [7%Z])
                           Examples.biased_pair)
         ["no_ref_pass"%string] (Some cached)
       = Ok (param_list', cached')
    /\ nth_error param_list 1
       = Some (Some {| weight_array := [Some (Tuple [[1%Z]])];
                       bias_param := Some (Tuple [1%Z]) |})
    /\ nth_error param_list' 1
       = Some (Some {| weight_array := [Some (Tuple [[5%Z]])];
                       bias_param := Some (Tuple [7%Z]) |}).
Proof.
  do 4 eexists.
  assert (Hinit : _get_param_initializer Examples.biased_pair
                    ["no_ref_pass"%string] None = Ok (_, _))
    by (vm_compute; reflexivity).
  destruct (param_initializer_cache_follows_tensors Examples.biased_pair
              ["no_ref_pass"%string] (fun _ => [[5%Z]]) (fun _ => [7%Z])
              _ _ Hinit) as (param_list' & cached' & Hfresh & Hcached).
  vm_compute in Hfresh. injection Hfresh as <- <-.
  split; [exact Hinit |]. split; [exact Hcached |].
  split; reflexivity.
Defined.


(** C9 on the chain [0 -> 1 -> 2] with the input [[1]] at node 0: the
    hidden node 1 holds [[2]] in the model, the value of one propagation;
    the output node 2 is the only key of the returned [outputs], and its
    value [[6]] is the only one written to the host. *)
Lemma forward_stores_all_values_copies_last_set_witness :
  exists outs infos' host' info,
    forward (fun _ => 1) [[0]; [1]; [2]] [] [(0, [1%Z])] false false
            Examples.chain_infos Examples.empty_host
    = Ok (outs, infos', host')
    /\ dict_get infos' 1 = Ok info
    /\ spec_node_value (fun _ => 1) [(0, [1%Z])] infos' 1 1 info
       = Ok (fi_value info)
    /\ fi_value info = [2%Z]
    /\ (forall c, In c (map fst outs) <-> In c [2])
    /\ dict_get outs 2 = Ok [6%Z]
    /\ dict_get (parameters_value host') 2 = Ok [6%Z]
    /\ dict_get (output_state_value host') 2 = Ok [6%Z]
    /\ dict_get (parameters_value host') 1
       = dict_get (parameters_value Examples.empty_host) 1.
Proof.
  eexists; eexists; eexists.
  assert (Hfwd : forward (fun _ => 1) [[0]; [1]; [2]] [] [(0, [1%Z])]
                         false false Examples.chain_infos Examples.empty_host
                 = Ok (_, _, _)) by (vm_compute; reflexivity).
  match type of Hfwd with
  | _ = Ok (?o, ?s, ?h) =>
      destruct (forward_stores_all_values_copies_last_set (fun _ => 1)
                  [(0, [1%Z])] [[0]; [1]; [2]] [] false false
                  Examples.chain_infos s Examples.empty_host h o
                  eq_refl Hfwd)
        as (Hvalues & Hkeys & Hcopied & Hothers)
  end.
  destruct (Hvalues 1 [1] 1 eq_refl (or_introl eq_refl))
    as [info [Hget Hval]].
  exists info. split; [exact Hfwd |]. split; [exact Hget |].
  split; [exact Hval |].
  split; [cbn in Hget; injection Hget as <-; reflexivity |].
  split; [exact Hkeys |].
  destruct (Hcopied 2 [6%Z] eq_refl) as (_ & Hvalue & Hstate).
  split; [reflexivity |]. split; [exact Hvalue |].
  split; [exact Hstate |].
  apply (Hothers 1). cbn. intros [Heq | []]. discriminate.
Defined.

(** C9 as stated fails on the chain [0 -> 1 -> 2] with the input [[1]] at
    node 0: after [forward] the value [[2]] of the hidden node 1 is in the
    forward information of the model, but it is neither returned nor
    written to the host.  The returned [outputs] and the value parameters
    of the mechanisms hold the output node 2 only, and looking up node 1
    there raises [KeyError]: it is not the case that the value of every
    node of the graph can be read from the host. *)
Lemma forward_hidden_value_not_at_host :
  exists outs infos' host' info,
    forward (fun _ => 1) [[0]; [1]; [2]] [] [(0, [1%Z])] false false
            Examples.chain_infos Examples.empty_host
    = Ok (outs, infos', host')
    /\ In 1 (concat [[0]; [1]; [2]])
    /\ dict_get infos' 1 = Ok info
    /\ fi_value info = [2%Z]
    /\ outs = [(2, [6%Z])]
    /\ dict_get outs 1 = Raise "KeyError"
    /\ dict_get (parameters_value host') 1 = Raise "KeyError"
    /\ dict_get (output_state_value host') 1 = Raise "KeyError"
    /\ ~ (forall c,
            In c (concat [[0]; [1]; [2]]) ->
            exists info_c,
              dict_get infos' c = Ok info_c
              /\ dict_get (parameters_value host') c
                 = Ok (fi_value info_c)).
Proof.
  do 4 eexists. split; [vm_compute; reflexivity |].
  split; [cbn; tauto |]. split; [reflexivity |].
  split; [reflexivity |]. split; [reflexivity |].
  split; [reflexivity |]. split; [reflexivity |].
  split; [reflexivity |].
  intro Hall. destruct (Hall 1) as (info_c & _ & Hhost); [cbn; tauto |].
  discriminate Hhost.
Qed.
